(** * Purchase orchestration of the Unlock checkout

    A shallow embedding of these pieces of the repository:

    - [purchaseKey], the default export of the wallet-service module
      (amount resolution, allowance approval, gas estimation, submission and
      confirmation of a key purchase, possibly wrapped in a swap),
    - [onConfirmCrypto], the handler of [ConfirmSwapAndPurchase] that builds
      the swap description and the purchase request, with the click
      handlers of that screen and of [ConfirmCrossChainPurchase],
    - [purchase] of [MixinPurchase], the function of the lock that the
      submitted call reaches, and
    - the handlers of [UserController].

    JavaScript objects that are used as key/value bags (the transaction
    options) are finite maps; remote calls are oracles of a [World] record;
    the function body runs in a state-and-exception monad whose state is the
    (mutable) transaction options together with the trace of remote calls. *)

From stdpp Require Import gmap strings list fin_maps pretty sorting.

Local Open Scope Z_scope.

(** ** JavaScript values *)

Module Js.

(** The outcome of an expression that may throw. *)
Inductive Result (A : Type) : Type :=
| Ok (a : A)
| Throw (message : string).
Arguments Ok {A} a.
Arguments Throw {A} message.

(** Truthiness of a possibly missing string: [undefined], [null] and the
    empty string are falsy. *)
Definition truthy_string (s : option string) : bool :=
  match s with
  | Some s => negb (String.eqb s "")
  | None => false
  end.

(** Truthiness of a possibly missing integer (number or bigint):
    [undefined], [null] and zero are falsy. *)
Definition truthy_int (z : option Z) : bool :=
  match z with
  | Some z => negb (z =? 0)
  | None => false
  end.

Definition lower_ascii (c : Ascii.ascii) : Ascii.ascii :=
  let n := Ascii.nat_of_ascii c in
  if ((65 <=? n) && (n <=? 90))%nat then Ascii.ascii_of_nat (n + 32) else c.

(** [String.prototype.toLowerCase] on ASCII text (addresses are hex). *)
Fixpoint toLowerCase (s : string) : string :=
  match s with
  | EmptyString => EmptyString
  | String c rest => String (lower_ascii c) (toLowerCase rest)
  end.

(** [BigInt.prototype.toString]: the decimal numeral. *)
Definition toString (z : Z) : string := pretty z.

End Js.

Import Js.

(** The native-currency sentinel.

    Modelled from the spec: the constant [ZERO] is imported from a constants
    module that is not part of the sources at hand; the native-currency
    sentinel is the zero address. *)
Definition ZERO : string := "0x0000000000000000000000000000000000000000".

(** ** Receipts and logs *)

Module Log.
Record t := mk { address : string; topics : list string; data : string }.
End Log.

(** What [parser.parseLog] yields for a log it can decode: the name of the
    event fragment (if any) and the [tokenId] argument (if the event has
    one). *)
Module LogDescription.
Record t := mk { name : option string; tokenId : option Z }.
End LogDescription.

Module Receipt.
Record t := mk { status : option Z; logs : list Log.t }.
End Receipt.

(** ** The arguments of [purchaseKey] *)

Module Swap.
Record t := mk {
  srcTokenAddress : option string;
  uniswapRouter : string;
  swapCallData : string;
  value : option Z;
  amountInMax : Z }.
End Swap.

Module Params.
Record t := mk {
  lockAddress : string;
  owner : option string;
  keyPrice : option string;
  erc20Address : option string;
  decimals : option Z;
  referrer : option string;
  data : option string;
  swap : option Swap.t }.
End Params.

(** [transactionOptions] is a plain object that the function reads, extends
    and deletes from: a finite map from property names to integers. A
    property that holds [null] or [undefined] is an absent key. *)
Abbreviation TransactionOptions := (gmap string Z).

Definition assign (key : string) (v : option Z) (o : TransactionOptions)
  : TransactionOptions :=
  match v with
  | Some z => <[key := z]> o
  | None => delete key o
  end.

(** The three fee properties removed after estimating. *)
Definition deleteFees (o : TransactionOptions) : TransactionOptions :=
  delete "gasPrice" (delete "maxPriorityFeePerGas" (delete "maxFeePerGas" o)).

(** ** Contract calls and remote effects *)

(** [lockContract.interface.encodeFunctionData('purchase', purchaseArgs)]:
    the payload is kept as the method name and its argument list. *)
Module CallData.
Record t := mk {
  method : string;
  amount : Z;
  owner : string;
  referrer : string;
  data : string }.
End CallData.

Inductive Call : Type :=
| purchase (lockAddress : string) (actualAmount : Z)
    (owner referrer data : string)
| swapAndCall (unlockSwapPurchaser lockAddress srcTokenAddress : string)
    (actualAmount amountInMax : Z) (uniswapRouter swapCallData : string)
    (callData : CallData.t).

Module ApprovalOptions.
Record t := mk {
  erc20Address : option string;
  address : option string;
  totalAmountToApprove : Z }.
End ApprovalOptions.

Module FeeData.
Record t := mk {
  gasPrice : option Z;
  maxFeePerGas : option Z;
  maxPriorityFeePerGas : option Z }.
End FeeData.

(** Every suspension point of [purchaseKey] leaves one entry in the trace. *)
Inductive Effect : Type :=
| GetLockContract (lockAddress : string)
| GetSignerAddress
| TokenAddress
| KeyPrice
| GetErc20Decimals (erc20Address : string)
| ApproveAllowance (options : ApprovalOptions.t)
| GetFeeData
| EstimateGas (call : Call) (options : TransactionOptions)
| ConsoleError (message : string)
| SendTransaction (call : Call) (options : TransactionOptions)
| Callback (hash : string)
| WaitForTransaction (hash : string).

(** The collaborators of [purchaseKey]: what each remote call answers. None
    of them is called twice in one run, so a fixed answer per call loses
    nothing. [toDecimal] and [parseLog] are library helpers whose code is
    not part of the sources; [getUnlockSwapPurchaserContract] is the address
    of the swap-purchaser contract of the network, [None] when the lookup
    yields nothing. *)
Module World.
Record t := mk {
  getLockContract : string → Result unit;
  getUnlockSwapPurchaserContract : option string;
  getAddress : Result string;
  tokenAddress : Result string;
  keyPrice : Result Z;
  getErc20Decimals : string → Result Z;
  toDecimal : string → Z → Result Z;
  approveAllowance : ApprovalOptions.t → Result unit;
  getFeeData : Result FeeData.t;
  estimateGas : Call → TransactionOptions → Result Z;
  sendTransaction : Call → TransactionOptions → Result string;
  waitForTransaction : string → Result Receipt.t;
  parseLog : Log.t → option LogDescription.t }.
End World.

(** ** The monad of the function body *)

Module State.
Record t := mk {
  transactionOptions : TransactionOptions;
  trace : list Effect }.
End State.

(** A computation reads and writes the state and either returns or throws;
    a throw keeps the state reached so far (JavaScript does not roll back). *)
Definition M (A : Type) : Type := State.t → Result A * State.t.

Definition ret {A} (a : A) : M A := λ s, (Ok a, s).

Definition bind {A B} (m : M A) (f : A → M B) : M B :=
  λ s, match m s with
       | (Ok a, s') => f a s'
       | (Throw e, s') => (Throw e, s')
       end.

Notation "'let*' x ':=' m 'in' k" := (bind m (λ x, k))
  (at level 10, x name, m at level 100, k at level 200, only parsing).
Notation "'do' m 'in' k" := (bind m (λ _, k))
  (at level 10, m at level 100, k at level 200, only parsing).

(** A computation without effect that may throw. *)
Definition lift {A} (r : Result A) : M A := λ s, (r, s).

(** [await] of a remote call: the call is recorded, then its answer is
    returned or thrown. *)
Definition await {A} (e : Effect) (r : Result A) : M A :=
  λ s, (r, State.mk (State.transactionOptions s) (State.trace s ++ [e])).

Definition getOptions : M TransactionOptions :=
  λ s, (Ok (State.transactionOptions s), s).

Definition modifyOptions (f : TransactionOptions → TransactionOptions)
  : M unit :=
  λ s, (Ok tt, State.mk (f (State.transactionOptions s)) (State.trace s)).

Definition tryCatch {A} (m : M A) (handler : string → M A) : M A :=
  λ s, match m s with
       | (Throw e, s') => handler e s'
       | r => r
       end.

(** ** [purchaseKey] *)

(** Lines "let actualAmount ... " of the function: the amount in base
    units. *)
Definition resolveAmount (w : World.t) (keyPrice : option string)
    (decimals : option Z) (erc20Address : option string) : M Z :=
  if negb (truthy_string keyPrice) then
    await KeyPrice (World.keyPrice w)
  else
    match decimals with
    | Some decimals => lift (World.toDecimal w (default "" keyPrice) decimals)
    | None =>
        let* decimals :=
          (if truthy_string erc20Address
              && bool_decide (erc20Address ≠ Some ZERO)
           then await (GetErc20Decimals (default "" erc20Address))
                  (World.getErc20Decimals w (default "" erc20Address))
           else ret 18) in
        lift (World.toDecimal w (default "" keyPrice) decimals)
    end.

(** The two assignments to [transactionOptions.value]. *)
Definition setValue (erc20Address : option string) (actualAmount : Z)
    (swap : option Swap.t) (o : TransactionOptions) : TransactionOptions :=
  let o :=
    if negb (truthy_string erc20Address)
       || bool_decide (erc20Address = Some ZERO)
    then <["value" := actualAmount]> o
    else o in
  match swap with
  | Some swap =>
      if truthy_int (Swap.value swap)
      then assign "value" (Swap.value swap) o
      else o
  | None => o
  end.

Definition approvalOptions (swap : option Swap.t)
    (unlockSwapPurchaserContract : option string)
    (erc20Address : option string) (lockAddress : string) (actualAmount : Z)
  : ApprovalOptions.t :=
  match swap with
  | Some swap =>
      ApprovalOptions.mk (Swap.srcTokenAddress swap)
        unlockSwapPurchaserContract (Swap.amountInMax swap)
  | None => ApprovalOptions.mk erc20Address (Some lockAddress) actualAmount
  end.

(** "Only ask for approval if the lock or swap is priced in ERC20". *)
Definition approve (w : World.t) (options : ApprovalOptions.t) : M unit :=
  if truthy_string (ApprovalOptions.erc20Address options)
     && bool_decide (ApprovalOptions.erc20Address options ≠ Some ZERO)
  then await (ApproveAllowance options) (World.approveAllowance w options)
  else ret tt.

(** The call that is estimated and then submitted; both places of the
    source pass the same argument list. [None] stands for the [undefined]
    that the optional chaining on a missing swap-purchaser contract
    yields. *)
Definition buildCall (swap : option Swap.t)
    (unlockSwapPurchaserContract : option string) (lockAddress : string)
    (actualAmount : Z) (owner referrer data : string) (callData : CallData.t)
  : option Call :=
  match swap with
  | Some swap =>
      match unlockSwapPurchaserContract with
      | Some contract =>
          Some (swapAndCall contract lockAddress
                  (if truthy_string (Swap.srcTokenAddress swap)
                   then default "" (Swap.srcTokenAddress swap) else ZERO)
                  actualAmount (Swap.amountInMax swap)
                  (Swap.uniswapRouter swap) (Swap.swapCallData swap) callData)
      | None => None
      end
  | None => Some (purchase lockAddress actualAmount owner referrer data)
  end.

(** The fee properties set before estimating: the EIP-1559 pair when the
    network reports both, the legacy gas price otherwise. *)
Definition setFees (feeData : FeeData.t) (o : TransactionOptions)
  : TransactionOptions :=
  if truthy_int (FeeData.maxFeePerGas feeData)
     && truthy_int (FeeData.maxPriorityFeePerGas feeData)
  then assign "maxPriorityFeePerGas" (FeeData.maxPriorityFeePerGas feeData)
         (assign "maxFeePerGas" (FeeData.maxFeePerGas feeData) o)
  else assign "gasPrice" (FeeData.gasPrice feeData) o.

(** The body of the [try] block. *)
Definition estimate (w : World.t) (call : option Call) : M unit :=
  let* feeData := await GetFeeData (World.getFeeData w) in
  do modifyOptions (setFees feeData) in
  let* o := getOptions in
  let* gasLimit :=
    match call with
    | Some call =>
        let* g := await (EstimateGas call o) (World.estimateGas w call o) in
        ret (Some g)
    | None => ret None
    end in
  do modifyOptions deleteFees in
  match gasLimit with
  | Some gasLimit => modifyOptions <["gasLimit" := (gasLimit * 13) `quot` 10]>
  | None => lift (Throw "TypeError")
  end.

(** "Estimate gas. Bump by 30% because estimates are wrong!" *)
Definition estimateGasStep (w : World.t) (call : option Call) : M unit :=
  let* o := getOptions in
  if negb (truthy_int (o !! "gasLimit")) then
    tryCatch (estimate w call)
      (λ error,
        do await
             (ConsoleError
                "We could not estimate gas ourselves. Let wallet do it.")
             (Ok tt) in
        modifyOptions deleteFees)
  else ret tt.

(** [_handleMethodCall(transactionPromise)]. *)
Definition submit (w : World.t) (call : option Call) : M string :=
  let* o := getOptions in
  match call with
  | Some call => await (SendTransaction call o) (World.sendTransaction w call o)
  | None => lift (Throw "TypeError")
  end.

(** The callback of [receipt.logs.map]: logs of other contracts map to
    [undefined] ("Some events are triggered by the ERC20 contract"). *)
Definition parseLockLog (w : World.t) (lockAddress : string) (log : Log.t)
  : option LogDescription.t :=
  if bool_decide (toLowerCase (Log.address log) ≠ toLowerCase lockAddress)
  then None
  else World.parseLog w log.

(** The predicate of [.find]. *)
Definition isTransfer (evt : option LogDescription.t) : bool :=
  match evt with
  | Some evt => bool_decide (LogDescription.name evt = Some "Transfer")
  | None => false
  end.

Definition transferEvent (w : World.t) (lockAddress : string)
    (logs : list Log.t) : option LogDescription.t :=
  mjoin (find isTransfer (map (parseLockLog w lockAddress) logs)).

(** The end of the function, from the receipt on: the token identifier as a
    string, [None] for JavaScript's [null]. *)
Definition resolveReceipt (w : World.t) (lockAddress : string)
    (receipt : Receipt.t) : Result (option string) :=
  if bool_decide (Receipt.status receipt = Some 0)
  then Throw "Transaction failed"
  else
    match transferEvent w lockAddress (Receipt.logs receipt) with
    | Some evt =>
        match LogDescription.tokenId evt with
        | Some tokenId => Ok (Some (toString tokenId))
        | None => Throw "TypeError"
        end
    | None => Ok None
    end.

(** The default export. [callback] tells whether a callback was passed. *)
Definition purchaseKey (w : World.t) (p : Params.t) (callback : bool)
  : M (option string) :=
  let lockAddress := Params.lockAddress p in
  let swap := Params.swap p in
  do await (GetLockContract lockAddress)
       (World.getLockContract w lockAddress) in
  let unlockSwapPurchaserContract :=
    match swap with
    | Some _ => World.getUnlockSwapPurchaserContract w
    | None => None
    end in
  let* owner :=
    (if negb (truthy_string (Params.owner p))
     then await GetSignerAddress (World.getAddress w)
     else ret (default "" (Params.owner p))) in
  let referrer :=
    if negb (truthy_string (Params.referrer p)) then ZERO
    else default "" (Params.referrer p) in
  let data :=
    if negb (truthy_string (Params.data p)) then "0x"
    else default "" (Params.data p) in
  let* erc20Address :=
    (if negb (truthy_string (Params.erc20Address p))
     then let* a := await TokenAddress (World.tokenAddress w) in ret (Some a)
     else ret (Params.erc20Address p)) in
  let* actualAmount :=
    resolveAmount w (Params.keyPrice p) (Params.decimals p) erc20Address in
  let callData := CallData.mk "purchase" actualAmount owner referrer data in
  do modifyOptions (setValue erc20Address actualAmount swap) in
  do approve w
       (approvalOptions swap unlockSwapPurchaserContract erc20Address
          lockAddress actualAmount) in
  let call :=
    buildCall swap unlockSwapPurchaserContract lockAddress actualAmount
      owner referrer data callData in
  do estimateGasStep w call in
  let* hash := submit w call in
  do (if callback then await (Callback hash) (Ok tt) else ret tt) in
  let* receipt :=
    await (WaitForTransaction hash) (World.waitForTransaction w hash) in
  lift (resolveReceipt w lockAddress receipt).

(** One call of the function on the caller's options object. *)
Definition run {A} (m : M A) (transactionOptions : TransactionOptions)
  : Result A * State.t :=
  m (State.mk transactionOptions []).

(** ** [ConfirmSwapAndPurchase.onConfirmCrypto] *)

(** One entry of [pricingData.prices], known by what [amount.toString()]
    prints. *)
Module PriceItem.
Record t := mk { userAddress : string; amount_toString : string }.
End PriceItem.

Module PricingData.
Record t := mk { prices : list PriceItem.t }.
End PricingData.

(** [payment.route]: the router, its payload, the native value to forward,
    the quote as [quote.toFixed()] prints it, and the input currency. *)
Module Route.
Record t := mk {
  swapRouter : string;
  swapCalldata : string;
  value : option Z;
  quote_toFixed : string;
  currency_address : option string;
  currency_decimals : Z }.
End Route.

(** The part of the checkout context and of the hooks that the handler
    reads. [recurringPaymentAmount] and [totalApproval] are computed by the
    component before the handler runs. *)
Module Context.
Record t := mk {
  lockAddress : string;
  lockNetwork : Z;
  keyPrice : string;
  recipients : list string;
  keyManagers : option (list string);
  renew : bool;
  purchaseData : option (list string);
  pricingData : option PricingData.t;
  route : Route.t;
  recurringPaymentAmount : option Z;
  totalApproval : option Z }.
End Context.

(** Helpers of the application and of ethers whose code is not part of the
    sources: [getReferrer] (closed over the paywall configuration),
    [ethers.parseUnits] and [getWalletService]. *)
Module Host.
Record t := mk {
  getReferrer : string → string → string;
  parseUnits : string → Z → Result Z;
  getWalletService : Z → Result unit }.
End Host.

Module ExtendKeyParams.
Record t := mk {
  lockAddress : string;
  keyPrice : string;
  owner : option string;
  data : string;
  referrer : option string;
  swap : Swap.t }.
End ExtendKeyParams.

Module PurchaseKeysParams.
Record t := mk {
  lockAddress : string;
  keyPrices : list string;
  owners : list string;
  data : option (list string);
  keyManagers : option (list string);
  recurringPayments : option (list Z);
  referrers : list string;
  totalApproval : option Z;
  swap : Swap.t }.
End PurchaseKeysParams.

(** What a click on the button leads to. *)
Inductive Outcome : Type :=
| NotReady
| Rejected (message : string)
| ExtendKey (params : ExtendKeyParams.t)
| PurchaseKeys (params : PurchaseKeysParams.t)
    (transactionParams : TransactionOptions).

(** [recurringPayments] of the component. *)
Definition recurringPayments (ctx : Context.t) : option (list Z) :=
  if truthy_int (Context.recurringPaymentAmount ctx)
  then Some (replicate (length (Context.recipients ctx))
               (default 0 (Context.recurringPaymentAmount ctx)))
  else None.

(** [pricingData?.prices.map(...) || new Array(recipients.length).fill(keyPrice)];
    an array is truthy even when empty. *)
Definition keyPrices (ctx : Context.t) : list string :=
  match Context.pricingData ctx with
  | Some pricingData =>
      map PriceItem.amount_toString (PricingData.prices pricingData)
  | None => replicate (length (Context.recipients ctx)) (Context.keyPrice ctx)
  end.

Definition referrers (h : Host.t) (ctx : Context.t) : list string :=
  map (λ recipient, Host.getReferrer h recipient (Context.lockAddress ctx))
    (Context.recipients ctx).

(** [amountInMax] of the swap: the quote in base units with the 1% slippage
    buffer, in bigint arithmetic (division truncates). *)
Definition amountInMax (h : Host.t) (route : Route.t) : Result Z :=
  match Host.parseUnits h (Route.quote_toFixed route)
          (Route.currency_decimals route) with
  | Ok quote => Ok ((quote * 101) `quot` 100)
  | Throw e => Throw e
  end.

Definition onConfirmCrypto (h : Host.t) (ctx : Context.t) : Outcome :=
  match Context.pricingData ctx with
  | None => NotReady
  | Some _ =>
      let route := Context.route ctx in
      match amountInMax h route with
      | Throw e => Rejected e
      | Ok amountInMax =>
          let swap :=
            Swap.mk (Route.currency_address route) (Route.swapRouter route)
              (Route.swapCalldata route) (Route.value route) amountInMax in
          match Host.getWalletService h (Context.lockNetwork ctx) with
          | Throw e => Rejected e
          | Ok _ =>
              if Context.renew ctx then
                ExtendKey
                  (ExtendKeyParams.mk (Context.lockAddress ctx)
                     (Context.keyPrice ctx)
                     (Context.recipients ctx !! 0%nat)
                     (match Context.purchaseData ctx with
                      | Some purchaseData =>
                          if truthy_string (purchaseData !! 0%nat)
                          then default "" (purchaseData !! 0%nat) else "0x"
                      | None => "0x"
                      end)
                     (referrers h ctx !! 0%nat)
                     swap)
              else
                PurchaseKeys
                  (PurchaseKeysParams.mk (Context.lockAddress ctx)
                     (keyPrices ctx)
                     (Context.recipients ctx)
                     (Context.purchaseData ctx)
                     (match Context.keyManagers ctx with
                      | Some keyManagers =>
                          if bool_decide (length keyManagers ≠ 0%nat)
                          then Some keyManagers else None
                      | None => None
                      end)
                     (recurringPayments ctx)
                     (referrers h ctx)
                     (Context.totalApproval ctx)
                     swap)
                  ∅
          end
      end
  end.

(** ** Readings used in the statements *)



(** Whether the [try] block throws when it runs on the options [o]: the
    fee data cannot be fetched, there is no contract to estimate on, or the
    estimate itself fails. *)
Definition estimationFails (w : World.t) (call : option Call)
    (o : TransactionOptions) : bool :=
  match World.getFeeData w with
  | Throw _ => true
  | Ok feeData =>
      match call with
      | None => true
      | Some call =>
          match World.estimateGas w call (setFees feeData o) with
          | Throw _ => true
          | Ok _ => false
          end
      end
  end.

(** A triple for the monad: from a state in [P], the computation ends in
    [Q] when it returns a value and in [E] when it throws a message. *)
Definition hoare {A} (P : State.t → Prop) (m : M A)
    (Q : A → State.t → Prop) (E : string → State.t → Prop) : Prop :=
  ∀ s, P s →
    match m s with
    | (Ok a, s') => Q a s'
    | (Throw e, s') => E e s'
    end.

(** An invariant of the state, kept however the computation ends. *)
Definition preserves {A} (I : State.t → Prop) (m : M A) : Prop :=
  hoare I m (λ _, I) (λ _, I).

(** The state after one more remote call. *)
Definition record (e : Effect) (s : State.t) : State.t :=
  State.mk (State.transactionOptions s) (State.trace s ++ [e]).

(** The state after an update of the options. *)
Definition update (f : TransactionOptions → TransactionOptions) (s : State.t)
  : State.t :=
  State.mk (f (State.transactionOptions s)) (State.trace s).

(** The names of the gas properties of the transaction options. *)
Definition gasKeys : list string :=
  ["gasLimit"; "maxFeePerGas"; "maxPriorityFeePerGas"; "gasPrice"].

(** An entry of the trace of a run that skipped the estimation: neither a
    fee-data fetch nor a gas estimate, and a submission only with the gas
    properties of the options [o]. *)
Definition skipsEstimation (o : TransactionOptions) (e : Effect) : Prop :=
  match e with
  | GetFeeData | EstimateGas _ _ => False
  | SendTransaction _ o' => ∀ k, k ∈ gasKeys → o' !! k = o !! k
  | _ => True
  end.

(** The gas properties are those of [o] and the trace skipped the
    estimation so far. *)
Definition gasUntouched (o : TransactionOptions) (s : State.t) : Prop :=
  (∀ k, k ∈ gasKeys → State.transactionOptions s !! k = o !! k)
  ∧ Forall (skipsEstimation o) (State.trace s).

(** No receipt was waited for so far. *)
Definition notMined (s : State.t) : Prop :=
  ∀ hash, WaitForTransaction hash ∉ State.trace s.

(** The outcome of a run is the reading of the receipt it waited for. *)
Definition confirmed (w : World.t) (lockAddress : string)
    (result : Result (option string)) (s : State.t) : Prop :=
  ∀ hash,
    WaitForTransaction hash ∈ State.trace s →
    result
    = match World.waitForTransaction w hash with
      | Ok receipt => resolveReceipt w lockAddress receipt
      | Throw e => Throw e
      end.

(** The payment token that the function settles on: the caller's, or the
    lock's own when the caller gave none. *)
Definition tokenOf (w : World.t) (p : Params.t) : Result (option string) :=
  if negb (truthy_string (Params.erc20Address p)) then
    match World.tokenAddress w with
    | Ok a => Ok (Some a)
    | Throw e => Throw e
    end
  else Ok (Params.erc20Address p).

(** The amount that [resolveAmount] returns, without its trace. *)
Definition amountOf (w : World.t) (keyPrice : option string)
    (decimals : option Z) (erc20Address : option string) : Result Z :=
  if negb (truthy_string keyPrice) then World.keyPrice w
  else
    match decimals with
    | Some decimals => World.toDecimal w (default "" keyPrice) decimals
    | None =>
        if truthy_string erc20Address && bool_decide (erc20Address ≠ Some ZERO)
        then
          match World.getErc20Decimals w (default "" erc20Address) with
          | Ok decimals => World.toDecimal w (default "" keyPrice) decimals
          | Throw e => Throw e
          end
        else World.toDecimal w (default "" keyPrice) 18
    end.

(** The approval that a purchase selects, once the token and the amount are
    resolved. *)
Definition selectedApproval (w : World.t) (p : Params.t)
  : Result ApprovalOptions.t :=
  match tokenOf w p with
  | Ok erc20Address =>
      match amountOf w (Params.keyPrice p) (Params.decimals p) erc20Address with
      | Ok actualAmount =>
          Ok (approvalOptions (Params.swap p)
                (match Params.swap p with
                 | Some _ => World.getUnlockSwapPurchaserContract w
                 | None => None
                 end)
                erc20Address (Params.lockAddress p) actualAmount)
      | Throw e => Throw e
      end
  | Throw e => Throw e
  end.

(** Whether the lock contract and the owner are available, so that the run
    gets to resolving the token and the amount. *)
Definition reachesResolution (w : World.t) (p : Params.t) : bool :=
  match World.getLockContract w (Params.lockAddress p) with
  | Ok _ =>
      truthy_string (Params.owner p)
      || match World.getAddress w with Ok _ => true | Throw _ => false end
  | Throw _ => false
  end.

(** Every approval in the trace is the selected one, for a token that is an
    ERC20 contract. *)
Definition approvalsSelected (w : World.t) (p : Params.t) (s : State.t)
  : Prop :=
  ∀ options,
    ApproveAllowance options ∈ State.trace s →
    selectedApproval w p = Ok options
    ∧ truthy_string (ApprovalOptions.erc20Address options) = true
    ∧ ApprovalOptions.erc20Address options ≠ Some ZERO.

(** An optional array, when present, has [n] entries. *)
Definition hasLength {A} (n : nat) (l : option (list A)) : bool :=
  match l with
  | Some l => bool_decide (length l = n)
  | None => true
  end.

(** Whether every per-recipient array of a request that is present has one
    entry per owner. *)
Definition perRecipient (request : PurchaseKeysParams.t) : bool :=
  let n := length (PurchaseKeysParams.owners request) in
  bool_decide (length (PurchaseKeysParams.keyPrices request) = n)
  && hasLength n (PurchaseKeysParams.data request)
  && hasLength n (PurchaseKeysParams.keyManagers request)
  && hasLength n (PurchaseKeysParams.recurringPayments request)
  && bool_decide (length (PurchaseKeysParams.referrers request) = n).

(** ** Sample inputs *)

Module Sample.

Definition lock : string := "0x1111111111111111111111111111111111111111".
Definition token : string := "0x2222222222222222222222222222222222222222".
Definition purchaser : string := "0x3333333333333333333333333333333333333333".
Definition buyer : string := "0x4444444444444444444444444444444444444444".
Definition router : string := "0x5555555555555555555555555555555555555555".

(** A decoder that knows the [Transfer] topic and reads the identifier
    from the data. *)
Definition parseLog (log : Log.t) : option LogDescription.t :=
  match Log.topics log with
  | "Transfer" :: _ =>
      Some (LogDescription.mk (Some "Transfer")
              (Some (Z.of_nat (String.length (Log.data log)))))
  | "RenewKeyPurchase" :: _ =>
      Some (LogDescription.mk (Some "RenewKeyPurchase") None)
  | _ => None
  end.

(** The payment token moved funds (a [Transfer] of its own), then the lock
    issued key 7. *)
Definition logs : list Log.t :=
  [ Log.mk token ["Transfer"] "0x";
    Log.mk lock ["RenewKeyPurchase"] "";
    Log.mk lock ["Transfer"] "0000007" ].

Definition world : World.t :=
  World.mk
    (λ _, Ok tt) (Some purchaser) (Ok buyer) (Ok ZERO) (Ok 5)
    (λ _, Ok 6) (λ _ _, Ok 1000) (λ _, Ok tt)
    (Ok (FeeData.mk (Some 3) (Some 20) (Some 2)))
    (λ _ _, Ok 100007) (λ _ _, Ok "0xhash")
    (λ _, Ok (Receipt.mk (Some 1) logs))
    parseLog.

(** The same network when the fee data cannot be fetched. *)
Definition offline : World.t :=
  World.mk
    (λ _, Ok tt) (Some purchaser) (Ok buyer) (Ok ZERO) (Ok 5)
    (λ _, Ok 6) (λ _ _, Ok 1000) (λ _, Ok tt)
    (Throw "network error")
    (λ _ _, Throw "execution reverted") (λ _ _, Ok "0xhash")
    (λ _, Ok (Receipt.mk (Some 1) logs))
    parseLog.

(** The same network when the purchase reverts on chain. *)
Definition reverted : World.t :=
  World.mk
    (λ _, Ok tt) (Some purchaser) (Ok buyer) (Ok ZERO) (Ok 5)
    (λ _, Ok 6) (λ _ _, Ok 1000) (λ _, Ok tt)
    (Ok (FeeData.mk (Some 3) (Some 20) (Some 2)))
    (λ _ _, Ok 100007) (λ _ _, Ok "0xhash")
    (λ _, Ok (Receipt.mk (Some 0) logs))
    parseLog.

(** A direct purchase at the lock's own price, in native currency. *)
Definition direct : Params.t :=
  Params.mk lock (Some buyer) None None None None None None.

Definition directCall : Call := purchase lock 5 buyer ZERO "0x".

Definition host : Host.t :=
  Host.mk (λ _ _, buyer) (λ _ _, Ok 1000) (λ _, Ok tt).

(** A route quoted at 1000 base units of [token]. *)
Definition route : Route.t :=
  Route.mk router "0xswap" (Some 0) "1000" (Some token) 0.

(** Two recipients, priced one by one, but a single key manager. *)
Definition context : Context.t :=
  Context.mk lock 1 "5" [buyer; purchaser] (Some [buyer]) false None
    (Some (PricingData.mk
             [PriceItem.mk buyer "5"; PriceItem.mk purchaser "5"]))
    route (Some 12) None.

Definition request : PurchaseKeysParams.t :=
  PurchaseKeysParams.mk lock ["5"; "5"] [buyer; purchaser] None
    (Some [buyer]) (Some [12; 12]) [buyer; buyer] None
    (Swap.mk (Some token) router "0xswap" (Some 0) 1010).

(** A swap paid in [token] that forwards no native value, into a lock
    priced in native currency. *)
Definition swap : Swap.t :=
  Swap.mk (Some token) router "0xswap" (Some 0) 1010.

Definition swapped : Params.t :=
  Params.mk lock (Some buyer) None None None None None (Some swap).

(** The same purchase when the route has no native-value field at all. *)
Definition swappedBare : Params.t :=
  Params.mk lock (Some buyer) None None None None None
    (Some (Swap.mk (Some token) router "0xswap" None 1010)).

Definition swapCall : Call :=
  swapAndCall purchaser lock token 5 1010 router "0xswap"
    (CallData.mk "purchase" 5 buyer ZERO "0x").

End Sample.

(** ** The click handlers of the two confirmation screens *)

(** An error object as the handlers read it: [error.code] (a number or a
    string), [error.error.message] and [error.message]. *)
Module JsError.
Record t := mk {
  code : option (Z + string);
  nested : option string;
  message : option string }.
End JsError.

(** The outcome of an awaited call that may reject with an error object. *)
Inductive Attempt (A : Type) : Type :=
| Resolved (a : A)
| Failed (error : JsError.t).
Arguments Resolved {A} a.
Arguments Failed {A} error.

(** What a handler does, in order. *)
Inductive UiEffect : Type :=
| SetIsConfirming (isConfirming : bool)
| UpdateUsersMetadata
| GetWalletService (network : Z)
| SignerSendTransaction (tx : string)
| OnConfirmed (lockAddress : string) (network : Z) (hash : option string)
| LogError (error : JsError.t)
| ToastError (message : option string)
| SendConfirmMintError (transactionHash : option string)
| WalletExtendKey (params : ExtendKeyParams.t)
| WalletPurchaseKeys (params : PurchaseKeysParams.t)
    (transactionParams : TransactionOptions).

(** The [case] labels of [onError]: -32000, 4001 and 'ACTION_REJECTED',
    compared strictly. *)
Definition rejectedByUser (code : option (Z + string)) : bool :=
  match code with
  | Some (inl n) => (n =? -32000) || (n =? 4001)
  | Some (inr s) => String.eqb s "ACTION_REJECTED"
  | None => false
  end.

(** The text that [onError(error, message)] shows. *)
Definition toastMessage (error : JsError.t) (message : option string)
  : option string :=
  if rejectedByUser (JsError.code error) then Some "Transaction rejected."
  else if truthy_string message then message
  else if truthy_string (JsError.nested error) then JsError.nested error
  else JsError.message error.

(** [onError(error, message)], the same in both screens. *)
Definition onError (error : JsError.t) (message : option string)
  : list UiEffect :=
  [LogError error; ToastError (toastMessage error message)].

(** The [onClick] of the button, the same in both screens: the metadata are
    saved first, outside any [try]; a rejection there ends the handler
    before [confirm] is called. *)
Definition clicked (metadata : bool) (updateUsersMetadata : Attempt unit)
    (confirm : list UiEffect) : list UiEffect :=
  if metadata then
    UpdateUsersMetadata
    :: match updateUsersMetadata with
       | Failed _ => []
       | Resolved _ => confirm
       end
  else confirm.

(** [ConfirmCrossChainPurchase]: what the screen reads from the session and
    its hooks, and the calls it awaits. *)
Module CrossChain.

Record Context := mkContext {
  lockAddress : string;
  hasPricingData : bool;
  routeNetwork : Z;
  routeTx : string;
  hasMetadata : bool }.

Record Host := mkHost {
  updateUsersMetadata : Attempt unit;
  getWalletService : Z → Attempt unit;
  sendTransaction : string → Attempt (option string) }.

Definition onConfirm (h : Host) (ctx : Context) : list UiEffect :=
  if negb (hasPricingData ctx) then []
  else
    SetIsConfirming true
    :: GetWalletService (routeNetwork ctx)
    :: match getWalletService h (routeNetwork ctx) with
       | Failed error => SetIsConfirming false :: onError error None
       | Resolved _ =>
           SignerSendTransaction (routeTx ctx)
           :: match sendTransaction h (routeTx ctx) with
              | Failed error => SetIsConfirming false :: onError error None
              | Resolved hash =>
                  [OnConfirmed (lockAddress ctx) (routeNetwork ctx) hash]
              end
       end.

Definition onClick (h : Host) (ctx : Context) : list UiEffect :=
  clicked (hasMetadata ctx) (updateUsersMetadata h) (onConfirm h ctx).

End CrossChain.

(** [ConfirmSwapAndPurchase]: the wallet service as the handler uses it.
    [purchaseKeys] is given the callback: it reports the calls it made to
    it, then resolves or rejects; [extendKey] is given none. An error of
    [parseUnits] or of [getWalletService] is known to [onConfirmCrypto] by
    its message: [thrown] is the error object that carries it. *)
Module Wallet.
Record t := mk {
  extendKey : ExtendKeyParams.t → Attempt unit;
  purchaseKeys :
    PurchaseKeysParams.t → TransactionOptions →
    list (option JsError.t * option string) * Attempt unit;
  thrown : string → JsError.t }.
End Wallet.

(** [onErrorCallback(error, hash)]. *)
Definition onErrorCallback (lockAddress : string) (network : Z)
    (call : option JsError.t * option string) : list UiEffect :=
  SetIsConfirming false
  :: match call.1 with
     | Some _ => [SendConfirmMintError call.2]
     | None =>
         if truthy_string call.2 then [OnConfirmed lockAddress network call.2]
         else []
     end.

(** The whole of [onConfirmCrypto]: the wallet call that [onConfirmCrypto]
    builds, the callbacks and the [catch]. *)
Definition onConfirmCryptoEffects (h : Host.t) (wallet : Wallet.t)
    (ctx : Context.t) : list UiEffect :=
  let caught error := SetIsConfirming false :: onError error None in
  match onConfirmCrypto h ctx with
  | NotReady => []
  | Rejected message =>
      SetIsConfirming true :: caught (Wallet.thrown wallet message)
  | ExtendKey params =>
      SetIsConfirming true
      :: WalletExtendKey params
      :: match Wallet.extendKey wallet params with
         | Resolved _ => []
         | Failed error => caught error
         end
  | PurchaseKeys params transactionParams =>
      SetIsConfirming true
      :: WalletPurchaseKeys params transactionParams
      :: flat_map
           (onErrorCallback (Context.lockAddress ctx) (Context.lockNetwork ctx))
           (Wallet.purchaseKeys wallet params transactionParams).1
      ++ match (Wallet.purchaseKeys wallet params transactionParams).2 with
         | Resolved _ => []
         | Failed error => caught error
         end
  end.

(** The [onClick] of [ConfirmSwapAndPurchase]. *)
Definition onClickCrypto (metadata : bool) (updateUsersMetadata : Attempt unit)
    (h : Host.t) (wallet : Wallet.t) (ctx : Context.t) : list UiEffect :=
  clicked metadata updateUsersMetadata (onConfirmCryptoEffects h wallet ctx).

(** The value of the [isConfirming] flag after a handler ran. *)
Definition isConfirmingAfter (before : bool) (effects : list UiEffect) : bool :=
  foldl
    (λ flag e, match e with SetIsConfirming b => b | _ => flag end)
    before effects.

(** The session with another key price of the lock. *)
Definition withKeyPrice (keyPrice : string) (ctx : Context.t) : Context.t :=
  Context.mk (Context.lockAddress ctx) (Context.lockNetwork ctx) keyPrice
    (Context.recipients ctx) (Context.keyManagers ctx) (Context.renew ctx)
    (Context.purchaseData ctx) (Context.pricingData ctx) (Context.route ctx)
    (Context.recurringPaymentAmount ctx) (Context.totalApproval ctx).

(** ** Readings of whole runs *)

(** The place of a remote call in the body of [purchaseKey]. *)
Definition stage (e : Effect) : nat :=
  match e with
  | GetLockContract _ => 0
  | GetSignerAddress => 1
  | TokenAddress => 2
  | KeyPrice | GetErc20Decimals _ => 3
  | ApproveAllowance _ => 4
  | GetFeeData => 5
  | EstimateGas _ _ => 6
  | ConsoleError _ => 7
  | SendTransaction _ _ => 8
  | Callback _ => 9
  | WaitForTransaction _ => 10
  end.

(** The calls made so far follow the order of the source and all come
    before stage [n]. *)
Definition inOrder (n : nat) (s : State.t) : Prop :=
  StronglySorted (λ a b, (stage a < stage b)%nat) (State.trace s)
  ∧ Forall (λ e, (stage e < n)%nat) (State.trace s).

(** The message with which the collaborator behind a call rejected it, for
    the calls that [purchaseKey] makes outside its [try] block ([None] when
    the collaborator answered, and for the calls whose failure the function
    handles itself). *)
Definition thrown (w : World.t) (e : Effect) : option string :=
  let message {A} (r : Result A) : option string :=
    match r with Ok _ => None | Throw m => Some m end in
  match e with
  | GetLockContract lockAddress => message (World.getLockContract w lockAddress)
  | GetSignerAddress => message (World.getAddress w)
  | TokenAddress => message (World.tokenAddress w)
  | KeyPrice => message (World.keyPrice w)
  | GetErc20Decimals erc20Address =>
      message (World.getErc20Decimals w erc20Address)
  | ApproveAllowance options => message (World.approveAllowance w options)
  | SendTransaction call options =>
      message (World.sendTransaction w call options)
  | WaitForTransaction hash => message (World.waitForTransaction w hash)
  | GetFeeData | EstimateGas _ _ | ConsoleError _ | Callback _ => None
  end.

(** No call made so far was rejected. *)
Definition healthy (w : World.t) (s : State.t) : Prop :=
  Forall (λ e, thrown w e = None) (State.trace s).

(** The run stopped at a rejected call, with that call's message. *)
Definition stopped (w : World.t) (message : string) (s : State.t) : Prop :=
  healthy w s
  ∨ ∃ t e,
      State.trace s = t ++ [e]
      ∧ thrown w e = Some message
      ∧ Forall (λ e, thrown w e = None) t.

(** The owner, referrer and data that a purchase is made with: the
    caller's, or the signer's address, the zero address and the empty
    payload. *)
Definition ownerOf (w : World.t) (p : Params.t) : Result string :=
  if negb (truthy_string (Params.owner p)) then World.getAddress w
  else Ok (default "" (Params.owner p)).

Definition referrerOf (p : Params.t) : string :=
  if negb (truthy_string (Params.referrer p)) then ZERO
  else default "" (Params.referrer p).

Definition dataOf (p : Params.t) : string :=
  if negb (truthy_string (Params.data p)) then "0x"
  else default "" (Params.data p).

(** The swap-purchaser contract that a purchase uses. *)
Definition purchaserOf (w : World.t) (p : Params.t) : option string :=
  match Params.swap p with
  | Some _ => World.getUnlockSwapPurchaserContract w
  | None => None
  end.

(** The first half of [purchaseKey], up to and including the approval; it
    returns the call to make. *)
Definition prepare (w : World.t) (p : Params.t) : M (option Call) :=
  let lockAddress := Params.lockAddress p in
  let swap := Params.swap p in
  do await (GetLockContract lockAddress)
       (World.getLockContract w lockAddress) in
  let unlockSwapPurchaserContract := purchaserOf w p in
  let* owner :=
    (if negb (truthy_string (Params.owner p))
     then await GetSignerAddress (World.getAddress w)
     else ret (default "" (Params.owner p))) in
  let referrer := referrerOf p in
  let data := dataOf p in
  let* erc20Address :=
    (if negb (truthy_string (Params.erc20Address p))
     then let* a := await TokenAddress (World.tokenAddress w) in ret (Some a)
     else ret (Params.erc20Address p)) in
  let* actualAmount :=
    resolveAmount w (Params.keyPrice p) (Params.decimals p) erc20Address in
  let callData := CallData.mk "purchase" actualAmount owner referrer data in
  do modifyOptions (setValue erc20Address actualAmount swap) in
  do approve w
       (approvalOptions swap unlockSwapPurchaserContract erc20Address
          lockAddress actualAmount) in
  ret (buildCall swap unlockSwapPurchaserContract lockAddress actualAmount
         owner referrer data callData).

(** The second half: estimation, submission, callback and confirmation. *)
Definition settle (w : World.t) (lockAddress : string) (call : option Call)
    (callback : bool) : M (option string) :=
  do estimateGasStep w call in
  let* hash := submit w call in
  do (if callback then await (Callback hash) (Ok tt) else ret tt) in
  let* receipt :=
    await (WaitForTransaction hash) (World.waitForTransaction w hash) in
  lift (resolveReceipt w lockAddress receipt).

(** What the first half leaves behind when it succeeds with the call
    [call]: the resolved owner, token and amount, the call built from them
    and the options with the native value set. *)
Definition prepared (w : World.t) (p : Params.t) (o : TransactionOptions)
    (call : option Call) (o' : TransactionOptions) : Prop :=
  ∃ owner erc20Address actualAmount,
    ownerOf w p = Ok owner
    ∧ tokenOf w p = Ok erc20Address
    ∧ amountOf w (Params.keyPrice p) (Params.decimals p) erc20Address
      = Ok actualAmount
    ∧ call
      = buildCall (Params.swap p) (purchaserOf w p) (Params.lockAddress p)
          actualAmount owner (referrerOf p) (dataOf p)
          (CallData.mk "purchase" actualAmount owner (referrerOf p) (dataOf p))
    ∧ o' = setValue erc20Address actualAmount (Params.swap p) o.

(** The state [s] is [s0] after some more calls of the first half. *)
Definition extends (s0 s : State.t) : Prop :=
  ∃ t, State.trace s = State.trace s0 ++ t
       ∧ Forall (λ e, (stage e ≤ 4)%nat) t.

(** What the estimation step does to the options [o]: the calls it makes
    and the options it leaves. *)
Definition estimation (w : World.t) (call : option Call)
    (o : TransactionOptions) : list Effect * TransactionOptions :=
  let failed := ConsoleError "We could not estimate gas ourselves. Let wallet do it." in
  if truthy_int (o !! "gasLimit") then ([], o)
  else
    match World.getFeeData w with
    | Throw _ => ([GetFeeData; failed], deleteFees o)
    | Ok feeData =>
        match call with
        | None => ([GetFeeData; failed], deleteFees o)
        | Some call =>
            match World.estimateGas w call (setFees feeData o) with
            | Ok gasLimit =>
                ([GetFeeData; EstimateGas call (setFees feeData o)],
                 <["gasLimit" := (gasLimit * 13) `quot` 10]> (deleteFees o))
            | Throw _ =>
                ([GetFeeData; EstimateGas call (setFees feeData o); failed],
                 deleteFees o)
            end
        end
    end.

(** What the second half does from the options [o]: its outcome and the
    calls it makes. *)
Definition settlement (w : World.t) (lockAddress : string)
    (call : option Call) (callback : bool) (o : TransactionOptions)
  : Result (option string) * list Effect :=
  let (estimating, o') := estimation w call o in
  match call with
  | None => (Throw "TypeError", estimating)
  | Some call =>
      match World.sendTransaction w call o' with
      | Throw e => (Throw e, estimating ++ [SendTransaction call o'])
      | Ok hash =>
          (match World.waitForTransaction w hash with
           | Ok receipt => resolveReceipt w lockAddress receipt
           | Throw e => Throw e
           end,
           estimating
           ++ [SendTransaction call o']
           ++ (if callback then [Callback hash] else [])
           ++ [WaitForTransaction hash])
      end
  end.

(** ** Further sample inputs *)

Module Scenario.

(** The sample network when the wallet refuses the approval. *)
Definition refused : World.t :=
  World.mk
    (λ _, Ok tt) (Some Sample.purchaser) (Ok Sample.buyer) (Ok ZERO) (Ok 5)
    (λ _, Ok 6) (λ _ _, Ok 1000) (λ _, Throw "user rejected the approval")
    (Ok (FeeData.mk (Some 3) (Some 20) (Some 2)))
    (λ _ _, Ok 100007) (λ _ _, Ok "0xhash")
    (λ _, Ok (Receipt.mk (Some 1) Sample.logs))
    Sample.parseLog.

(** The approval that the swap of [Sample.swapped] asks for. *)
Definition approval : ApprovalOptions.t :=
  ApprovalOptions.mk (Some Sample.token) (Some Sample.purchaser) 1010.

(** The options with which the sample swap is estimated and submitted. *)
Definition estimated : TransactionOptions :=
  {[ "value" := 5; "maxFeePerGas" := 20; "maxPriorityFeePerGas" := 2 ]}.

Definition submitted : TransactionOptions :=
  {[ "value" := 5; "gasLimit" := 130009 ]}.

(** A purchase on a lock priced in [Sample.token], with a legacy gas price
    of the caller's. *)
Definition erc20 : Params.t :=
  Params.mk Sample.lock (Some Sample.buyer) (Some "0.01")
    (Some Sample.token) None None None None.

(** The sample network when the fee data arrive but the estimate fails. *)
Definition unestimated : World.t :=
  World.mk
    (λ _, Ok tt) (Some Sample.purchaser) (Ok Sample.buyer) (Ok ZERO) (Ok 5)
    (λ _, Ok 6) (λ _ _, Ok 1000) (λ _, Ok tt)
    (Ok (FeeData.mk (Some 3) (Some 20) (Some 2)))
    (λ _ _, Throw "execution reverted") (λ _ _, Ok "0xhash")
    (λ _, Ok (Receipt.mk (Some 1) Sample.logs))
    Sample.parseLog.

(** The options of a caller that passes a gas limit of zero, as they are
    when the direct purchase is estimated and when it is submitted. *)
Definition zeroEstimated : TransactionOptions :=
  {[ "gasLimit" := 0; "value" := 5;
     "maxFeePerGas" := 20; "maxPriorityFeePerGas" := 2 ]}.

Definition zeroSubmitted : TransactionOptions :=
  {[ "gasLimit" := 0; "value" := 5 ]}.

End Scenario.

(** Clicks on the two screens. *)
Module Click.

(** The user dismisses the wallet's prompt. *)
Definition dismissed : JsError.t :=
  JsError.mk (Some (inr "ACTION_REJECTED"))
    (Some "user rejected transaction") (Some "ethers-user-denied").

Definition crossChain : CrossChain.Context :=
  CrossChain.mkContext Sample.lock true 10 "0xroute" true.

Definition accepting : CrossChain.Host :=
  CrossChain.mkHost (Resolved tt) (λ _, Resolved tt)
    (λ _, Resolved (Some "0xhash")).

Definition refusing : CrossChain.Host :=
  CrossChain.mkHost (Resolved tt) (λ _, Resolved tt) (λ _, Failed dismissed).

(** A wallet that reports the hash to the callback once, and renews
    without a word. *)
Definition wallet : Wallet.t :=
  Wallet.mk (λ _, Resolved tt)
    (λ _ _, ([(None, Some "0xhash")], Resolved tt))
    (λ message, JsError.mk None None (Some message)).

Definition renewal : Context.t :=
  Context.mk Sample.lock 1 "5" [Sample.buyer] None true None
    (Some (PricingData.mk [PriceItem.mk Sample.buyer "4"]))
    Sample.route None None.

End Click.

(** ** [MixinPurchase.purchase]

    The function of the lock that the submitted [purchase] call reaches.
    Unsigned integers are integers with the checked arithmetic of Solidity
    0.8 written out. A transaction either reverts with a reason, and leaves
    nothing behind, or is done and leaves the log of what it did: the writes
    to storage, the events, the calls to inherited helpers and to other
    contracts.

    The other mixins, the hook, the token and the Unlock contract are not
    part of the sources: the environment says how each of them answers.
    The two modifiers are read as checks made before the body, and a call
    to another contract is taken not to call back into the lock. The
    [catch] block sees a revert of the Unlock contract, but not a call that
    cannot be made: the transaction then reverts. *)
Module Lock.

Definition MAX_UINT : Z := 2 ^ 256 - 1.

(** [struct Key] of [MixinKeys], as far as [purchase] reads it. *)
Record Key := mkKey { tokenId : Z; expirationTimestamp : Z }.

Inductive Action : Type :=
| AssignNewTokenId (owner : string) (tokenId : Z)
| RecordOwner (owner : string) (tokenId : Z)
| SetExpirationTimestamp (owner : string) (timestamp : Z)
| SetKeyManagerOf (tokenId : Z) (keyManager : string)
| Transfer (from to : string) (tokenId : Z)
| RenewKeyPurchase (owner : string) (newExpiration : Z)
| RecordKeyPurchase (value : Z) (referrer : string)
| UnlockCallFailed (lockAddress unlockAddress : string)
| TransferFrom (token sender recipient : string) (amount : Z)
| OnKeyPurchase (from recipient referrer data : string)
    (minKeyPrice pricePaid : Z)
| SendValue (to : string) (value : Z)
| GasRefunded (receiver : string) (refundedAmount : Z) (tokenAddress : string).

(** How code that is not part of the sources answers a call. *)
Inductive Answer (A : Type) : Type :=
| Returns (a : A)
| Reverts (reason : string).
Arguments Returns {A} a.
Arguments Reverts {A} reason.

(** How a call made under [try] ends: it returns; or it reverts, and the
    [catch] block runs; or it cannot be made at all (there is no contract
    at the address), which no [catch] block sees. *)
Inductive Tried : Type :=
| Accepted
| Caught
| Uncaught (reason : string).

Inductive Tx (A : Type) : Type :=
| Done (a : A) (log : list Action)
| Revert (reason : string).
Arguments Done {A} a log.
Arguments Revert {A} reason.

#[global] Instance tx_ret : MRet Tx := λ A a, Done a [].
#[global] Instance tx_bind : MBind Tx := λ A B k m,
  match m with
  | Revert reason => Revert reason
  | Done a log =>
      match k a with
      | Revert reason => Revert reason
      | Done b log' => Done b (log ++ log')
      end
  end.

Definition emit (action : Action) : Tx unit := Done tt [action].

Definition require (condition : bool) (reason : string) : Tx unit :=
  if condition then mret tt else Revert reason.

(** A check or a [view] call: nothing is left in the log. *)
Definition view {A} (answer : Answer A) : Tx A :=
  match answer with
  | Returns a => mret a
  | Reverts reason => Revert reason
  end.

(** A call that changes state. *)
Definition call {A} (answer : Answer A) (action : Action) : Tx A :=
  match answer with
  | Returns a => Done a [action]
  | Reverts reason => Revert reason
  end.

Definition add (a b : Z) : Tx Z :=
  if a + b <=? MAX_UINT then mret (a + b) else Revert "Panic(0x11)".

Definition mul (a b : Z) : Tx Z :=
  if a * b <=? MAX_UINT then mret (a * b) else Revert "Panic(0x11)".

Definition div (a b : Z) : Tx Z :=
  if b =? 0 then Revert "Panic(0x12)" else mret (a / b).

(** The transaction, the storage of the lock that [purchase] reads, and
    the answers of the code that is not part of the sources. *)
Module Env.
Record t := mk {
  this : string;
  msg_sender : string;
  msg_value : Z;
  block_timestamp : Z;
  keyByOwner : string → Key;
  expirationDuration : Z;
  keyPrice : Z;
  tokenAddress : string;
  onKeyPurchaseHook : string;
  unlockProtocol : string;
  gasRefundBasisPoints : Z;
  BASIS_POINTS_DEN : Z;
  onlyIfAlive : Answer unit;
  notSoldOut : Answer unit;
  assignNewTokenId : string → Answer Z;
  recordOwner : string → Z → Answer unit;
  setKeyManagerOf : Z → string → Answer unit;
  recordKeyPurchase : Z → string → Tried;
  transferFrom : string → string → string → Z → Answer bool;
  keyPurchasePrice : string → string → string → string → Answer Z;
  onKeyPurchase : string → string → string → string → Z → Z → Answer unit;
  send : string → Z → bool }.
End Env.

(** The expiration of a key that starts now. *)
Definition newExpiration (env : Env.t) : Tx Z :=
  if bool_decide (Env.expirationDuration env = MAX_UINT) then mret MAX_UINT
  else add (Env.block_timestamp env) (Env.expirationDuration env).

(** The first part of [purchase]: the key is assigned, extended or
    renewed. [_assignNewTokenId] answers with the identifier that the key
    holds afterwards. *)
Definition assign (env : Env.t) (_recipient _keyManager : string) : Tx unit :=
  let toKey := Env.keyByOwner env _recipient in
  if bool_decide (tokenId toKey = 0) then
    idTo ← match Env.assignNewTokenId env _recipient with
           | Returns idTo => Done idTo [AssignNewTokenId _recipient idTo]
           | Reverts reason => Revert reason
           end;
    call (Env.recordOwner env _recipient idTo) (RecordOwner _recipient idTo) ;;
    newTimeStamp ← newExpiration env;
    emit (SetExpirationTimestamp _recipient newTimeStamp) ;;
    call (Env.setKeyManagerOf env idTo _keyManager)
      (SetKeyManagerOf idTo _keyManager) ;;
    emit (Transfer ZERO _recipient idTo)
  else if bool_decide (Env.block_timestamp env < expirationTimestamp toKey) then
    require (negb (bool_decide (expirationTimestamp toKey = MAX_UINT)))
      "A valid non-expiring key can not be purchased twice" ;;
    newTimeStamp ←
      add (expirationTimestamp toKey) (Env.expirationDuration env);
    emit (SetExpirationTimestamp _recipient newTimeStamp) ;;
    emit (RenewKeyPurchase _recipient newTimeStamp)
  else
    newTimeStamp ← newExpiration env;
    emit (SetExpirationTimestamp _recipient newTimeStamp) ;;
    call (Env.setKeyManagerOf env (tokenId toKey) _keyManager)
      (SetKeyManagerOf (tokenId toKey) _keyManager) ;;
    emit (RenewKeyPurchase _recipient newTimeStamp).

Definition _purchasePriceFor (env : Env.t) (_recipient _referrer _data : string)
  : Tx Z :=
  if negb (bool_decide (Env.onKeyPurchaseHook env = ZERO)) then
    view (Env.keyPurchasePrice env (Env.msg_sender env) _recipient _referrer
            _data)
  else mret (Env.keyPrice env).

Definition purchasePriceFor (env : Env.t) (_recipient _referrer _data : string)
  : Tx Z :=
  _purchasePriceFor env _recipient _referrer _data.

(** What is paid: tokens pulled from the sender, or the value sent. The
    boolean that [transferFrom] returns is not looked at. *)
Definition pay (env : Env.t) (_value : Z) : Tx Z :=
  if negb (bool_decide (Env.tokenAddress env = ZERO)) then
    call (Env.transferFrom env (Env.tokenAddress env) (Env.msg_sender env)
            (Env.this env) _value)
      (TransferFrom (Env.tokenAddress env) (Env.msg_sender env)
         (Env.this env) _value) ;;
    mret _value
  else mret (Env.msg_value env).

(** The gas refund at the end of [purchase]. *)
Definition refund (env : Env.t) (pricePaid : Z) : Tx unit :=
  if negb (Env.gasRefundBasisPoints env =? 0) then
    product ← mul (Env.gasRefundBasisPoints env) pricePaid;
    toRefund ← div product (Env.BASIS_POINTS_DEN env);
    (if negb (bool_decide (Env.tokenAddress env = ZERO)) then
       call (Env.transferFrom env (Env.tokenAddress env) (Env.this env)
               (Env.msg_sender env) toRefund)
         (TransferFrom (Env.tokenAddress env) (Env.this env)
            (Env.msg_sender env) toRefund) ;;
       mret tt
     else
       require (Env.send env (Env.msg_sender env) toRefund) "Refund failed." ;;
       emit (SendValue (Env.msg_sender env) toRefund)) ;;
    emit (GasRefunded (Env.msg_sender env) toRefund (Env.tokenAddress env))
  else mret tt.

Definition purchase (env : Env.t) (_value : Z)
    (_recipient _referrer _keyManager _data : string) : Tx unit :=
  view (Env.onlyIfAlive env) ;;
  view (Env.notSoldOut env) ;;
  require (negb (bool_decide (_recipient = ZERO))) "INVALID_ADDRESS" ;;
  assign env _recipient _keyManager ;;
  inMemoryKeyPrice ← _purchasePriceFor env _recipient _referrer _data;
  match Env.recordKeyPurchase env inMemoryKeyPrice _referrer with
  | Accepted => emit (RecordKeyPurchase inMemoryKeyPrice _referrer)
  | Caught => emit (UnlockCallFailed (Env.this env) (Env.unlockProtocol env))
  | Uncaught reason => Revert reason
  end ;;
  pricePaid ← pay env _value;
  require (inMemoryKeyPrice <=? pricePaid) "INSUFFICIENT_VALUE" ;;
  (if negb (bool_decide (Env.onKeyPurchaseHook env = ZERO)) then
     call (Env.onKeyPurchase env (Env.msg_sender env) _recipient _referrer
             _data inMemoryKeyPrice pricePaid)
       (OnKeyPurchase (Env.msg_sender env) _recipient _referrer _data
          inMemoryKeyPrice pricePaid)
   else mret tt) ;;
  refund env pricePaid.

(** The unsigned integers of the transaction and of the storage are in
    range. *)
Definition inRange (env : Env.t) (_recipient : string) : Prop :=
  0 ≤ Env.block_timestamp env ≤ MAX_UINT
  ∧ 0 ≤ Env.expirationDuration env ≤ MAX_UINT
  ∧ 0 ≤ expirationTimestamp (Env.keyByOwner env _recipient) ≤ MAX_UINT
  ∧ 0 ≤ tokenId (Env.keyByOwner env _recipient) ≤ MAX_UINT
  ∧ 0 ≤ Env.msg_value env ≤ MAX_UINT
  ∧ 0 ≤ Env.gasRefundBasisPoints env < 2 ^ 128
  ∧ 0 ≤ Env.BASIS_POINTS_DEN env ≤ MAX_UINT.

(** The recipient holds a key that has not expired. *)
Definition hasValidKey (env : Env.t) (_recipient : string) : Prop :=
  tokenId (Env.keyByOwner env _recipient) ≠ 0
  ∧ Env.block_timestamp env
    < expirationTimestamp (Env.keyByOwner env _recipient).

(** The same lock with a token whose [transferFrom] returns [false]
    whenever it does not revert. *)
Definition withSilentToken (env : Env.t) : Env.t :=
  Env.mk (Env.this env) (Env.msg_sender env) (Env.msg_value env)
    (Env.block_timestamp env) (Env.keyByOwner env)
    (Env.expirationDuration env) (Env.keyPrice env) (Env.tokenAddress env)
    (Env.onKeyPurchaseHook env) (Env.unlockProtocol env)
    (Env.gasRefundBasisPoints env) (Env.BASIS_POINTS_DEN env)
    (Env.onlyIfAlive env) (Env.notSoldOut env) (Env.assignNewTokenId env)
    (Env.recordOwner env) (Env.setKeyManagerOf env)
    (Env.recordKeyPurchase env)
    (λ token sender recipient amount,
       match Env.transferFrom env token sender recipient amount with
       | Returns _ => Returns false
       | Reverts reason => Reverts reason
       end)
    (Env.keyPurchasePrice env) (Env.onKeyPurchase env) (Env.send env).

(** A lock of one-day keys at 5 wei, with a 10% refund; the buyer's key
    expired at 50. *)
Definition day : Z := 86400.

Definition sample : Env.t :=
  Env.mk Sample.lock Sample.buyer 70 1000
    (λ owner, if bool_decide (owner = Sample.buyer) then mkKey 3 50
              else mkKey 0 0)
    day 5 ZERO ZERO Sample.router 1000 10000
    (Returns tt) (Returns tt) (λ _, Returns 4) (λ _ _, Returns tt)
    (λ _ _, Returns tt) (λ _ _, Caught)
    (λ _ _ _ _, Returns true) (λ _ _ _ _, Returns 5)
    (λ _ _ _ _ _ _, Returns tt) (λ _ _, true).

(** The same lock priced in [Sample.token]. *)
Definition priced : Env.t :=
  Env.mk Sample.lock Sample.buyer 0 1000
    (λ owner, if bool_decide (owner = Sample.buyer) then mkKey 3 50
              else mkKey 0 0)
    day 5 Sample.token ZERO Sample.router 1000 10000
    (Returns tt) (Returns tt) (λ _, Returns 4) (λ _ _, Returns tt)
    (λ _ _, Returns tt) (λ _ _, Caught)
    (λ _ _ _ _, Returns true) (λ _ _ _ _, Returns 5)
    (λ _ _ _ _ _ _, Returns tt) (λ _ _, true).

(** The same lock when the buyer's key is still valid, until 2000. *)
Definition member : Env.t :=
  Env.mk Sample.lock Sample.buyer 70 1000
    (λ _, mkKey 3 2000)
    day 5 ZERO ZERO Sample.router 1000 10000
    (Returns tt) (Returns tt) (λ _, Returns 4) (λ _ _, Returns tt)
    (λ _ _, Returns tt) (λ _ _, Caught)
    (λ _ _ _ _, Returns true) (λ _ _ _ _, Returns 5)
    (λ _ _ _ _ _ _, Returns tt) (λ _ _, true).

(** A lock of keys that never expire, where the buyer's key, granted for a
    time, is still valid. *)
Definition forever : Env.t :=
  Env.mk Sample.lock Sample.buyer 7 1000
    (λ _, mkKey 3 2000)
    MAX_UINT 5 ZERO ZERO Sample.router 0 10000
    (Returns tt) (Returns tt) (λ _, Returns 4) (λ _ _, Returns tt)
    (λ _ _, Returns tt) (λ _ _, Accepted)
    (λ _ _ _ _, Returns true) (λ _ _ _ _, Returns 5)
    (λ _ _ _ _ _ _, Returns tt) (λ _ _, true).

End Lock.

(** ** [UserController]

    The handlers of the user routes. A handler is served a request and
    answers with a response; on the way it calls the operations of
    [UserOperations] and [StripeOperations], the address normalizer and the
    cache of decoy keys, none of which is part of the sources: the backend
    says how each of them answers. The making of a decoy key (a random
    wallet, encrypted under a random password) is one answer of the
    backend, and so is the random recovery phrase. Every request is taken
    to carry a [body.message]. *)
Module Controller.

Module Error.
Record t := mk { name : string; errors : string }.
End Error.

(** Reading a property of [undefined]. *)
Definition typeError : Error.t := Error.mk "TypeError" "".

(** How an awaited operation answers. *)
Inductive Reply (A : Type) : Type :=
| Resolves (a : A)
| Rejects (error : Error.t).
Arguments Resolves {A} a.
Arguments Rejects {A} error.

(** [req.body.message.user]. *)
Module User.
Record t := mk {
  emailAddress : option string;
  publicKey : option string;
  passwordEncryptedPrivateKey : option string;
  stripeTokenId : option string }.
End User.

(** What the handlers read of a request: [req.params.emailAddress],
    [req.params.ethereumAddress], [req.owner], [req.signee],
    [req.body.message.user] and
    [req.body.message['Save Card']] (known by its [stripeTokenId]). *)
Module Request.
Record t := mk {
  emailAddress : option string;
  ethereumAddress : option string;
  owner : option string;
  signee : option string;
  user : option User.t;
  saveCard : option (option string) }.
End Request.

Inductive Body : Type :=
| RecoveryPhrase (recoveryPhrase : option string)
| PasswordEncryptedPrivateKey (passwordEncryptedPrivateKey : string)
| Errors (errors : string)
| Cards (cards : list string).

(** [res.sendStatus(status)], [res.status(status).json(body)] (200 for a
    bare [res.json]), or an error that no handler caught. *)
Inductive Response : Type :=
| SendStatus (status : Z)
| Json (status : Z) (body : Body)
| Unhandled (error : Error.t).

Inductive Operation : Type :=
| EjectionStatus (emailAddress : option string)
| EjectionStatusByAddress (address : option string)
| CreateUser (emailAddress publicKey passwordEncryptedPrivateKey : option string)
| GetUserPrivateKeyByEmailAddress (emailAddress : option string)
| GetUserRecoveryPhraseByEmailAddress (emailAddress : option string)
| UpdateEmail (emailAddress newEmailAddress : option string)
| UpdatePaymentDetails (token publicKey : option string)
| GetStripeCustomerIdForAddress (address : option string)
| GetCardDetailsFromStripe (customerId : option string)
| DeletePaymentDetailsForAddress (address : option string)
| UpdatePasswordEncryptedPrivateKey (publicKey key : option string)
| GetCards (emailAddress : option string)
| Eject (address : option string)
| FindByEmail (emailAddress : option string)
| CreateDecoy
| StoreExpiringItem (key : option string) (value : string) (seconds : Z)
| LogError (error : Error.t).

(** The answers of the code that is not part of the sources. An update
    answers with the first entry of its result, the number of rows. *)
Module Backend.
Record t := mk {
  normalize : option string → Reply string;
  ejectionStatus : option string → Reply bool;
  ejectionStatusByAddress : option string → Reply bool;
  createUser :
    option string → option string → option string → Reply (option string);
  getUserPrivateKeyByEmailAddress : option string → Reply (option string);
  getUserRecoveryPhraseByEmailAddress : option string → Reply (option string);
  updateEmail : option string → option string → Reply (option Z);
  updatePaymentDetails : option string → option string → Reply bool;
  getStripeCustomerIdForAddress : option string → Reply (option string);
  getCardDetailsFromStripe : option string → Reply (list string);
  deletePaymentDetailsForAddress : option string → Reply bool;
  updatePasswordEncryptedPrivateKey :
    option string → option string → Reply (option Z);
  getCards : option string → Reply (list string);
  eject : option string → Reply (option Z);
  findByEmail : option string → Reply bool;
  retrieveItemValue : option string → option string;
  decoy : Reply string;
  fakeRecoveryPhrase : string }.
End Backend.

(** A handler on its way: what it has come to, and what it has called. *)
Record Served (A : Type) : Type := served {
  reply : Reply A;
  operations : list Operation }.
Arguments served {A} reply operations.
Arguments reply {A} s.
Arguments operations {A} s.

#[global] Instance served_ret : MRet Served := λ A a, served (Resolves a) [].
#[global] Instance served_bind : MBind Served := λ A B k m,
  match reply m with
  | Rejects error => served (Rejects error) (operations m)
  | Resolves a =>
      served (reply (k a)) (operations m ++ operations (k a))
  end.

Definition await {A} (operation : Operation) (answer : Reply A) : Served A :=
  served answer [operation].

Definition throw {A} (error : Error.t) : Served A := served (Rejects error) [].

(** A call that is not awaited for: it returns or throws on the spot. *)
Definition now {A} (answer : Reply A) : Served A := served answer [].

Definition tryCatch {A} (body : Served A) (handler : Error.t → Served A)
  : Served A :=
  match reply body with
  | Resolves a => body
  | Rejects error =>
      served (reply (handler error))
        (operations body ++ operations (handler error))
  end.

(** [const { ... } = user]: reading a property of the user, if any. *)
Definition property {A} (user : option User.t) (field : User.t → A)
  : Served A :=
  match user with
  | Some user => mret (field user)
  | None => throw typeError
  end.

(** What the route answers: an error that nothing caught is left to the
    framework. *)
Definition respond (handler : Served Response) : Response * list Operation :=
  match reply handler with
  | Resolves response => (response, operations handler)
  | Rejects error => (Unhandled error, operations handler)
  end.

Definition cacheDuration : Z := 60 * 15.

Definition userCreationStatus (b : Backend.t) (user : User.t)
  : Served (Z * option string) :=
  recoveryPhrase ←
    await (CreateUser (User.emailAddress user) (User.publicKey user)
             (User.passwordEncryptedPrivateKey user))
      (Backend.createUser b (User.emailAddress user) (User.publicKey user)
         (User.passwordEncryptedPrivateKey user));
  mret (if truthy_string recoveryPhrase then 200 else 400, recoveryPhrase).

Definition createUser (b : Backend.t) (req : Request.t) : Served Response :=
  tryCatch
    (match Request.user req with
     | Some user =>
         ejected ←
           await (EjectionStatus (User.emailAddress user))
             (Backend.ejectionStatus b (User.emailAddress user));
         if ejected : bool then mret (SendStatus 409)
         else
           creationStatus ← userCreationStatus b user;
           mret (Json creationStatus.1 (RecoveryPhrase creationStatus.2))
     | None => mret (SendStatus 400)
     end)
    (λ error,
       if String.eqb (Error.name error) "SequelizeUniqueConstraintError"
       then mret (Json 400 (Errors (Error.errors error)))
       else served (Resolves (SendStatus 400)) [LogError error]).

Definition retrieveEncryptedPrivatekey (b : Backend.t) (req : Request.t)
  : Served Response :=
  let emailAddress := Request.emailAddress req in
  ejected ←
    await (EjectionStatus emailAddress) (Backend.ejectionStatus b emailAddress);
  if ejected : bool then mret (SendStatus 404)
  else
    result ←
      await (GetUserPrivateKeyByEmailAddress emailAddress)
        (Backend.getUserPrivateKeyByEmailAddress b emailAddress);
    if truthy_string result then
      mret (Json 200 (PasswordEncryptedPrivateKey (default "" result)))
    else
      let cached := Backend.retrieveItemValue b emailAddress in
      if negb (truthy_string cached) then
        passwordEncryptedPrivateKey ← await CreateDecoy (Backend.decoy b);
        served (Resolves tt)
          [StoreExpiringItem emailAddress passwordEncryptedPrivateKey
             cacheDuration] ;;
        mret (Json 200 (PasswordEncryptedPrivateKey passwordEncryptedPrivateKey))
      else mret (Json 200 (PasswordEncryptedPrivateKey (default "" cached))).

Definition retrieveRecoveryPhrase (b : Backend.t) (req : Request.t)
  : Served Response :=
  let emailAddress := Request.emailAddress req in
  ejected ←
    await (EjectionStatus emailAddress) (Backend.ejectionStatus b emailAddress);
  if ejected : bool then mret (SendStatus 404)
  else
    result ←
      await (GetUserRecoveryPhraseByEmailAddress emailAddress)
        (Backend.getUserRecoveryPhraseByEmailAddress b emailAddress);
    if truthy_string result then mret (Json 200 (RecoveryPhrase result))
    else mret (Json 200 (RecoveryPhrase (Some (Backend.fakeRecoveryPhrase b)))).

Definition updateUser (b : Backend.t) (req : Request.t) : Served Response :=
  let emailAddress := Request.emailAddress req in
  ejected ←
    await (EjectionStatus emailAddress) (Backend.ejectionStatus b emailAddress);
  if ejected : bool then mret (SendStatus 404)
  else
    tryCatch
      (newEmailAddress ← property (Request.user req) User.emailAddress;
       result ←
         await (UpdateEmail emailAddress newEmailAddress)
           (Backend.updateEmail b emailAddress newEmailAddress);
       if bool_decide (result = Some 0) then mret (SendStatus 400)
       else mret (SendStatus 202))
      (λ _, mret (SendStatus 400)).

Definition updatePaymentDetails (b : Backend.t) (req : Request.t)
  : Served Response :=
  publicKey ← property (Request.user req) User.publicKey;
  let emailAddress := Request.emailAddress req in
  token ← property (Request.user req) User.stripeTokenId;
  ejected ←
    await (EjectionStatus emailAddress) (Backend.ejectionStatus b emailAddress);
  if ejected : bool then mret (SendStatus 404)
  else
    result ←
      await (UpdatePaymentDetails token publicKey)
        (Backend.updatePaymentDetails b token publicKey);
    if result : bool then mret (SendStatus 202) else mret (SendStatus 400).

Definition updateAddressPaymentDetails (b : Backend.t) (req : Request.t)
  : Served Response :=
  let ethereumAddress := Request.ethereumAddress req in
  if bool_decide (ethereumAddress = None) then mret (SendStatus 401)
  else if negb (bool_decide (ethereumAddress = Request.owner req)) then
    mret (SendStatus 401)
  else
    token ←
      match Request.saveCard req with
      | Some stripeTokenId => mret stripeTokenId
      | None => throw typeError
      end;
    result ←
      await (UpdatePaymentDetails token ethereumAddress)
        (Backend.updatePaymentDetails b token ethereumAddress);
    if result : bool then mret (SendStatus 202) else mret (SendStatus 400).

Definition getAddressPaymentDetails (b : Backend.t) (req : Request.t)
  : Served Response :=
  let ethereumAddress := Request.ethereumAddress req in
  if negb (truthy_string ethereumAddress)
     || negb (truthy_string (Request.signee req))
  then mret (SendStatus 401)
  else
    address ← now (Backend.normalize b ethereumAddress);
    signee ← now (Backend.normalize b (Request.signee req));
    if negb (String.eqb address signee) then mret (SendStatus 401)
    else
      stripeCustomerId ←
        await (GetStripeCustomerIdForAddress ethereumAddress)
          (Backend.getStripeCustomerIdForAddress b ethereumAddress);
      if negb (truthy_string stripeCustomerId) then mret (Json 200 (Cards []))
      else
        result ←
          await (GetCardDetailsFromStripe stripeCustomerId)
            (Backend.getCardDetailsFromStripe b stripeCustomerId);
        mret (Json 200 (Cards result)).

Definition deleteAddressPaymentDetails (b : Backend.t) (req : Request.t)
  : Served Response :=
  let ethereumAddress := Request.ethereumAddress req in
  if negb (truthy_string ethereumAddress)
     || negb (truthy_string (Request.signee req))
  then mret (SendStatus 401)
  else
    address ← now (Backend.normalize b ethereumAddress);
    signee ← now (Backend.normalize b (Request.signee req));
    if negb (String.eqb address signee) then mret (SendStatus 401)
    else
      result ←
        await (DeletePaymentDetailsForAddress ethereumAddress)
          (Backend.deletePaymentDetailsForAddress b ethereumAddress);
      if result : bool then mret (SendStatus 202) else mret (SendStatus 400).

Definition updatePasswordEncryptedPrivateKey (b : Backend.t) (req : Request.t)
  : Served Response :=
  publicKey ← property (Request.user req) User.publicKey;
  passwordEncryptedPrivateKey ←
    property (Request.user req) User.passwordEncryptedPrivateKey;
  ejected ←
    await (EjectionStatusByAddress publicKey)
      (Backend.ejectionStatusByAddress b publicKey);
  if ejected : bool then mret (SendStatus 404)
  else
    result ←
      await (UpdatePasswordEncryptedPrivateKey publicKey
               passwordEncryptedPrivateKey)
        (Backend.updatePasswordEncryptedPrivateKey b publicKey
           passwordEncryptedPrivateKey);
    if negb (bool_decide (result = Some 0)) then mret (SendStatus 202)
    else mret (SendStatus 400).

Definition cards (b : Backend.t) (req : Request.t) : Served Response :=
  result ←
    await (GetCards (Request.emailAddress req))
      (Backend.getCards b (Request.emailAddress req));
  mret (Json 200 (Cards result)).

Definition eject (b : Backend.t) (req : Request.t) : Served Response :=
  let address := Request.ethereumAddress req in
  ejected ←
    await (EjectionStatusByAddress address)
      (Backend.ejectionStatusByAddress b address);
  normalized ← now (Backend.normalize b address);
  owner ← now (Backend.normalize b (Request.owner req));
  if negb (String.eqb normalized owner) then mret (SendStatus 401)
  else if ejected : bool then mret (SendStatus 400)
  else
    result ← await (Eject address) (Backend.eject b address);
    if bool_decide (0 < default 0 result) then mret (SendStatus 202)
    else mret (SendStatus 400).

Definition exist (b : Backend.t) (req : Request.t) : Served Response :=
  user ←
    await (FindByEmail (Request.emailAddress req))
      (Backend.findByEmail b (Request.emailAddress req));
  if negb user then mret (SendStatus 404) else mret (SendStatus 200).

(** The handlers that read or change the very account whose ejection they
    look at first. *)
Definition guarded : list (Backend.t → Request.t → Served Response) :=
  [ retrieveEncryptedPrivatekey; retrieveRecoveryPhrase; updateUser;
    updatePasswordEncryptedPrivateKey ].

(** An account, as an operation names it. *)
Inductive Account : Type :=
| ByEmailAddress (emailAddress : option string)
| ByAddress (address : option string).

(** The accounts that an operation is about: [createUser] names the new
    account by its email address and by its public key. *)
Definition accounts (operation : Operation) : list Account :=
  match operation with
  | EjectionStatus emailAddress
  | GetUserPrivateKeyByEmailAddress emailAddress
  | GetUserRecoveryPhraseByEmailAddress emailAddress
  | UpdateEmail emailAddress _
  | GetCards emailAddress
  | FindByEmail emailAddress
  | StoreExpiringItem emailAddress _ _ => [ByEmailAddress emailAddress]
  | CreateUser emailAddress publicKey _ =>
      [ByEmailAddress emailAddress; ByAddress publicKey]
  | EjectionStatusByAddress address
  | UpdatePaymentDetails _ address
  | GetStripeCustomerIdForAddress address
  | DeletePaymentDetailsForAddress address
  | UpdatePasswordEncryptedPrivateKey address _
  | Eject address => [ByAddress address]
  | GetCardDetailsFromStripe _ | CreateDecoy | LogError _ => []
  end.

(** The operation asked whether an account was ejected, and it was not. *)
Definition cleared (b : Backend.t) (operation : Operation) : Prop :=
  match operation with
  | EjectionStatus emailAddress =>
      Backend.ejectionStatus b emailAddress = Resolves false
  | EjectionStatusByAddress address =>
      Backend.ejectionStatusByAddress b address = Resolves false
  | _ => False
  end.

(** The request is signed by the address it is about: both are there, and
    they are the same once normalized. *)
Definition signed (b : Backend.t) (req : Request.t) : Prop :=
  truthy_string (Request.ethereumAddress req) = true
  ∧ truthy_string (Request.signee req) = true
  ∧ ∃ address,
      Backend.normalize b (Request.ethereumAddress req) = Resolves address
      ∧ Backend.normalize b (Request.signee req) = Resolves address.

(** The request comes from the owner of the address it is about. *)
Definition owned (b : Backend.t) (req : Request.t) : Prop :=
  ∃ address,
    Backend.normalize b (Request.ethereumAddress req) = Resolves address
    ∧ Backend.normalize b (Request.owner req) = Resolves address.

(** The operation asked whether an account was ejected, and it was. *)
Definition ejected (b : Backend.t) (operation : Operation) : Prop :=
  match operation with
  | EjectionStatus emailAddress =>
      Backend.ejectionStatus b emailAddress = Resolves true
  | EjectionStatusByAddress address =>
      Backend.ejectionStatusByAddress b address = Resolves true
  | _ => False
  end.

(** A backend that lowers addresses, knows one account, and has ejected
    another. *)
Definition backend : Backend.t :=
  Backend.mk
    (λ address, Resolves (toLowerCase (default "" address)))
    (λ emailAddress, Resolves (bool_decide (emailAddress = Some "gone@unlock")))
    (λ address, Resolves (bool_decide (address = Some Sample.router)))
    (λ _ _ _, Resolves (Some "phrase"))
    (λ emailAddress,
       Resolves (if bool_decide (emailAddress = Some "julien@unlock")
                 then Some "0xkey" else None))
    (λ _, Resolves None)
    (λ _ _, Resolves (Some 1)) (λ _ _, Resolves true)
    (λ _, Resolves (Some "cus_1")) (λ _, Resolves ["visa"])
    (λ _, Resolves true) (λ _ _, Resolves (Some 1))
    (λ _, Resolves []) (λ _, Resolves (Some 1)) (λ _, Resolves true)
    (λ _, None) (Resolves "0xdecoy") "1.k2j3h4".

Definition stranger : Request.t :=
  Request.mk (Some "nobody@unlock") (Some Sample.buyer) (Some Sample.token)
    (Some Sample.token) None None.

Definition gone : Request.t :=
  Request.mk (Some "gone@unlock") (Some Sample.router) (Some Sample.router)
    (Some Sample.router)
    (Some (User.mk (Some "gone@unlock") (Some Sample.router) (Some "0xkey")
             (Some "tok_1")))
    (Some (Some "tok_1")).

(** The known account asks to save a card for the key of the ejected
    one. *)
Definition borrowed : Request.t :=
  Request.mk (Some "julien@unlock") (Some Sample.buyer) (Some Sample.buyer)
    (Some Sample.buyer)
    (Some (User.mk (Some "julien@unlock") (Some Sample.router) (Some "0xkey")
             (Some "tok_1")))
    (Some (Some "tok_1")).

Definition holder : Request.t :=
  Request.mk (Some "julien@unlock") (Some Sample.buyer) (Some Sample.buyer)
    (Some Sample.buyer)
    (Some (User.mk (Some "julien@unlock") (Some Sample.buyer) (Some "0xkey")
             (Some "tok_1")))
    (Some (Some "tok_1")).

End Controller.

(** * Properties *)

(** ** Rules of the triples *)

Section Rules.

Context {A B : Type}.
Implicit Types (P I : State.t → Prop) (E : string → State.t → Prop).

Lemma hoare_ret (a : A) P (Q : A → State.t → Prop) E :
  (∀ s, P s → Q a s) → hoare P (ret a) Q E.
Proof. intros H s HP. by apply H. Qed.

Lemma hoare_lift (r : Result A) P (Q : A → State.t → Prop) E :
  (∀ s, P s → match r with Ok a => Q a s | Throw e => E e s end) →
  hoare P (lift r) Q E.
Proof. intros H s HP. unfold lift. specialize (H s HP). by destruct r. Qed.

Lemma hoare_await e (r : Result A) P (Q : A → State.t → Prop) E :
  (∀ s, P s →
     match r with
     | Ok a => Q a (record e s)
     | Throw message => E message (record e s)
     end) →
  hoare P (await e r) Q E.
Proof. intros H s HP. unfold await. specialize (H s HP). by destruct r. Qed.

Lemma hoare_bind (m : M A) (f : A → M B) P (R : A → State.t → Prop)
    (Q : B → State.t → Prop) E :
  hoare P m R E → (∀ a, hoare (R a) (f a) Q E) → hoare P (bind m f) Q E.
Proof.
  intros Hm Hf s HP. unfold bind. specialize (Hm s HP).
  destruct (m s) as [[a|e] s']; [by apply Hf | done].
Qed.

Lemma hoare_tryCatch (m : M A) (handler : string → M A) P
    (Q : A → State.t → Prop) (R E : string → State.t → Prop) :
  hoare P m Q R → (∀ e, hoare (R e) (handler e) Q E) →
  hoare P (tryCatch m handler) Q E.
Proof.
  intros Hm Hh s HP. unfold tryCatch. specialize (Hm s HP).
  destruct (m s) as [[a|e] s']; [done | by apply Hh].
Qed.

Lemma hoare_consequence (m : M A) (P P' : State.t → Prop)
    (Q Q' : A → State.t → Prop) (E E' : string → State.t → Prop) :
  hoare P' m Q' E' →
  (∀ s, P s → P' s) → (∀ a s, Q' a s → Q a s) → (∀ e s, E' e s → E e s) →
  hoare P m Q E.
Proof.
  intros Hm HP HQ HE s Hs. specialize (Hm s (HP s Hs)).
  destruct (m s) as [[a|e] s']; auto.
Qed.

Lemma hoare_run (m : M A) P (Q : A → State.t → Prop) E o :
  hoare P m Q E → P (State.mk o []) →
  match (run m o).1 with
  | Ok a => Q a (run m o).2
  | Throw e => E e (run m o).2
  end.
Proof.
  intros Hm HP. unfold run. specialize (Hm _ HP).
  by destruct (m _) as [[a|e] s'].
Qed.

End Rules.

Lemma hoare_getOptions P (Q : TransactionOptions → State.t → Prop) E :
  (∀ s, P s → Q (State.transactionOptions s) s) → hoare P getOptions Q E.
Proof. intros H s HP. by apply H. Qed.

Lemma hoare_modifyOptions f P (Q : unit → State.t → Prop) E :
  (∀ s, P s → Q tt (update f s)) → hoare P (modifyOptions f) Q E.
Proof. intros H s HP. by apply H. Qed.

Section Invariants.

Context {A B : Type} (I : State.t → Prop).

Lemma preserves_ret (a : A) : preserves I (ret a).
Proof. by apply hoare_ret. Qed.

Lemma preserves_lift (r : Result A) : preserves I (lift r).
Proof. apply hoare_lift. intros s HI. by destruct r. Qed.

Lemma preserves_await e (r : Result A) :
  (∀ s, I s → I (record e s)) → preserves I (await e r).
Proof. intros H. apply hoare_await. intros s HI. destruct r; by apply H. Qed.

Lemma preserves_bind (m : M A) (f : A → M B) :
  preserves I m → (∀ a, preserves I (f a)) → preserves I (bind m f).
Proof. intros Hm Hf. by eapply hoare_bind. Qed.

Lemma preserves_tryCatch (m : M A) (handler : string → M A) :
  preserves I m → (∀ e, preserves I (handler e)) →
  preserves I (tryCatch m handler).
Proof. intros Hm Hh. by eapply hoare_tryCatch. Qed.

End Invariants.

Lemma preserves_getOptions I : preserves I getOptions.
Proof. by apply hoare_getOptions. Qed.

Lemma preserves_modifyOptions I f :
  (∀ s, I s → I (update f s)) → preserves I (modifyOptions f).
Proof. intros H. by apply hoare_modifyOptions. Qed.

(** One step of a proof that a computation keeps an invariant; what is left
    are the remote calls and the updates of the options. *)
Ltac preserve_step :=
  lazymatch goal with
  | |- preserves _ (bind _ _) => apply preserves_bind; [|intros ?]
  | |- preserves _ (ret _) => apply preserves_ret
  | |- preserves _ (lift _) => apply preserves_lift
  | |- preserves _ (await _ _) => apply preserves_await; intros ? ?
  | |- preserves _ (modifyOptions _) =>
      apply preserves_modifyOptions; intros ? ?
  | |- preserves _ getOptions => apply preserves_getOptions
  | |- preserves _ (tryCatch _ _) => apply preserves_tryCatch; [|intros ?]
  | |- preserves _ (if ?b then _ else _) => destruct b eqn:?
  | |- preserves _ (match ?x with _ => _ end) => destruct x eqn:?
  end.

Ltac preserve := repeat preserve_step.

(** ** Confirmation *)



Lemma notMined_record e s :
  (∀ hash, e ≠ WaitForTransaction hash) → notMined s → notMined (record e s).
Proof.
  intros He Hs hash Hin. cbn in Hin.
  apply elem_of_app in Hin as [Hin | Hin%list_elem_of_singleton];
    [by apply (Hs hash) | by apply (He hash)].
Qed.

Lemma notMined_confirmed {A} w lockAddress (m : M A) :
  preserves notMined m →
  hoare notMined m (λ _, notMined)
    (λ e s, confirmed w lockAddress (Throw e) s).
Proof.
  intros Hm. eapply hoare_consequence; [exact Hm | done..|].
  intros e s Hs hash Hin. by destruct (Hs hash).
Qed.

(** Whatever [purchaseKey] returns or throws after it waited for a receipt
    is what [resolveReceipt] makes of that receipt. *)
Lemma purchaseKey_confirmed w p callback :
  hoare notMined (purchaseKey w p callback)
    (λ r s, confirmed w (Params.lockAddress p) (Ok r) s)
    (λ e s, confirmed w (Params.lockAddress p) (Throw e) s).
Proof.
  unfold purchaseKey.
  do 7 (eapply hoare_bind;
        [apply notMined_confirmed;
         unfold resolveAmount, approve, estimateGasStep, estimate;
         preserve; try done; by apply notMined_record
        |intros ?]).
  eapply hoare_bind;
    [apply notMined_confirmed; unfold submit; preserve;
     by apply notMined_record
    |intros hash].
  eapply hoare_bind;
    [apply notMined_confirmed; preserve; by apply notMined_record
    |intros ?].
  intros s Hs. unfold bind, await, lift. cbn.
  assert (∀ result hash',
            WaitForTransaction hash'
            ∈ State.trace s ++ [WaitForTransaction hash] →
            result
            = match World.waitForTransaction w hash with
              | Ok receipt => resolveReceipt w (Params.lockAddress p) receipt
              | Throw e => Throw e
              end →
            result
            = match World.waitForTransaction w hash' with
              | Ok receipt => resolveReceipt w (Params.lockAddress p) receipt
              | Throw e => Throw e
              end) as Hlast.
  { intros result hash' Hin ->.
    apply elem_of_app in Hin as [Hin | Hin%list_elem_of_singleton];
      [by destruct (Hs hash') | by injection Hin as ->]. }
  destruct (World.waitForTransaction w hash) as [receipt|e] eqn:Hreceipt; cbn.
  - destruct (resolveReceipt _ _ _) eqn:Hresolve; intros hash' Hin;
      by apply (Hlast _ hash' Hin).
  - intros hash' Hin. by apply (Hlast _ hash' Hin).
Qed.

Lemma purchaseKey_receipt w p callback o hash receipt :
  WaitForTransaction hash ∈ State.trace (run (purchaseKey w p callback) o).2 →
  World.waitForTransaction w hash = Ok receipt →
  (run (purchaseKey w p callback) o).1
  = resolveReceipt w (Params.lockAddress p) receipt.
Proof.
  intros Hin Hreceipt.
  assert (notMined (State.mk o [])) as Hstart
    by (intros hash' Hin'; inversion Hin').
  pose proof (hoare_run _ _ _ _ o (purchaseKey_confirmed w p callback) Hstart)
    as Hrun.
  destruct (run _ _).1; rewrite (Hrun hash Hin), Hreceipt; done.
Qed.



(** C2. A receipt with status 0 makes the resolver throw "Transaction
    failed", whatever its logs and whatever the decoder says about them; no
    token identifier is returned. A purchase whose transaction is mined
    with such a receipt throws that error. *)
Theorem resolveReceipt_reverted w lockAddress logs :
  resolveReceipt w lockAddress (Receipt.mk (Some 0) logs)
  = Throw "Transaction failed"
  ∧ (∀ tokenId,
       resolveReceipt w lockAddress (Receipt.mk (Some 0) logs) ≠ Ok tokenId)
  ∧ (∀ p callback o hash,
       Params.lockAddress p = lockAddress →
       WaitForTransaction hash
       ∈ State.trace (run (purchaseKey w p callback) o).2 →
       World.waitForTransaction w hash = Ok (Receipt.mk (Some 0) logs) →
       (run (purchaseKey w p callback) o).1 = Throw "Transaction failed").
Proof.
  split; [done|]. split; [intros tokenId; discriminate|].
  intros p callback o hash <- Hin Hreceipt.
  by rewrite (purchaseKey_receipt _ _ _ _ _ _ Hin Hreceipt).
Qed.

Lemma resolveReceipt_reverted_sample :
  (run (purchaseKey Sample.reverted Sample.direct false) ∅).1
  = Throw "Transaction failed".
Proof.
  refine (proj2 (proj2
    (resolveReceipt_reverted Sample.reverted Sample.lock Sample.logs))
    Sample.direct false ∅ "0xhash" _ _ _);
    [reflexivity | vm_compute; repeat constructor | reflexivity].
Defined.

(** ** Gas estimation *)

Lemma deleteFees_lookup o k :
  deleteFees o !! k
  = if bool_decide (k ∈ ["maxFeePerGas"; "maxPriorityFeePerGas"; "gasPrice"])
    then None else o !! k.
Proof.
  unfold deleteFees. rewrite !lookup_delete.
  repeat case_decide; subst; case_bool_decide as Hin; try done.
  - exfalso. apply Hin. set_solver.
  - exfalso. apply Hin. set_solver.
  - exfalso. apply Hin. set_solver.
  - exfalso. set_solver.
Qed.

Lemma assign_lookup key v o k :
  assign key v o !! k = if decide (key = k) then v else o !! k.
Proof.
  destruct v as [z|]; cbn; [rewrite lookup_insert | rewrite lookup_delete];
    by case_decide.
Qed.

Lemma deleteFees_setFees feeData o :
  deleteFees (setFees feeData o) = deleteFees o.
Proof.
  apply map_eq. intros k. rewrite !deleteFees_lookup.
  case_bool_decide as Hin; [done|].
  unfold setFees. destruct (_ && _); rewrite !assign_lookup;
    repeat case_decide; subst; try done; exfalso; apply Hin; set_solver.
Qed.

Lemma deleteFees_idemp o : deleteFees (deleteFees o) = deleteFees o.
Proof.
  apply map_eq. intros k. rewrite !deleteFees_lookup. by case_bool_decide.
Qed.

Lemma estimateGasStep_skip w call s :
  truthy_int (State.transactionOptions s !! "gasLimit") = true →
  estimateGasStep w call s = (Ok tt, s).
Proof. intros Hgas. unfold estimateGasStep, bind, getOptions. by rewrite Hgas. Qed.

Lemma estimateGasStep_catch w call s :
  truthy_int (State.transactionOptions s !! "gasLimit") = false →
  estimationFails w call (State.transactionOptions s) = true →
  ∃ effects,
    estimateGasStep w call s
    = (Ok tt,
       State.mk (deleteFees (State.transactionOptions s))
         (State.trace s ++ effects))
    ∧ ∀ c o, SendTransaction c o ∉ effects.
Proof.
  intros Hgas Hfails. destruct s as [o t]. cbn in *.
  unfold estimateGasStep, bind, getOptions; cbn. rewrite Hgas; cbn.
  unfold estimationFails in Hfails.
  unfold tryCatch, estimate, bind, await, modifyOptions, getOptions, lift, ret; cbn.
  destruct (World.getFeeData w) as [feeData|e]; cbn.
  - destruct call as [call|]; cbn.
    + destruct (World.estimateGas w call (setFees feeData o)) as [g|e]; [done|].
      cbn. rewrite deleteFees_setFees, <- !(assoc_L (++)).
      eexists; split; [done|]. intros c o'. set_solver.
    + rewrite deleteFees_idemp, deleteFees_setFees, <- !(assoc_L (++)).
      eexists; split; [done|]. intros c o'. set_solver.
  - rewrite <- !(assoc_L (++)). eexists; split; [done|]. intros c o'. set_solver.
Qed.

Lemma estimateGasStep_never_throws w call s :
  (estimateGasStep w call s).1 = Ok tt.
Proof.
  unfold estimateGasStep, bind, getOptions; cbn.
  destruct (truthy_int _); cbn; [done|].
  unfold tryCatch, estimate, bind, await, modifyOptions, getOptions, lift, ret; cbn.
  destruct (World.getFeeData w); cbn; [|done].
  destruct call; cbn; [|done].
  by destruct (World.estimateGas _ _ _).
Qed.

Lemma submit_sends w call s :
  submit w (Some call) s
  = (World.sendTransaction w call (State.transactionOptions s),
     record (SendTransaction call (State.transactionOptions s)) s).
Proof. done. Qed.

(** C3. When the step runs and both the fee data and the estimate arrive,
    for a direct purchase as for a swap-and-call, the options that result
    hold a gas limit of 130% of the estimate rounded down and none of
    [maxFeePerGas], [maxPriorityFeePerGas] and [gasPrice]; every other
    property is as it was, the step returns normally, and the transaction
    is then submitted with these options. *)
Theorem estimateGasStep_success w call s feeData gas :
  truthy_int (State.transactionOptions s !! "gasLimit") = false →
  World.getFeeData w = Ok feeData →
  World.estimateGas w call (setFees feeData (State.transactionOptions s))
  = Ok gas →
  0 ≤ gas →
  let result := estimateGasStep w (Some call) s in
  let options := State.transactionOptions result.2 in
  result.1 = Ok tt
  ∧ options !! "gasLimit" = Some (gas * 13 / 10)
  ∧ options !! "maxFeePerGas" = None
  ∧ options !! "maxPriorityFeePerGas" = None
  ∧ options !! "gasPrice" = None
  ∧ (∀ k, k ∉ gasKeys → options !! k = State.transactionOptions s !! k)
  ∧ State.trace result.2
    = State.trace s
      ++ [GetFeeData;
          EstimateGas call (setFees feeData (State.transactionOptions s))]
  ∧ State.trace (submit w (Some call) result.2).2
    = State.trace result.2 ++ [SendTransaction call options].
Proof.
  intros Hgas Hfee Hestimate Hpos. destruct s as [o t]. cbn in *.
  unfold estimateGasStep, bind, getOptions; cbn. rewrite Hgas; cbn.
  unfold tryCatch, estimate, bind, await, modifyOptions, getOptions, lift, ret; cbn.
  rewrite Hfee; cbn. rewrite Hestimate; cbn.
  rewrite deleteFees_setFees, Z.quot_div_nonneg by lia.
  repeat split.
  - by rewrite lookup_insert_eq.
  - by rewrite lookup_insert_ne, deleteFees_lookup.
  - by rewrite lookup_insert_ne, deleteFees_lookup.
  - by rewrite lookup_insert_ne, deleteFees_lookup.
  - intros k Hk. unfold gasKeys in Hk.
    rewrite lookup_insert_ne, deleteFees_lookup by set_solver.
    rewrite bool_decide_eq_false_2; [done | set_solver].
  - by rewrite <- (assoc_L (++)).
Qed.

Lemma estimateGasStep_success_sample :
  State.transactionOptions
    (estimateGasStep Sample.world
       (Some (purchase Sample.lock 5 Sample.buyer ZERO "0x"))
       (State.mk {[ "value" := 5; "gasPrice" := 9 ]} [])).2
  !! "gasLimit" = Some 130009.
Proof.
  refine (proj1 (proj2
    (estimateGasStep_success Sample.world
       (purchase Sample.lock 5 Sample.buyer ZERO "0x")
       (State.mk {[ "value" := 5; "gasPrice" := 9 ]} [])
       (FeeData.mk (Some 3) (Some 20) (Some 2)) 100007 _ _ _ _)));
    [reflexivity | reflexivity | reflexivity | lia].
Defined.

(** C4, as stated, fails when the caller itself passed a gas limit of zero:
    zero is falsy, so the estimation runs, and when it fails the options
    still hold the caller's [gasLimit]. *)
Lemma estimateGasStep_failure_zero_limit :
  let s := State.mk {[ "gasLimit" := 0 ]} [] in
  truthy_int (State.transactionOptions s !! "gasLimit") = false
  ∧ estimationFails Sample.offline (Some Sample.directCall)
      (State.transactionOptions s) = true
  ∧ State.transactionOptions
      (estimateGasStep Sample.offline (Some Sample.directCall) s).2
    !! "gasLimit" = Some 0.
Proof. by vm_compute. Qed.

(** C4, amended. The step never throws. When it runs and any part of it
    fails, it returns normally with the three fee properties removed and
    every other property, the gas limit among them, as the caller passed
    it: the gas limit is absent when the caller gave none (it can only be
    the caller's own zero otherwise). The transaction is then submitted
    with these options. *)
Theorem estimateGasStep_failure w call s :
  truthy_int (State.transactionOptions s !! "gasLimit") = false →
  estimationFails w call (State.transactionOptions s) = true →
  let result := estimateGasStep w call s in
  let options := State.transactionOptions result.2 in
  (∀ call' s', (estimateGasStep w call' s').1 = Ok tt)
  ∧ result.1 = Ok tt
  ∧ options !! "maxFeePerGas" = None
  ∧ options !! "maxPriorityFeePerGas" = None
  ∧ options !! "gasPrice" = None
  ∧ options !! "gasLimit" = State.transactionOptions s !! "gasLimit"
  ∧ truthy_int (options !! "gasLimit") = false
  ∧ (State.transactionOptions s !! "gasLimit" = None →
     options !! "gasLimit" = None)
  ∧ (∀ k, k ∉ ["maxFeePerGas"; "maxPriorityFeePerGas"; "gasPrice"] →
       options !! k = State.transactionOptions s !! k)
  ∧ (∀ c, call = Some c →
       State.trace (submit w call result.2).2
       = State.trace result.2 ++ [SendTransaction c options]).
Proof.
  intros Hgas Hfails result options.
  destruct (estimateGasStep_catch w call s Hgas Hfails) as (effects & Hrun & _).
  subst options result. rewrite Hrun. cbn [fst snd State.transactionOptions].
  assert (deleteFees (State.transactionOptions s) !! "gasLimit"
          = State.transactionOptions s !! "gasLimit") as Hlimit
    by (by rewrite deleteFees_lookup).
  split; [apply estimateGasStep_never_throws|].
  repeat split; try (by rewrite ?Hlimit, ?deleteFees_lookup).
  - intros k Hk. by rewrite deleteFees_lookup, bool_decide_eq_false_2.
  - by intros c ->.
Qed.

Lemma estimateGasStep_failure_sample :
  State.transactionOptions
    (estimateGasStep Sample.offline (Some Sample.directCall)
       (State.mk {[ "value" := 5; "gasPrice" := 9 ]} [])).2
  !! "gasLimit" = None.
Proof.
  refine (proj1 (proj2 (proj2 (proj2 (proj2 (proj2 (proj2 (proj2
    (estimateGasStep_failure Sample.offline (Some Sample.directCall)
       (State.mk {[ "value" := 5; "gasPrice" := 9 ]} []) _ _)))))))) _);
    reflexivity.
Defined.

(** ** Amount resolution *)

(** C6. The amount is resolved in this order: without a price, the lock's
    current price is queried; with a price and decimals, the price is
    converted with those decimals and nothing is queried; with a price and
    no decimals, the decimals are read from the token contract when the
    token is a contract other than the zero address, and are 18 when the
    token is the zero address (or missing), and the price is converted with
    them. *)
Theorem resolveAmount_order w keyPrice decimals erc20Address s :
  (truthy_string keyPrice = false →
   resolveAmount w keyPrice decimals erc20Address s
   = (World.keyPrice w, record KeyPrice s))
  ∧ (∀ price d,
       keyPrice = Some price → price ≠ "" → decimals = Some d →
       resolveAmount w keyPrice decimals erc20Address s
       = (World.toDecimal w price d, s))
  ∧ (∀ price token,
       keyPrice = Some price → price ≠ "" → decimals = None →
       erc20Address = Some token → token ≠ "" → token ≠ ZERO →
       resolveAmount w keyPrice decimals erc20Address s
       = (match World.getErc20Decimals w token with
          | Ok d => World.toDecimal w price d
          | Throw e => Throw e
          end,
          record (GetErc20Decimals token) s))
  ∧ (∀ price,
       keyPrice = Some price → price ≠ "" → decimals = None →
       erc20Address = Some ZERO ∨ truthy_string erc20Address = false →
       resolveAmount w keyPrice decimals erc20Address s
       = (World.toDecimal w price 18, s)).
Proof.
  assert (Hne : ∀ x : string, x ≠ "" → String.eqb x "" = false)
    by (intros x Hx; by apply String.eqb_neq).
  unfold resolveAmount. repeat split.
  - by intros ->.
  - intros price d -> Hprice ->. cbn. by rewrite (Hne _ Hprice).
  - intros price token -> Hprice -> -> Htoken Hzero. cbn.
    rewrite (Hne _ Hprice), (Hne _ Htoken). cbn.
    rewrite bool_decide_eq_true_2 by congruence.
    unfold bind, await, lift, record. cbn.
    by destruct (World.getErc20Decimals w token).
  - intros price -> Hprice -> Hnative. cbn. rewrite (Hne _ Hprice). cbn.
    assert (truthy_string erc20Address
            && bool_decide (erc20Address ≠ Some ZERO) = false) as ->; [|done].
    destruct Hnative as [-> | ->]; [|done].
    rewrite bool_decide_eq_false_2; [apply andb_false_r | by intros H].
Qed.

Lemma resolveAmount_order_sample :
  (resolveAmount Sample.world (Some "0.01") None (Some Sample.token)
     (State.mk ∅ [])).1 = Ok 1000
  ∧ State.trace
      (resolveAmount Sample.world (Some "0.01") None (Some Sample.token)
         (State.mk ∅ [])).2 = [GetErc20Decimals Sample.token].
Proof.
  rewrite (proj1 (proj2 (proj2
    (resolveAmount_order Sample.world (Some "0.01") None (Some Sample.token)
       (State.mk ∅ []))))
    "0.01" Sample.token eq_refl ltac:(discriminate) eq_refl eq_refl
    ltac:(discriminate) ltac:(discriminate)).
  split; reflexivity.
Defined.

(** ** The swap and the purchase request *)

(** C5. For a route whose quote is [quote] base units (not negative), the
    maximum input amount is [quote * 101 / 100] rounded down, in the swap
    that the handler passes on with either wallet call; a quote of 1000
    gives 1010. *)
Theorem amountInMax_slippage h ctx quote :
  Host.parseUnits h (Route.quote_toFixed (Context.route ctx))
    (Route.currency_decimals (Context.route ctx)) = Ok quote →
  0 ≤ quote →
  amountInMax h (Context.route ctx) = Ok (quote * 101 / 100)
  ∧ (∀ request o,
       onConfirmCrypto h ctx = PurchaseKeys request o →
       Swap.amountInMax (PurchaseKeysParams.swap request) = quote * 101 / 100)
  ∧ (∀ request,
       onConfirmCrypto h ctx = ExtendKey request →
       Swap.amountInMax (ExtendKeyParams.swap request) = quote * 101 / 100)
  ∧ (quote = 1000 → amountInMax h (Context.route ctx) = Ok 1010).
Proof.
  intros Hquote Hpos.
  assert (amountInMax h (Context.route ctx) = Ok (quote * 101 / 100)) as Hmax.
  { unfold amountInMax. rewrite Hquote. f_equal. apply Z.quot_div_nonneg; lia. }
  split; [done|]. unfold onConfirmCrypto. rewrite Hmax.
  repeat split.
  - intros request o. destruct (Context.pricingData ctx); [|done].
    destruct (Host.getWalletService _ _); [|done].
    destruct (Context.renew ctx); [done|]. by intros [= <- _].
  - intros request. destruct (Context.pricingData ctx); [|done].
    destruct (Host.getWalletService _ _); [|done].
    destruct (Context.renew ctx); [|done]. by intros [= <-].
  - by intros ->.
Qed.

Lemma amountInMax_slippage_sample :
  amountInMax Sample.host Sample.route = Ok 1010.
Proof.
  refine (proj2 (proj2 (proj2
    (amountInMax_slippage Sample.host Sample.context 1000 _ _))) _);
    [reflexivity | lia | reflexivity].
Defined.

(** C8, as stated, fails: the handler checks no length. With two recipients
    and a single key manager in the session it hands the wallet a request
    whose key managers do not match its owners. *)
Lemma onConfirmCrypto_mismatch :
  onConfirmCrypto Sample.host Sample.context = PurchaseKeys Sample.request ∅
  ∧ length (PurchaseKeysParams.owners Sample.request) = 2%nat
  ∧ length <$> PurchaseKeysParams.keyManagers Sample.request = Some 1%nat
  ∧ perRecipient Sample.request = false.
Proof. by vm_compute. Qed.

(** C8, amended. In a request that the handler hands to the wallet, the
    owners are the N recipients, and the referrers and (when present) the
    recurring-payment counts have length N because they are built from the
    recipients. The prices are those of the pricing data, one per priced
    entry; the data payloads and the key managers are the session's own,
    passed on as they are, except that an empty list of key managers is
    left out (the request then has no key managers at all). No
    length is checked on the way: any other session on the same route and
    network that has pricing data and is not a renewal reaches the wallet
    too, whatever its arrays. *)
Theorem onConfirmCrypto_lengths h ctx request o :
  onConfirmCrypto h ctx = PurchaseKeys request o →
  let n := length (Context.recipients ctx) in
  PurchaseKeysParams.owners request = Context.recipients ctx
  ∧ length (PurchaseKeysParams.referrers request) = n
  ∧ hasLength n (PurchaseKeysParams.recurringPayments request) = true
  ∧ (∃ pricingData,
       Context.pricingData ctx = Some pricingData
       ∧ length (PurchaseKeysParams.keyPrices request)
         = length (PricingData.prices pricingData))
  ∧ PurchaseKeysParams.data request = Context.purchaseData ctx
  ∧ PurchaseKeysParams.keyManagers request
    = (if bool_decide (Context.keyManagers ctx = Some []) then None
       else Context.keyManagers ctx)
  ∧ (∀ ctx',
       Context.route ctx' = Context.route ctx →
       Context.lockNetwork ctx' = Context.lockNetwork ctx →
       is_Some (Context.pricingData ctx') →
       Context.renew ctx' = false →
       ∃ request', onConfirmCrypto h ctx' = PurchaseKeys request' ∅).
Proof.
  unfold onConfirmCrypto, keyPrices.
  destruct (Context.pricingData ctx) as [pricingData|] eqn:Hpricing; [|done].
  destruct (amountInMax h _) eqn:Hmax; [|done].
  destruct (Host.getWalletService _ _) eqn:Hwallet; [|done].
  destruct (Context.renew ctx); [done|].
  intros [= <- _]. cbn. repeat split.
  - unfold referrers. by rewrite length_map.
  - unfold recurringPayments. destruct (truthy_int _); [|done].
    cbn. apply bool_decide_eq_true_2, length_replicate.
  - exists pricingData. split; [done|]. by rewrite length_map.
  - by destruct (Context.keyManagers ctx) as [[|k ks]|].
  - intros ctx' -> -> [pricingData' ->] ->. rewrite Hmax, Hwallet. by eexists.
Qed.

Lemma onConfirmCrypto_lengths_sample :
  length (PurchaseKeysParams.referrers Sample.request) = 2%nat
  ∧ hasLength 2 (PurchaseKeysParams.recurringPayments Sample.request) = true.
Proof.
  pose proof (onConfirmCrypto_lengths Sample.host Sample.context
                Sample.request ∅ eq_refl) as (_ & Hreferrers & Hrecurring & _).
  exact (conj Hreferrers Hrecurring).
Defined.

(** ** The native value *)

Lemma setValue_lookup erc20Address actualAmount swap o k :
  k ≠ "value" → setValue erc20Address actualAmount swap o !! k = o !! k.
Proof.
  intros Hk. unfold setValue.
  assert (∀ o' : TransactionOptions, (if negb (truthy_string erc20Address)
                    || bool_decide (erc20Address = Some ZERO)
                 then <["value" := actualAmount]> o' else o') !! k = o' !! k)
    as Hfirst.
  { intros o'. destruct (_ || _); [by rewrite lookup_insert_ne | done]. }
  destruct swap as [swap|]; [|apply Hfirst].
  destruct (truthy_int _); [|apply Hfirst].
  rewrite assign_lookup. rewrite decide_False by done. apply Hfirst.
Qed.

(** ** Skipping the estimation *)

Lemma gasUntouched_record o e s :
  skipsEstimation o e → gasUntouched o s → gasUntouched o (record e s).
Proof.
  intros He [Hopts Htrace]. split; [done|].
  cbn. apply Forall_app. split; [done | by constructor].
Qed.

Lemma gasUntouched_update o f s :
  (∀ o' k, k ∈ gasKeys → f o' !! k = o' !! k) →
  gasUntouched o s → gasUntouched o (update f s).
Proof.
  intros Hf [Hopts Htrace]. split; [|done].
  intros k Hk. cbn. by rewrite Hf, Hopts.
Qed.

Lemma purchaseKey_gasUntouched w p callback o :
  truthy_int (o !! "gasLimit") = true →
  preserves (gasUntouched o) (purchaseKey w p callback).
Proof.
  intros Hgas. unfold purchaseKey, resolveAmount, approve.
  preserve; try (by apply gasUntouched_record).
  all: lazymatch goal with
       | |- gasUntouched _ (update _ _) =>
           apply gasUntouched_update; [|done]; intros o' k Hk;
           apply setValue_lookup; intros ->; unfold gasKeys in Hk; set_solver
       | |- preserves _ (estimateGasStep _ _) =>
           intros s Hs; rewrite estimateGasStep_skip; [done|];
           destruct Hs as [-> _]; [done | unfold gasKeys; set_solver]
       | |- preserves _ (submit _ _) =>
           intros s Hs; unfold submit, bind, getOptions, await, lift; cbn;
           destruct (buildCall _ _ _ _ _ _ _ _) as [call|]; [|done];
           assert (gasUntouched o
                     (record (SendTransaction call (State.transactionOptions s)) s))
             as Hsent by (apply gasUntouched_record; [exact (proj1 Hs) | done]);
           by destruct (World.sendTransaction _ _ _)
       end.
Qed.

(** C10, as stated, fails for a gas limit of zero: zero is falsy, so the
    fee data are fetched, the gas is estimated, and the submitted gas limit
    is the bumped estimate instead of the caller's. *)
Lemma purchaseKey_zero_gasLimit :
  let trace :=
    State.trace
      (run (purchaseKey Sample.world Sample.direct false)
         {[ "gasLimit" := 0 ]}).2 in
  GetFeeData ∈ trace
  ∧ SendTransaction Sample.directCall {[ "value" := 5; "gasLimit" := 130009 ]}
    ∈ trace.
Proof. vm_compute. split; repeat constructor. Qed.

(** C10, amended. When the caller passes a gas limit other than zero, the
    run fetches no fee data and estimates no gas, and whatever it submits
    carries the caller's [gasLimit], [maxFeePerGas], [maxPriorityFeePerGas]
    and [gasPrice] unchanged; so do the options left at the end. *)
Theorem purchaseKey_gasLimit_supplied w p callback o :
  truthy_int (o !! "gasLimit") = true →
  let final := (run (purchaseKey w p callback) o).2 in
  GetFeeData ∉ State.trace final
  ∧ (∀ call o', EstimateGas call o' ∉ State.trace final)
  ∧ (∀ call o',
       SendTransaction call o' ∈ State.trace final →
       ∀ k, k ∈ gasKeys → o' !! k = o !! k)
  ∧ (∀ k, k ∈ gasKeys → State.transactionOptions final !! k = o !! k).
Proof.
  intros Hgas final.
  assert (gasUntouched o final) as [Hopts Htrace].
  { pose proof (hoare_run _ _ _ _ o (purchaseKey_gasUntouched w p callback o Hgas))
      as Hrun.
    subst final. destruct (run _ _).1; apply Hrun; by split. }
  rewrite Forall_forall in Htrace.
  repeat split; [| | |done].
  - intros Hin. apply (Htrace _ Hin).
  - intros call o' Hin. apply (Htrace _ Hin).
  - intros call o' Hin. apply (Htrace _ Hin).
Qed.

Lemma purchaseKey_gasLimit_supplied_sample :
  State.transactionOptions
    (run (purchaseKey Sample.world Sample.direct false)
       {[ "gasLimit" := 21000; "gasPrice" := 9 ]}).2
  !! "gasLimit" = Some 21000.
Proof.
  assert (truthy_int (({[ "gasLimit" := 21000; "gasPrice" := 9 ]}
                         : TransactionOptions) !! "gasLimit") = true)
    as Hgas by reflexivity.
  rewrite (proj2 (proj2 (proj2
    (purchaseKey_gasLimit_supplied Sample.world Sample.direct false
       {[ "gasLimit" := 21000; "gasPrice" := 9 ]} Hgas))) "gasLimit");
    [reflexivity | unfold gasKeys; by left].
Defined.

(** C7 (failing input). A swap route whose native value is zero, into a
    lock priced in native currency: the value is not overridden, and the
    swap-and-call is estimated and submitted with the inner purchase amount
    (the lock's price, 5) as its value. A route without the field behaves
    the same. *)
Theorem purchaseKey_swap_without_value :
  Swap.value Sample.swap = Some 0
  ∧ run (purchaseKey Sample.world Sample.swapped false) ∅
    = (Ok (Some "7"),
       State.mk {[ "value" := 5; "gasLimit" := 130009 ]}
         [ GetLockContract Sample.lock; TokenAddress; KeyPrice;
           ApproveAllowance
             (ApprovalOptions.mk (Some Sample.token) (Some Sample.purchaser)
                1010);
           GetFeeData;
           EstimateGas Sample.swapCall
             {[ "value" := 5; "maxFeePerGas" := 20;
                "maxPriorityFeePerGas" := 2 ]};
           SendTransaction Sample.swapCall
             {[ "value" := 5; "gasLimit" := 130009 ]};
           WaitForTransaction "0xhash" ])
  ∧ run (purchaseKey Sample.world Sample.swappedBare false) ∅
    = run (purchaseKey Sample.world Sample.swapped false) ∅.
Proof. split; [reflexivity | split; by vm_compute]. Qed.

Lemma setValue_swap_value erc20Address actualAmount swap o :
  setValue erc20Address actualAmount (Some swap) o !! "value"
  = if truthy_int (Swap.value swap) then Swap.value swap
    else if negb (truthy_string erc20Address)
            || bool_decide (erc20Address = Some ZERO)
         then Some actualAmount
         else o !! "value".
Proof.
  unfold setValue. destruct (truthy_int _).
  - by rewrite assign_lookup, decide_True.
  - destruct (_ || _); [by rewrite lookup_insert_eq | done].
Qed.

(** ** Approval *)

Lemma resolveAmount_spec w keyPrice decimals erc20Address s :
  ∃ effects,
    resolveAmount w keyPrice decimals erc20Address s
    = (amountOf w keyPrice decimals erc20Address,
       State.mk (State.transactionOptions s) (State.trace s ++ effects))
    ∧ ∀ options, ApproveAllowance options ∉ effects.
Proof.
  destruct s as [o t]. unfold resolveAmount, amountOf.
  destruct (negb _).
  - exists [KeyPrice]. split; [done | set_solver].
  - destruct decimals as [d|].
    + exists []. unfold lift. rewrite app_nil_r. split; [done | set_solver].
    + destruct (_ && _).
      * exists [GetErc20Decimals (default "" erc20Address)].
        unfold bind, await, lift. cbn.
        split; [by destruct (World.getErc20Decimals _ _) | set_solver].
      * exists []. unfold bind, ret, lift. rewrite app_nil_r.
        split; [done | set_solver].
Qed.

Lemma approvalsSelected_record w p e s :
  (∀ options, e ≠ ApproveAllowance options) →
  approvalsSelected w p s → approvalsSelected w p (record e s).
Proof.
  intros He Hs options Hin. cbn in Hin.
  apply elem_of_app in Hin as [Hin | Hin%list_elem_of_singleton]; [by apply Hs|].
  by destruct (He options).
Qed.

Lemma hoare_pure {A} (φ : Prop) (P : State.t → Prop) (m : M A) Q E :
  (φ → hoare P m Q E) → hoare (λ s, P s ∧ φ) m Q E.
Proof. intros H s [HP Hφ]. by apply H. Qed.

(** After the approval step, nothing asks for an approval any more: an
    invariant that only approvals can break is kept to the end. *)
Lemma settle_preserves (I : State.t → Prop) w lockAddress call callback :
  (∀ e s, (∀ options, e ≠ ApproveAllowance options) → I s → I (record e s)) →
  (∀ f s, I s → I (update f s)) →
  preserves I
    (do estimateGasStep w call in
     let* hash := submit w call in
     do (if callback : bool then await (Callback hash) (Ok tt) else ret tt) in
     let* receipt :=
       await (WaitForTransaction hash) (World.waitForTransaction w hash) in
     lift (resolveReceipt w lockAddress receipt)).
Proof.
  intros Hrecord Hupdate. unfold estimateGasStep, estimate, submit.
  preserve; try done; by (apply Hrecord || apply Hupdate).
Qed.

Lemma purchaseKey_approvalsSelected w p callback :
  preserves (approvalsSelected w p) (purchaseKey w p callback).
Proof.
  unfold purchaseKey.
  apply preserves_bind; [preserve; by apply approvalsSelected_record|].
  intros _.
  apply preserves_bind; [preserve; by apply approvalsSelected_record|].
  intros owner.
  (* the token *)
  apply hoare_bind
    with (R := λ erc20Address s,
                 approvalsSelected w p s ∧ tokenOf w p = Ok erc20Address).
  { unfold tokenOf. destruct (negb _).
    - intros s Hs. unfold bind, await, ret. cbn.
      pose proof (approvalsSelected_record w p TokenAddress s
                    ltac:(done) Hs) as Hrecord.
      destruct (World.tokenAddress w); cbn;
        [split; [exact Hrecord | done] | exact Hrecord].
    - by apply hoare_ret. }
  intros erc20Address. apply hoare_pure. intros Htoken.
  (* the amount *)
  apply hoare_bind
    with (R := λ actualAmount s,
                 approvalsSelected w p s
                 ∧ amountOf w (Params.keyPrice p) (Params.decimals p)
                     erc20Address = Ok actualAmount).
  { intros s Hs.
    destruct (resolveAmount_spec w (Params.keyPrice p) (Params.decimals p)
                erc20Address s) as (effects & -> & Heffects).
    assert (approvalsSelected w p
              (State.mk (State.transactionOptions s) (State.trace s ++ effects)))
      as Hkept.
    { intros options Hin. cbn in Hin.
      apply elem_of_app in Hin as [Hin | Hin]; [by apply Hs|].
      by destruct (Heffects options). }
    by destruct (amountOf _ _ _ _). }
  intros actualAmount. apply hoare_pure. intros Hamount.
  apply preserves_bind; [by preserve|]. intros _.
  apply preserves_bind;
    [|intros _; apply settle_preserves;
        [intros e s He; by apply approvalsSelected_record | done]].
  (* the approval itself *)
  unfold approve.
  destruct (truthy_string _) eqn:Htruthy; cbn [andb]; [|apply preserves_ret].
  case_bool_decide as Hzero; [|apply preserves_ret].
  apply preserves_await. intros s Hs options Hin. cbn in Hin.
  apply elem_of_app in Hin as [Hin | Hin%list_elem_of_singleton];
    [by apply Hs|].
  injection Hin as ->. unfold selectedApproval. by rewrite Htoken, Hamount.
Qed.

Lemma purchaseKey_requests w p callback options :
  reachesResolution w p = true →
  selectedApproval w p = Ok options →
  truthy_string (ApprovalOptions.erc20Address options) = true →
  ApprovalOptions.erc20Address options ≠ Some ZERO →
  hoare (λ _, True) (purchaseKey w p callback)
    (λ _ s, ApproveAllowance options ∈ State.trace s)
    (λ _ s, ApproveAllowance options ∈ State.trace s).
Proof.
  intros Hreach Hselected Htruthy Hzero.
  unfold reachesResolution in Hreach. unfold selectedApproval in Hselected.
  destruct (tokenOf w p) as [erc20Address|] eqn:Htoken; [|done].
  destruct (amountOf w _ _ erc20Address) as [actualAmount|] eqn:Hamount;
    [|done].
  injection Hselected as <-.
  unfold purchaseKey.
  destruct (World.getLockContract w _); [|done].
  apply hoare_bind with (R := λ _ _, True); [by apply hoare_await|]. intros _.
  apply hoare_bind with (R := λ _ _, True).
  { destruct (truthy_string (Params.owner p)); cbn in *; [by apply hoare_ret|].
    destruct (World.getAddress w); [by apply hoare_await | done]. }
  intros owner.
  apply hoare_bind with (R := λ a _, True ∧ a = erc20Address).
  { unfold tokenOf in Htoken. destruct (negb _).
    - destruct (World.tokenAddress w); [|done]. injection Htoken as <-.
      by intros s _.
    - injection Htoken as <-. by apply hoare_ret. }
  intros ?. apply hoare_pure. intros ->.
  apply hoare_bind with (R := λ a _, True ∧ a = actualAmount).
  { intros s _.
    destruct (resolveAmount_spec w (Params.keyPrice p) (Params.decimals p)
                erc20Address s) as (effects & -> & _).
    by rewrite Hamount. }
  intros ?. apply hoare_pure. intros ->.
  apply hoare_bind with (R := λ _ _, True); [by apply hoare_modifyOptions|].
  intros _.
  apply hoare_bind
    with (R := λ _ s, ApproveAllowance
                        (approvalOptions (Params.swap p)
                           match Params.swap p with
                           | Some _ => World.getUnlockSwapPurchaserContract w
                           | None => None
                           end erc20Address (Params.lockAddress p) actualAmount)
                      ∈ State.trace s).
  { unfold approve. rewrite Htruthy, bool_decide_eq_true_2 by done. cbn.
    apply hoare_await. intros s _.
    destruct (World.approveAllowance _ _); cbn; set_solver. }
  intros _. apply settle_preserves.
  - intros e s _ Hin. cbn. set_solver.
  - done.
Qed.

(** C9. Every approval that a run asks for is the one the purchase selects,
    and is for a token that is present and not the zero address. With a
    swap route the selection is the route's source token, the
    swap-purchaser contract and the maximum input amount; without one it is
    the payment token, the lock and the resolved amount. The approval is
    asked for whenever the run gets that far and the selected token is such
    a token; when the selected token is absent or the zero address, no
    approval is asked for at all. *)
Theorem purchaseKey_approval w p callback o :
  let trace := State.trace (run (purchaseKey w p callback) o).2 in
  (∀ options,
     ApproveAllowance options ∈ trace →
     selectedApproval w p = Ok options
     ∧ truthy_string (ApprovalOptions.erc20Address options) = true
     ∧ ApprovalOptions.erc20Address options ≠ Some ZERO)
  ∧ (∀ options,
       selectedApproval w p = Ok options →
       match Params.swap p with
       | Some swap =>
           options
           = ApprovalOptions.mk (Swap.srcTokenAddress swap)
               (World.getUnlockSwapPurchaserContract w)
               (Swap.amountInMax swap)
       | None =>
           ∃ erc20Address actualAmount,
             tokenOf w p = Ok erc20Address
             ∧ amountOf w (Params.keyPrice p) (Params.decimals p) erc20Address
               = Ok actualAmount
             ∧ options
               = ApprovalOptions.mk erc20Address (Some (Params.lockAddress p))
                   actualAmount
       end)
  ∧ (∀ options,
       reachesResolution w p = true →
       selectedApproval w p = Ok options →
       truthy_string (ApprovalOptions.erc20Address options) = true →
       ApprovalOptions.erc20Address options ≠ Some ZERO →
       ApproveAllowance options ∈ trace)
  ∧ (∀ options,
       selectedApproval w p = Ok options →
       truthy_string (ApprovalOptions.erc20Address options) = false
       ∨ ApprovalOptions.erc20Address options = Some ZERO →
       ∀ options', ApproveAllowance options' ∉ trace).
Proof.
  intros trace.
  assert (approvalsSelected w p (run (purchaseKey w p callback) o).2)
    as Hselected.
  { pose proof (hoare_run _ _ _ _ o (purchaseKey_approvalsSelected w p callback))
      as Hrun.
    destruct (run _ _).1; apply Hrun; intros options Hin; inversion Hin. }
  split; [exact Hselected|]. split; [|split].
  - intros options. unfold selectedApproval, approvalOptions.
    destruct (tokenOf w p) as [erc20Address|]; [|done].
    destruct (amountOf w _ _ _) as [actualAmount|] eqn:Hamount; [|done].
    intros [= <-]. destruct (Params.swap p); [done|].
    by exists erc20Address, actualAmount.
  - intros options Hreach Hoptions Htruthy Hzero.
    pose proof (hoare_run _ _ _ _ o
      (purchaseKey_requests w p callback options Hreach Hoptions Htruthy Hzero)
      I) as Hrun.
    subst trace. by destruct (run _ _).1.
  - intros options Hoptions Hnative options' Hin.
    destruct (Hselected options' Hin) as (Hoptions' & Htruthy & Hzero).
    rewrite Hoptions in Hoptions'. injection Hoptions' as <-.
    destruct Hnative as [Hfalsy | Hnative]; congruence.
Qed.

Lemma purchaseKey_approval_sample :
  ApproveAllowance
    (ApprovalOptions.mk (Some Sample.token) (Some Sample.purchaser) 1010)
  ∈ State.trace (run (purchaseKey Sample.world Sample.swapped false) ∅).2.
Proof.
  refine (proj1 (proj2 (proj2
    (purchaseKey_approval Sample.world Sample.swapped false ∅))) _ _ _ _ _);
    [reflexivity | reflexivity | reflexivity | discriminate].
Defined.


(** * Further properties of [purchaseKey] *)

(** ** Triples that keep an invariant and end in a given state on a throw *)

Section Keeps.

Context {A B : Type} (I : State.t → Prop) (E : string → State.t → Prop).
Hypothesis invariant_throw : ∀ message s, I s → E message s.

Lemma keeps_ret (a : A) : hoare I (ret a) (λ _, I) E.
Proof. by apply hoare_ret. Qed.

Lemma keeps_lift (r : Result A) : hoare I (lift r) (λ _, I) E.
Proof. apply hoare_lift. intros s HI. destruct r; [done | by apply invariant_throw]. Qed.

Lemma keeps_bind (m : M A) (f : A → M B) :
  hoare I m (λ _, I) E → (∀ a, hoare I (f a) (λ _, I) E) →
  hoare I (bind m f) (λ _, I) E.
Proof. intros Hm Hf. by eapply hoare_bind. Qed.

Lemma keeps_tryCatch (m : M A) (handler : string → M A) :
  preserves I m → (∀ e, hoare I (handler e) (λ _, I) E) →
  hoare I (tryCatch m handler) (λ _, I) E.
Proof. intros Hm Hh. by eapply hoare_tryCatch. Qed.

Lemma keeps_preserves (m : M A) : preserves I m → hoare I m (λ _, I) E.
Proof.
  intros Hm. eapply hoare_consequence; [exact Hm | done..|].
  intros message s. apply invariant_throw.
Qed.

End Keeps.

(** ** The order of the remote calls *)

Lemma StronglySorted_lookup {A} (R : A → A → Prop) (l : list A) i j a b :
  StronglySorted R l → l !! i = Some a → l !! j = Some b → (i < j)%nat →
  R a b.
Proof.
  intros Hsorted. revert i j.
  induction Hsorted as [|x l Hsorted IH Hall]; intros i j Hi Hj Hlt; [done|].
  destruct j as [|j]; [lia|]. cbn in Hj. destruct i as [|i]; cbn in Hi.
  - injection Hi as ->. rewrite Forall_forall in Hall.
    apply Hall. by eapply list_elem_of_lookup_2.
  - apply (IH i j Hi Hj). lia.
Qed.

Lemma inOrder_weaken n m s : (n ≤ m)%nat → inOrder n s → inOrder m s.
Proof.
  intros Hle [Hsorted Hbelow]. split; [done|].
  eapply Forall_impl; [exact Hbelow|]. cbn. intros e He. lia.
Qed.

Lemma inOrder_record n e s :
  (n ≤ stage e)%nat → inOrder n s → inOrder (S (stage e)) (record e s).
Proof.
  intros Hle [Hsorted Hbelow]. split; cbn.
  - apply StronglySorted_app. split_and!; [|done|by repeat constructor].
    intros a b Ha ->%list_elem_of_singleton.
    rewrite Forall_forall in Hbelow. specialize (Hbelow a Ha). cbn in Hbelow. lia.
  - apply Forall_app. split; [|by repeat constructor].
    eapply Forall_impl; [exact Hbelow|]. cbn. intros a Ha. lia.
Qed.

Lemma inOrder_await {A} n m k e (r : Result A) :
  (n ≤ stage e)%nat → (stage e < m)%nat → (stage e < k)%nat →
  hoare (inOrder n) (await e r) (λ _, inOrder m) (λ _, inOrder k).
Proof.
  intros Hn Hm Hk. apply hoare_await. intros s Hs.
  pose proof (inOrder_record n e s Hn Hs) as Hrecord.
  destruct r; (eapply inOrder_weaken; [|exact Hrecord]); lia.
Qed.

Lemma inOrder_pure {A} n m k (x : M A) :
  (∀ s, State.trace (x s).2 = State.trace s) → (n ≤ m)%nat → (n ≤ k)%nat →
  hoare (inOrder n) x (λ _, inOrder m) (λ _, inOrder k).
Proof.
  intros Hpure Hm Hk s Hs. specialize (Hpure s).
  assert (∀ j, (n ≤ j)%nat → inOrder j (x s).2) as Hkept.
  { intros j Hj. apply (inOrder_weaken n j); [done|].
    unfold inOrder in *. by rewrite Hpure. }
  destruct (x s) as [[a|e] s']; by apply Hkept.
Qed.

(** One step of a proof that a computation moves on in the order of the
    source; the sequencing is given by hand. *)
Ltac order_step :=
  lazymatch goal with
  | |- ∀ _, _ => intros ?
  | |- hoare (inOrder _) (await _ _) _ _ =>
      apply inOrder_await; cbn; lia
  | |- hoare (inOrder _) (if ?b then _ else _) _ _ => destruct b
  | |- hoare (inOrder _) (match ?x with _ => _ end) _ _ => destruct x
  | |- hoare (inOrder _) _ _ _ => apply inOrder_pure; [done | lia..]
  end.

Lemma estimateGasStep_inOrder w call :
  hoare (inOrder 5) (estimateGasStep w call)
    (λ _, inOrder 8) (λ _, inOrder 11).
Proof.
  unfold estimateGasStep.
  apply hoare_bind with (R := λ _, inOrder 5); [order_step|]. intros o.
  destruct (negb _); [|order_step].
  apply hoare_tryCatch with (R := λ _, inOrder 7).
  - unfold estimate.
    apply hoare_bind with (R := λ _, inOrder 6); [order_step|]. intros feeData.
    apply hoare_bind with (R := λ _, inOrder 6); [order_step|]. intros _.
    apply hoare_bind with (R := λ _, inOrder 6); [order_step|]. intros o'.
    apply hoare_bind with (R := λ _, inOrder 7).
    { destruct call as [call|]; [|order_step].
      apply hoare_bind with (R := λ _, inOrder 7); repeat order_step. }
    intros gasLimit.
    apply hoare_bind with (R := λ _, inOrder 7); [order_step|]. intros _.
    destruct gasLimit; order_step.
  - intros e.
    apply hoare_bind with (R := λ _, inOrder 8); repeat order_step.
Qed.

Lemma purchaseKey_inOrder w p callback :
  hoare (inOrder 0) (purchaseKey w p callback)
    (λ _, inOrder 11) (λ _, inOrder 11).
Proof.
  unfold purchaseKey.
  apply hoare_bind with (R := λ _, inOrder 1); [order_step|]. intros _.
  apply hoare_bind with (R := λ _, inOrder 2); [repeat order_step|].
  intros owner.
  apply hoare_bind with (R := λ _, inOrder 3).
  { destruct (negb _); [|order_step].
    apply hoare_bind with (R := λ _, inOrder 3); repeat order_step. }
  intros erc20Address.
  apply hoare_bind with (R := λ _, inOrder 4).
  { unfold resolveAmount. destruct (negb _); [order_step|].
    destruct (Params.decimals p); [order_step|].
    apply hoare_bind with (R := λ _, inOrder 4); repeat order_step. }
  intros actualAmount.
  apply hoare_bind with (R := λ _, inOrder 4); [order_step|]. intros _.
  apply hoare_bind with (R := λ _, inOrder 5);
    [unfold approve; repeat order_step|].
  intros _.
  apply hoare_bind with (R := λ _, inOrder 8).
  { eapply hoare_consequence; [apply estimateGasStep_inOrder | done..]. }
  intros _.
  apply hoare_bind with (R := λ _, inOrder 9).
  { unfold submit.
    apply hoare_bind with (R := λ _, inOrder 8); repeat order_step. }
  intros hash.
  apply hoare_bind with (R := λ _, inOrder 10); [repeat order_step|].
  intros _.
  apply hoare_bind with (R := λ _, inOrder 11); repeat order_step.
Qed.

(** X1. The remote calls of a run are made in the order of the source, each
    kind at most once: two entries of the trace are in the order of their
    stages. So the lock contract comes first, an approval comes before the
    fee data, the estimate and the submission, and the submission before
    the callback and the wait for the receipt; no run asks for two
    approvals or submits two transactions. *)
Theorem purchaseKey_order w p callback o i j a b :
  State.trace (run (purchaseKey w p callback) o).2 !! i = Some a →
  State.trace (run (purchaseKey w p callback) o).2 !! j = Some b →
  ((i < j)%nat ↔ (stage a < stage b)%nat)
  ∧ ((stage a = stage b)%nat → i = j).
Proof.
  intros Hi Hj.
  assert (StronglySorted (λ a b, (stage a < stage b)%nat)
            (State.trace (run (purchaseKey w p callback) o).2)) as Hsorted.
  { assert (inOrder 0 (State.mk o [])) as Hstart by (split; constructor).
    pose proof (hoare_run _ _ _ _ o (purchaseKey_inOrder w p callback) Hstart)
      as Hrun.
    destruct (run _ _).1; apply Hrun. }
  pose proof (λ i j a b, StronglySorted_lookup _ _ i j a b Hsorted) as Hlookup.
  assert ((i < j)%nat → (stage a < stage b)%nat) as Hforward by eauto.
  assert ((j < i)%nat → (stage b < stage a)%nat) as Hbackward by eauto.
  assert (i = j → a = b) as Hsame by (intros ->; congruence).
  split; [split; [done|]|]; intros Hstage.
  - destruct (decide (i < j)%nat) as [|Hge]; [done|].
    destruct (decide (i = j)) as [Heq|Hne]; [rewrite (Hsame Heq) in Hstage; lia|].
    assert (j < i)%nat as Hlt by lia. specialize (Hbackward Hlt). lia.
  - destruct (decide (i < j)%nat) as [Hlt|Hge];
      [specialize (Hforward Hlt); lia|].
    destruct (decide (j < i)%nat) as [Hlt|Hge'];
      [specialize (Hbackward Hlt); lia | lia].
Qed.

Lemma purchaseKey_order_sample :
  (stage
     (ApproveAllowance
        (ApprovalOptions.mk (Some Sample.token) (Some Sample.purchaser) 1010))
   < stage
       (SendTransaction Sample.swapCall
          {[ "value" := 5%Z; "gasLimit" := 130009%Z ]}))%nat.
Proof.
  refine (proj1 (proj1
    (purchaseKey_order Sample.world Sample.swapped false ∅ 3 6 _ _ _ _)) _);
    [by vm_compute | by vm_compute | lia].
Defined.

(** ** Rejected calls *)

Lemma healthy_stopped w message s : healthy w s → stopped w message s.
Proof. by left. Qed.

Lemma healthy_record w e s :
  thrown w e = None → healthy w s → healthy w (record e s).
Proof. intros He Hs. apply Forall_app. by split; [|repeat constructor]. Qed.

Lemma fatal_await {A} w e (r : Result A) :
  thrown w e = match r with Ok _ => None | Throw m => Some m end →
  hoare (healthy w) (await e r) (λ _, healthy w) (stopped w).
Proof.
  intros He. apply hoare_await. intros s Hs. destruct r as [a|m].
  - by apply healthy_record.
  - right. by exists (State.trace s), e.
Qed.

Lemma quiet_await {A} w e (r : Result A) :
  thrown w e = None →
  hoare (healthy w) (await e r) (λ _, healthy w) (stopped w).
Proof.
  intros He. apply keeps_preserves; [apply healthy_stopped|].
  apply preserves_await. intros s. by apply healthy_record.
Qed.

(** One step of a proof that a computation stays healthy until a call is
    rejected. *)
Ltac fatal_step :=
  lazymatch goal with
  | |- ∀ _, _ => intros ?
  | |- hoare _ (bind _ _) _ _ => apply keeps_bind
  | |- hoare _ (ret _) _ _ => apply keeps_ret
  | |- hoare _ (lift _) _ _ => apply keeps_lift, healthy_stopped
  | |- hoare _ (await _ _) _ _ =>
      first [apply fatal_await; reflexivity | apply quiet_await; reflexivity]
  | |- hoare _ getOptions _ _ => by apply hoare_getOptions
  | |- hoare _ (modifyOptions _) _ _ => by apply hoare_modifyOptions
  | |- hoare _ (if ?b then _ else _) _ _ => destruct b
  | |- hoare _ (match ?x with _ => _ end) _ _ => destruct x
  end.

Lemma purchaseKey_healthy w p callback :
  hoare (healthy w) (purchaseKey w p callback) (λ _, healthy w) (stopped w).
Proof.
  unfold purchaseKey, resolveAmount, approve, submit.
  repeat fatal_step.
  all: unfold estimateGasStep; repeat fatal_step.
  all: apply keeps_tryCatch; [|intros ?; repeat fatal_step].
  all: unfold estimate; preserve; try done; by apply healthy_record.
Qed.

(** X2. A call that its collaborator rejects outside the [try] block (the
    lock contract, the signer, the token address, the price or decimals
    lookup, the approval, the submission, the wait for the receipt) ends
    the run: the run throws the collaborator's own message, the rejected
    call is the last one of the trace, and no call of a later stage was
    made. In particular no transaction is estimated or submitted after a
    failed approval. *)
Theorem purchaseKey_fatal w p callback o e message :
  e ∈ State.trace (run (purchaseKey w p callback) o).2 →
  thrown w e = Some message →
  (run (purchaseKey w p callback) o).1 = Throw message
  ∧ last (State.trace (run (purchaseKey w p callback) o).2) = Some e
  ∧ ∀ e', e' ∈ State.trace (run (purchaseKey w p callback) o).2 →
          (stage e' ≤ stage e)%nat.
Proof.
  intros Hin Hthrown.
  assert (healthy w (State.mk o [])) as Hstart by constructor.
  pose proof (hoare_run _ _ _ _ o (purchaseKey_healthy w p callback) Hstart)
    as Hrun.
  assert (inOrder 0 (State.mk o [])) as Hstart' by (split; constructor).
  pose proof (hoare_run _ _ _ _ o (purchaseKey_inOrder w p callback) Hstart')
    as Horder.
  assert (StronglySorted (λ a b, (stage a < stage b)%nat)
            (State.trace (run (purchaseKey w p callback) o).2)) as Hsorted
    by (destruct (run _ _).1; apply Horder).
  clear Horder.
  assert (∀ s : State.t, healthy w s → e ∉ State.trace s) as Hhealthy.
  { intros s Hs He. unfold healthy in Hs. rewrite Forall_forall in Hs.
    specialize (Hs e He). congruence. }
  destruct (run (purchaseKey w p callback) o) as [[r|m] s]; cbn in *.
  { by destruct (Hhealthy s Hrun). }
  destruct Hrun as [Hs | (t & e0 & Ht & He0 & Hrest)];
    [by destruct (Hhealthy s Hs)|].
  rewrite Ht in Hin, Hsorted |- *.
  assert (e = e0) as <-.
  { apply elem_of_app in Hin as [Hin | Hin%list_elem_of_singleton]; [|done].
    rewrite Forall_forall in Hrest. specialize (Hrest e Hin). congruence. }
  split; [congruence|]. split; [apply last_snoc|].
  intros e' [He' | ->%list_elem_of_singleton]%elem_of_app; [|done].
  apply StronglySorted_app in Hsorted as (Hlt & _ & _).
  specialize (Hlt e' e He'). cbn in Hlt.
  assert (stage e' < stage e)%nat; [apply Hlt; by left | lia].
Qed.

(** ** The two halves of a run *)

Lemma purchaseKey_split w p callback s :
  purchaseKey w p callback s
  = bind (prepare w p)
      (λ call, settle w (Params.lockAddress p) call callback) s.
Proof.
  unfold purchaseKey, prepare, settle, purchaserOf, referrerOf, dataOf, bind.
  repeat match goal with
         | |- context [match ?m ?s with _ => _ end] =>
             destruct (m s) as [[?|?] ?]; try done
         end.
Qed.

Lemma resolveAmount_run w keyPrice decimals erc20Address s :
  ∃ effects,
    resolveAmount w keyPrice decimals erc20Address s
    = (amountOf w keyPrice decimals erc20Address,
       State.mk (State.transactionOptions s) (State.trace s ++ effects))
    ∧ Forall (λ e, (stage e ≤ 4)%nat) effects.
Proof.
  destruct s as [o t]. unfold resolveAmount, amountOf.
  destruct (negb _).
  - exists [KeyPrice]. split; [done | repeat constructor; cbn; lia].
  - destruct decimals as [d|].
    + exists []. unfold lift. rewrite app_nil_r. by split.
    + destruct (_ && _).
      * exists [GetErc20Decimals (default "" erc20Address)].
        unfold bind, await, lift. cbn.
        split; [by destruct (World.getErc20Decimals _ _)|].
        repeat constructor; cbn; lia.
      * exists []. unfold bind, ret, lift. rewrite app_nil_r. by split.
Qed.

Lemma extends_refl s : extends s s.
Proof. exists []. by rewrite app_nil_r. Qed.

Lemma extends_record s0 e s :
  (stage e ≤ 4)%nat → extends s0 s → extends s0 (record e s).
Proof.
  intros He (t & Ht & Hearly). exists (t ++ [e]). cbn. rewrite Ht.
  split; [by rewrite (assoc_L (++))|].
  apply Forall_app. split; [done | by constructor].
Qed.

Lemma extends_update s0 f s : extends s0 s → extends s0 (update f s).
Proof. done. Qed.

(** The state after one more early call still extends the start. *)
Ltac extend :=
  repeat split; try done;
  try (apply extends_record; [cbn; lia | first [apply extends_refl | done]]).

Lemma prepare_spec w p s0 :
  hoare (λ s, s = s0) (prepare w p)
    (λ call s,
       extends s0 s
       ∧ prepared w p (State.transactionOptions s0) call
           (State.transactionOptions s))
    (λ _ s, extends s0 s).
Proof.
  set (kept := λ s, extends s0 s
                    ∧ State.transactionOptions s = State.transactionOptions s0).
  unfold prepare.
  apply hoare_bind with (R := λ _, kept).
  { apply hoare_await. intros s ->. unfold kept.
    destruct (World.getLockContract w _); extend. }
  intros _.
  apply hoare_bind
    with (R := λ owner s, kept s ∧ ownerOf w p = Ok owner).
  { unfold ownerOf, kept. destruct (negb _).
    - apply hoare_await. intros s [Hs Ho].
      destruct (World.getAddress w); extend.
    - by apply hoare_ret. }
  intros owner. apply hoare_pure. intros Howner.
  apply hoare_bind
    with (R := λ erc20Address s, kept s ∧ tokenOf w p = Ok erc20Address).
  { unfold tokenOf, kept. destruct (negb _); [|by apply hoare_ret].
    intros s [Hs Ho]. unfold bind, await, ret. cbn.
    destruct (World.tokenAddress w); extend. }
  intros erc20Address. apply hoare_pure. intros Htoken.
  apply hoare_bind
    with (R := λ actualAmount s,
                 kept s
                 ∧ amountOf w (Params.keyPrice p) (Params.decimals p)
                     erc20Address = Ok actualAmount).
  { unfold kept. intros s [(t & Ht & Hearly) Ho].
    destruct (resolveAmount_run w (Params.keyPrice p) (Params.decimals p)
                erc20Address s) as (effects & -> & Heffects).
    assert (extends s0
              (State.mk (State.transactionOptions s) (State.trace s ++ effects)))
      as Hextends.
    { exists (t ++ effects). cbn. rewrite Ht.
      split; [by rewrite (assoc_L (++)) | by apply Forall_app]. }
    by destruct (amountOf _ _ _ _). }
  intros actualAmount. apply hoare_pure. intros Hamount.
  apply hoare_bind
    with (R := λ _ s,
                 extends s0 s
                 ∧ State.transactionOptions s
                   = setValue erc20Address actualAmount (Params.swap p)
                       (State.transactionOptions s0)).
  { apply hoare_modifyOptions. unfold kept. intros s [Hs Ho].
    split; [done|]. cbn. by rewrite Ho. }
  intros _.
  apply hoare_bind
    with (R := λ _ s,
                 extends s0 s
                 ∧ State.transactionOptions s
                   = setValue erc20Address actualAmount (Params.swap p)
                       (State.transactionOptions s0)).
  { unfold approve. destruct (_ && _); [|by apply hoare_ret].
    apply hoare_await. intros s [Hs Ho].
    destruct (World.approveAllowance _ _); extend. }
  intros _. apply hoare_ret. intros s [Hs Ho]. split; [done|].
  by exists owner, erc20Address, actualAmount.
Qed.

Lemma estimateGasStep_run w call s :
  estimateGasStep w call s
  = (Ok tt,
     State.mk (estimation w call (State.transactionOptions s)).2
       (State.trace s ++ (estimation w call (State.transactionOptions s)).1)).
Proof.
  destruct s as [o t].
  unfold estimateGasStep, estimation, bind, getOptions. cbn.
  destruct (truthy_int _); cbn; [by rewrite app_nil_r|].
  unfold tryCatch, estimate, bind, await, modifyOptions, getOptions, lift, ret.
  cbn.
  destruct (World.getFeeData w) as [feeData|]; cbn;
    [|by rewrite <- (assoc_L (++))].
  destruct call as [call|]; cbn.
  - destruct (World.estimateGas _ _ _); cbn;
      by rewrite ?deleteFees_setFees, <- ?(assoc_L (++)).
  - by rewrite deleteFees_idemp, deleteFees_setFees, <- (assoc_L (++)).
Qed.

Lemma settle_run w lockAddress call callback s :
  settle w lockAddress call callback s
  = ((settlement w lockAddress call callback (State.transactionOptions s)).1,
     State.mk (estimation w call (State.transactionOptions s)).2
       (State.trace s
        ++ (settlement w lockAddress call callback
              (State.transactionOptions s)).2)).
Proof.
  unfold settle, settlement, bind. rewrite estimateGasStep_run.
  destruct (estimation _ _ _) as [estimating o'] eqn:Hestimation. cbn.
  destruct call as [call|]; [|done].
  unfold submit, bind, getOptions, await, lift, ret. cbn.
  destruct (World.sendTransaction _ _ _) as [hash|]; cbn;
    [|by rewrite <- (assoc_L (++))].
  destruct callback; cbn;
    destruct (World.waitForTransaction _ _); cbn;
    by rewrite <- ?(assoc_L (++)).
Qed.

(** Every run either stops in its first half, with early calls only, or is
    the second half run on what the first half prepared. *)
Lemma purchaseKey_run w p callback o :
  (∃ message t,
     run (purchaseKey w p callback) o = (Throw message, t)
     ∧ Forall (λ e, (stage e ≤ 4)%nat) (State.trace t))
  ∨ ∃ call o0 t0,
      prepared w p o call o0
      ∧ Forall (λ e, (stage e ≤ 4)%nat) t0
      ∧ run (purchaseKey w p callback) o
        = ((settlement w (Params.lockAddress p) call callback o0).1,
           State.mk (estimation w call o0).2
             (t0 ++ (settlement w (Params.lockAddress p) call callback o0).2)).
Proof.
  unfold run. rewrite purchaseKey_split. unfold bind.
  pose proof (prepare_spec w p (State.mk o []) _ eq_refl) as Hprepare.
  destruct (prepare w p _) as [[call|message] [o0 t0]].
  - destruct Hprepare as [(t & Ht & Hearly) Hprepared]. cbn in *. subst t0.
    right. exists call, o0, t. split_and!; [done..|].
    by rewrite settle_run.
  - destruct Hprepare as (t & Ht & Hearly). cbn in *. subst t0.
    left. by exists message, (State.mk o0 t).
Qed.

Lemma early_late t e :
  Forall (λ e, (stage e ≤ 4)%nat) t → (5 ≤ stage e)%nat → e ∉ t.
Proof.
  rewrite Forall_forall. intros Hearly He Hin. specialize (Hearly e Hin).
  cbn in Hearly. lia.
Qed.

(** Splits the membership [H] of a call in a trace whose front holds only
    calls of other stages. *)
Ltac late H :=
  repeat
    (first
       [ apply elem_of_app in H as [H|H]
       | apply elem_of_cons in H as [H|H]
       | apply elem_of_nil in H; destruct H
       | match goal with
         | Hearly : Forall (λ e, (stage e ≤ 4)%nat) ?t |- _ =>
             match type of H with
             | _ ∈ t =>
                 exfalso; revert H; apply early_late; [exact Hearly | cbn; lia]
             end
         | Hlate : ∀ e, (_ ≤ stage e)%nat → e ∉ ?g |- _ =>
             match type of H with
             | _ ∈ g => exfalso; revert H; apply Hlate; cbn; lia
             end
         end ]);
  simplify_eq.

(** ** The submitted transaction *)

(** X3. A run waits only for the receipt of the transaction it submitted:
    the hash that is waited for, and the hash that the callback gets, is
    the one that the submission returned. The callback is called only when
    one was passed; once a submission is accepted, the callback (if any) is
    called and the receipt is waited for. *)
Theorem purchaseKey_hash w p callback o :
  let trace := State.trace (run (purchaseKey w p callback) o).2 in
  (∀ hash,
     WaitForTransaction hash ∈ trace ∨ Callback hash ∈ trace →
     ∃ call o',
       SendTransaction call o' ∈ trace
       ∧ World.sendTransaction w call o' = Ok hash)
  ∧ (∀ hash, Callback hash ∈ trace → callback = true)
  ∧ (∀ call o' hash,
       SendTransaction call o' ∈ trace →
       World.sendTransaction w call o' = Ok hash →
       WaitForTransaction hash ∈ trace
       ∧ (callback = true → Callback hash ∈ trace)).
Proof.
  destruct (purchaseKey_run w p callback o)
    as [(message & t & -> & Hearly)
       |(call & o0 & t0 & _ & Hearly & ->)]; cbn.
  { split_and!.
    - intros hash [H|H]; late H.
    - intros hash H; late H.
    - intros call o' hash H; late H. }
  unfold settlement. destruct (estimation w call o0) as [g o1] eqn:Hg.
  assert (∀ e, e ∈ g → (stage e = 5 ∨ stage e = 6 ∨ stage e = 7)%nat) as Hgas.
  { unfold estimation in Hg. intros e He.
    destruct (truthy_int _); [injection Hg as <- <-; late He|].
    destruct (World.getFeeData w);
      [|injection Hg as <- <-; late He; cbn; lia].
    destruct call as [call|];
      [|injection Hg as <- <-; late He; cbn; lia].
    destruct (World.estimateGas _ _ _);
      injection Hg as <- <-; late He; cbn; lia. }
  assert (∀ e, (8 ≤ stage e)%nat → e ∉ g) as Hlate.
  { intros e He Hin. destruct (Hgas e Hin) as [|[|]]; lia. }
  destruct call as [call|]; cbn; cycle 1.
  { split_and!.
    - intros hash [H|H]; late H.
    - intros hash H; late H.
    - intros c o' hash H; late H. }
  destruct (World.sendTransaction w call o1) as [hash|] eqn:Hsend; cbn.
  - split_and!.
    + intros hash' H. exists call, o1. split; [clear; set_solver|].
      destruct callback; destruct H as [H|H]; late H; done.
    + intros hash' H. destruct callback; [done | late H].
    + intros c o' hash' H Hc.
      destruct callback; late H; rewrite Hsend in Hc; injection Hc as <-;
        clear;
        (split; [set_solver | intros Hcb; first [discriminate Hcb | set_solver]]).
  - split_and!.
    + intros hash [H|H]; late H.
    + intros hash H; late H.
    + intros c o' hash H Hc.
      late H. congruence.
Qed.

Lemma estimation_stages w call o e :
  e ∈ (estimation w call o).1 → (5 ≤ stage e ≤ 7)%nat.
Proof.
  unfold estimation. intros He.
  destruct (truthy_int _); [late He|].
  destruct (World.getFeeData w); [|late He; cbn; lia].
  destruct call as [call|]; [|late He; cbn; lia].
  destruct (World.estimateGas _ _ _); late He; cbn; lia.
Qed.

Lemma estimation_other w call o k :
  k ∉ gasKeys → (estimation w call o).2 !! k = o !! k.
Proof.
  intros Hk. unfold gasKeys in Hk.
  assert (deleteFees o !! k = o !! k) as Hfees.
  { rewrite deleteFees_lookup, bool_decide_eq_false_2; [done | set_solver]. }
  unfold estimation. destruct (truthy_int _); [done|].
  destruct (World.getFeeData w); [|done].
  destruct call as [call|]; [|done].
  destruct (World.estimateGas _ _ _); [|done].
  cbn. rewrite lookup_insert_ne; [done | set_solver].
Qed.

Lemma estimation_estimate w call o c o1 :
  EstimateGas c o1 ∈ (estimation w call o).1 →
  call = Some c
  ∧ truthy_int (o !! "gasLimit") = false
  ∧ (∃ feeData, World.getFeeData w = Ok feeData ∧ o1 = setFees feeData o)
  ∧ (estimation w call o).2
    = match World.estimateGas w c o1 with
      | Ok gasLimit =>
          <["gasLimit" := (gasLimit * 13) `quot` 10]> (deleteFees o1)
      | Throw _ => deleteFees o1
      end.
Proof.
  unfold estimation. intros He.
  destruct (truthy_int _); [late He|].
  destruct (World.getFeeData w) as [feeData|]; [|late He].
  destruct call as [call|]; [|late He].
  destruct (World.estimateGas w call _) eqn:Hgas; late He;
    rewrite Hgas, deleteFees_setFees; split_and!; eauto.
Qed.


(** Where a submission sits in the trace of a run. *)
Lemma purchaseKey_sent w p callback o call o' :
  SendTransaction call o'
  ∈ State.trace (run (purchaseKey w p callback) o).2 →
  ∃ o0 t0 rest,
    prepared w p o (Some call) o0
    ∧ o' = (estimation w (Some call) o0).2
    ∧ Forall (λ e, (stage e ≤ 4)%nat) t0
    ∧ Forall (λ e, (9 ≤ stage e)%nat) rest
    ∧ State.trace (run (purchaseKey w p callback) o).2
      = t0 ++ (estimation w (Some call) o0).1
        ++ SendTransaction call o' :: rest.
Proof.
  destruct (purchaseKey_run w p callback o)
    as [(message & t & -> & Hearly)
       |(call' & o0 & t0 & Hprepared & Hearly & ->)]; cbn.
  { intros H. late H. }
  unfold settlement.
  assert (∀ e, (8 ≤ stage e)%nat → e ∉ (estimation w call' o0).1) as Hlate.
  { intros e He Hin. pose proof (estimation_stages w call' o0 e Hin). lia. }
  destruct (estimation w call' o0) as [g o1] eqn:Hg. cbn in Hlate.
  destruct call' as [call'|]; cbn; [|intros H; late H].
  destruct (World.sendTransaction w call' o1) as [hash|]; cbn; intros H.
  - exists o0, t0,
      ((if callback then [Callback hash] else []) ++ [WaitForTransaction hash]).
    destruct callback; late H; rewrite Hg; cbn;
      split_and!; try done; repeat constructor; cbn; lia.
  - exists o0, t0, []. late H. rewrite Hg. cbn. by split_and!.
Qed.

Lemma purchaseKey_fatal_sample :
  (run (purchaseKey Scenario.refused Sample.swapped false) ∅).1
  = Throw "user rejected the approval".
Proof.
  refine (proj1
    (purchaseKey_fatal Scenario.refused Sample.swapped false ∅
       (ApproveAllowance Scenario.approval) "user rejected the approval"
       _ _));
    [vm_compute; repeat constructor | reflexivity].
Defined.

(** X4. A run returns (a token identifier or [null]) only after one
    transaction was accepted and mined: the trace then ends with the wait
    for the receipt of the submitted transaction, that receipt has a status
    other than 0, and the value returned is what [resolveReceipt] makes of
    it. *)
Theorem purchaseKey_returns w p callback o result :
  (run (purchaseKey w p callback) o).1 = Ok result →
  ∃ call o' hash receipt,
    SendTransaction call o'
    ∈ State.trace (run (purchaseKey w p callback) o).2
    ∧ World.sendTransaction w call o' = Ok hash
    ∧ last (State.trace (run (purchaseKey w p callback) o).2)
      = Some (WaitForTransaction hash)
    ∧ World.waitForTransaction w hash = Ok receipt
    ∧ Receipt.status receipt ≠ Some 0
    ∧ resolveReceipt w (Params.lockAddress p) receipt = Ok result.
Proof.
  destruct (purchaseKey_run w p callback o)
    as [(message & t & -> & Hearly)
       |(call & o0 & t0 & _ & Hearly & ->)]; cbn; [done|].
  unfold settlement. destruct (estimation w call o0) as [g o1].
  destruct call as [call|]; [|done].
  destruct (World.sendTransaction w call o1) as [hash|] eqn:Hsend; [|done].
  cbn.
  destruct (World.waitForTransaction w hash) as [receipt|] eqn:Hwait; [|done].
  intros Hresult. exists call, o1, hash, receipt.
  split; [clear; set_solver|]. split; [done|].
  split; [rewrite !last_app; by destruct callback|].
  split; [done|]. split; [|done].
  intros Hstatus. unfold resolveReceipt in Hresult.
  by rewrite bool_decide_eq_true_2 in Hresult.
Qed.

Lemma purchaseKey_returns_sample :
  ∃ call o' hash receipt,
    SendTransaction call o'
    ∈ State.trace (run (purchaseKey Sample.world Sample.swapped false) ∅).2
    ∧ World.sendTransaction Sample.world call o' = Ok hash
    ∧ last (State.trace
              (run (purchaseKey Sample.world Sample.swapped false) ∅).2)
      = Some (WaitForTransaction hash)
    ∧ World.waitForTransaction Sample.world hash = Ok receipt
    ∧ Receipt.status receipt ≠ Some 0
    ∧ resolveReceipt Sample.world (Params.lockAddress Sample.swapped) receipt
      = Ok (Some "7").
Proof.
  apply (purchaseKey_returns Sample.world Sample.swapped false ∅ (Some "7")).
  by vm_compute.
Defined.

Lemma setFees_gasLimit feeData o :
  setFees feeData o !! "gasLimit" = o !! "gasLimit".
Proof.
  unfold setFees. destruct (_ && _); rewrite !assign_lookup;
    by repeat case_decide.
Qed.

(** X5. What is estimated is what is submitted: the run estimates the gas
    of the very call it then sends. The estimate is made only for a caller
    that passed no gas limit or a gas limit of zero, and with that gas limit
    still in the options. The options of the submission are those of the
    estimate without the three fee properties; their gas limit is the
    bumped estimate when the estimate arrived and, when it failed, what the
    caller passed: none, or the caller's own zero. *)
Theorem purchaseKey_estimated w p callback o call o1 call' o' :
  EstimateGas call o1 ∈ State.trace (run (purchaseKey w p callback) o).2 →
  SendTransaction call' o'
  ∈ State.trace (run (purchaseKey w p callback) o).2 →
  call' = call
  ∧ truthy_int (o !! "gasLimit") = false
  ∧ o1 !! "gasLimit" = o !! "gasLimit"
  ∧ o' = match World.estimateGas w call o1 with
         | Ok gasLimit =>
             <["gasLimit" := (gasLimit * 13) `quot` 10]> (deleteFees o1)
         | Throw _ => deleteFees o1
         end
  ∧ o' !! "gasLimit"
    = match World.estimateGas w call o1 with
      | Ok gasLimit => Some ((gasLimit * 13) `quot` 10)
      | Throw _ => o !! "gasLimit"
      end
  ∧ o' !! "maxFeePerGas" = None
  ∧ o' !! "maxPriorityFeePerGas" = None
  ∧ o' !! "gasPrice" = None
  ∧ ∀ k, k ∉ gasKeys → o' !! k = o1 !! k.
Proof.
  intros Hestimate Hsend.
  destruct (purchaseKey_sent w p callback o call' o' Hsend)
    as (o0 & t0 & rest & Hprepared & -> & Hearly & Hrest & Htrace).
  rewrite Htrace in Hestimate.
  assert (∀ e, (stage e ≤ 8)%nat → e ∉ rest) as Hlate.
  { rewrite Forall_forall in Hrest. intros e He Hin.
    specialize (Hrest e Hin). cbn in Hrest. lia. }
  apply elem_of_app in Hestimate as [Hin|Hin];
    [exfalso; revert Hin; apply early_late; [done | cbn; lia]|].
  apply elem_of_app in Hin as [Hin|Hin]; cycle 1.
  { apply elem_of_cons in Hin as [Hin|Hin]; [done|].
    exfalso. revert Hin. apply Hlate. cbn. lia. }
  destruct (estimation_estimate _ _ _ _ _ Hin)
    as ([= ->] & Hfalsy & (feeData & _ & ->) & ->).
  destruct Hprepared
    as (owner & erc20Address & actualAmount & _ & _ & _ & _ & ->).
  rewrite setValue_lookup in Hfalsy by done.
  assert (setFees feeData
            (setValue erc20Address actualAmount (Params.swap p) o)
          !! "gasLimit" = o !! "gasLimit") as Hlimit.
  { by rewrite setFees_gasLimit, setValue_lookup. }
  assert (∀ k, k ∈ ["maxFeePerGas"; "maxPriorityFeePerGas"; "gasPrice"] →
               k ≠ "gasLimit") as Hfee by set_solver.
  split_and!; try done.
  - destruct (World.estimateGas w call _).
    + by rewrite lookup_insert_eq.
    + by rewrite deleteFees_lookup, bool_decide_eq_false_2 by set_solver.
  - destruct (World.estimateGas w call _);
      rewrite ?lookup_insert_ne by done; by rewrite deleteFees_lookup.
  - destruct (World.estimateGas w call _);
      rewrite ?lookup_insert_ne by done; by rewrite deleteFees_lookup.
  - destruct (World.estimateGas w call _);
      rewrite ?lookup_insert_ne by done; by rewrite deleteFees_lookup.
  - intros k Hk. unfold gasKeys in Hk.
    destruct (World.estimateGas w call _);
      rewrite ?lookup_insert_ne by set_solver;
      rewrite deleteFees_lookup, bool_decide_eq_false_2; set_solver.
Qed.

Lemma purchaseKey_estimated_sample :
  Scenario.zeroSubmitted !! "gasLimit" = Some 0
  ∧ Scenario.zeroSubmitted = deleteFees Scenario.zeroEstimated.
Proof.
  destruct (purchaseKey_estimated Scenario.unestimated Sample.direct false
              {[ "gasLimit" := 0 ]} Sample.directCall Scenario.zeroEstimated
              Sample.directCall Scenario.zeroSubmitted)
    as (_ & _ & _ & Hoptions & Hlimit & _);
    [vm_compute; repeat constructor..|].
  exact (conj Hlimit Hoptions).
Defined.

Lemma purchaseKey_hash_sample :
  WaitForTransaction "0xhash"
  ∈ State.trace (run (purchaseKey Sample.world Sample.swapped true) ∅).2
  ∧ Callback "0xhash"
    ∈ State.trace (run (purchaseKey Sample.world Sample.swapped true) ∅).2.
Proof.
  destruct (proj2 (proj2
    (purchaseKey_hash Sample.world Sample.swapped true ∅))
    Sample.swapCall Scenario.submitted "0xhash") as [Hwait Hcallback];
    [vm_compute; repeat constructor | reflexivity|].
  exact (conj Hwait (Hcallback eq_refl)).
Defined.

(** X6. The call that a run submits is made for the lock of the request,
    with the resolved amount, the caller's owner or else the signer's
    address, the caller's referrer or else the zero address, and the
    caller's data or else the empty payload. Without a swap it is the
    lock's [purchase]; with one it is the swap purchaser's [swapAndCall]
    with the source token (the zero address when the route names none), the
    same amount, the route's maximum input, router and payload, around the
    encoded [purchase] of the same amount, owner, referrer and data. *)
Theorem purchaseKey_call w p callback o call o' :
  SendTransaction call o'
  ∈ State.trace (run (purchaseKey w p callback) o).2 →
  ∃ owner erc20Address actualAmount,
    ownerOf w p = Ok owner
    ∧ tokenOf w p = Ok erc20Address
    ∧ amountOf w (Params.keyPrice p) (Params.decimals p) erc20Address
      = Ok actualAmount
    ∧ match Params.swap p with
      | None =>
          call
          = purchase (Params.lockAddress p) actualAmount owner
              (referrerOf p) (dataOf p)
      | Some swap =>
          ∃ contract,
            World.getUnlockSwapPurchaserContract w = Some contract
            ∧ call
              = swapAndCall contract (Params.lockAddress p)
                  (if truthy_string (Swap.srcTokenAddress swap)
                   then default "" (Swap.srcTokenAddress swap) else ZERO)
                  actualAmount (Swap.amountInMax swap)
                  (Swap.uniswapRouter swap) (Swap.swapCallData swap)
                  (CallData.mk "purchase" actualAmount owner (referrerOf p)
                     (dataOf p))
      end.
Proof.
  intros Hsend.
  destruct (purchaseKey_sent w p callback o call o' Hsend)
    as (o0 & t0 & rest & Hprepared & _).
  destruct Hprepared
    as (owner & erc20Address & actualAmount & Howner & Htoken & Hamount
        & Hcall & _).
  exists owner, erc20Address, actualAmount. split_and!; [done..|].
  unfold buildCall, purchaserOf in Hcall.
  destruct (Params.swap p) as [swap|]; [|by injection Hcall as ->].
  destruct (World.getUnlockSwapPurchaserContract w) as [contract|]; [|done].
  exists contract. by injection Hcall as ->.
Qed.

Lemma purchaseKey_call_sample :
  ∃ owner erc20Address actualAmount,
    ownerOf Sample.world Sample.direct = Ok owner
    ∧ tokenOf Sample.world Sample.direct = Ok erc20Address
    ∧ amountOf Sample.world None None erc20Address = Ok actualAmount
    ∧ Sample.directCall
      = purchase Sample.lock actualAmount owner ZERO "0x".
Proof.
  apply (purchaseKey_call Sample.world Sample.direct false ∅
           Sample.directCall {[ "value" := 5; "gasLimit" := 130009 ]}).
  vm_compute. repeat constructor.
Defined.

Lemma setValue_value erc20Address actualAmount swap (o : TransactionOptions) :
  setValue erc20Address actualAmount swap o !! "value"
  = let base :=
      if negb (truthy_string erc20Address)
         || bool_decide (erc20Address = Some ZERO)
      then Some actualAmount else o !! "value" in
    match swap with
    | Some swap =>
        if truthy_int (Swap.value swap) then Swap.value swap else base
    | None => base
    end.
Proof.
  destruct swap as [swap|]; [apply setValue_swap_value|].
  unfold setValue. destruct (_ || _); [by rewrite lookup_insert_eq | done].
Qed.

(** X7. The native value of the submitted transaction is decided before
    the estimation and not touched by it: it is the swap route's value when
    that is present and not zero; otherwise the resolved amount when the
    payment token is the zero address (or missing); otherwise whatever the
    caller passed as [value], none if the caller passed none. *)
Theorem purchaseKey_value w p callback o call o' :
  SendTransaction call o'
  ∈ State.trace (run (purchaseKey w p callback) o).2 →
  ∃ erc20Address actualAmount,
    tokenOf w p = Ok erc20Address
    ∧ amountOf w (Params.keyPrice p) (Params.decimals p) erc20Address
      = Ok actualAmount
    ∧ o' !! "value"
      = let base :=
          if negb (truthy_string erc20Address)
             || bool_decide (erc20Address = Some ZERO)
          then Some actualAmount else o !! "value" in
        match Params.swap p with
        | Some swap =>
            if truthy_int (Swap.value swap) then Swap.value swap else base
        | None => base
        end.
Proof.
  intros Hsend.
  destruct (purchaseKey_sent w p callback o call o' Hsend)
    as (o0 & t0 & rest & Hprepared & -> & _).
  destruct Hprepared
    as (owner & erc20Address & actualAmount & _ & Htoken & Hamount & _ & ->).
  exists erc20Address, actualAmount. split_and!; [done..|].
  rewrite estimation_other by (unfold gasKeys; set_solver).
  apply setValue_value.
Qed.

Lemma purchaseKey_value_sample :
  ∃ erc20Address actualAmount,
    tokenOf Sample.world Scenario.erc20 = Ok erc20Address
    ∧ amountOf Sample.world (Some "0.01") None erc20Address = Ok actualAmount
    ∧ ({[ "gasLimit" := 130009 ]} : TransactionOptions) !! "value"
      = if negb (truthy_string erc20Address)
           || bool_decide (erc20Address = Some ZERO)
        then Some actualAmount
        else (∅ : TransactionOptions) !! "value".
Proof.
  apply (purchaseKey_value Sample.world Scenario.erc20 false ∅
           (purchase Sample.lock 1000 Sample.buyer ZERO "0x")).
  vm_compute. repeat constructor.
Defined.



(** * The click handlers *)

Lemma isConfirmingAfter_app before t1 t2 :
  isConfirmingAfter before (t1 ++ t2)
  = isConfirmingAfter (isConfirmingAfter before t1) t2.
Proof. apply foldl_app. Qed.

Lemma clicked_elem metadata update confirm e :
  e ∈ clicked metadata update confirm →
  e = UpdateUsersMetadata
  ∨ e ∈ confirm ∧ (metadata = true → ∃ u, update = Resolved u).
Proof.
  unfold clicked. destruct metadata; [|by right].
  destruct update as [u|error]; rewrite elem_of_cons.
  - intros [->|He]; [by left | right; eauto].
  - intros [->|He]; [by left | by apply elem_of_nil in He].
Qed.

(** X9. The cross-chain screen reports a confirmation only for a
    transaction that the signer accepted: [onConfirmed] is called with the
    lock's address, the route's network and the hash that
    [sendTransaction(route.tx)] returned, after the pricing data arrived,
    the metadata (if any) were saved and the wallet service was obtained;
    and the only transaction ever sent is the route's. *)
Theorem crossChain_confirmed h ctx :
  (∀ lockAddress network hash,
     OnConfirmed lockAddress network hash ∈ CrossChain.onClick h ctx →
     lockAddress = CrossChain.lockAddress ctx
     ∧ network = CrossChain.routeNetwork ctx
     ∧ CrossChain.sendTransaction h (CrossChain.routeTx ctx) = Resolved hash)
  ∧ (∀ tx,
       SignerSendTransaction tx ∈ CrossChain.onClick h ctx →
       tx = CrossChain.routeTx ctx
       ∧ CrossChain.hasPricingData ctx = true
       ∧ (CrossChain.hasMetadata ctx = true →
          ∃ u, CrossChain.updateUsersMetadata h = Resolved u)
       ∧ ∃ u, CrossChain.getWalletService h (CrossChain.routeNetwork ctx)
              = Resolved u).
Proof.
  split.
  - intros l n hash [?|[He _]]%clicked_elem; [done|].
    revert He. unfold CrossChain.onConfirm, onError.
    repeat case_match; set_solver.
  - intros tx [?|[He Hmeta]]%clicked_elem; [done|].
    revert He. unfold CrossChain.onConfirm, onError.
    destruct (CrossChain.hasPricingData ctx); [|set_solver]. cbn.
    destruct (CrossChain.getWalletService h _) as [u|error]; [|set_solver].
    intros He. split_and!; [|done..|by exists u].
    repeat case_match; set_solver.
Qed.

Lemma crossChain_confirmed_sample :
  CrossChain.sendTransaction Click.accepting "0xroute"
  = Resolved (Some "0xhash").
Proof.
  refine (proj2 (proj2
    (proj1 (crossChain_confirmed Click.accepting Click.crossChain)
       Sample.lock 10 (Some "0xhash") _))).
  vm_compute. repeat constructor.
Defined.

(** X10. A click on the cross-chain screen ends in one of three ways.
    Without pricing data, or when saving the metadata fails, nothing
    happens: no wallet is asked, no flag is set and no message is shown.
    When the signer accepts the transaction, the confirmation is the last
    thing done, the flag stays set and no error is shown. When the wallet
    service or the signer fails, the flag is reset, the error is logged
    and shown (with the text of [onError] called without a message), and
    no confirmation is reported. *)
Theorem crossChain_settles h ctx before :
  ((CrossChain.hasPricingData ctx = false
    ∨ CrossChain.hasMetadata ctx = true
      ∧ ∃ error, CrossChain.updateUsersMetadata h = Failed error)
   ∧ ∀ e, e ∈ CrossChain.onClick h ctx → e = UpdateUsersMetadata)
  ∨ (∃ hash,
       last (CrossChain.onClick h ctx)
       = Some (OnConfirmed (CrossChain.lockAddress ctx)
                 (CrossChain.routeNetwork ctx) hash)
       ∧ isConfirmingAfter before (CrossChain.onClick h ctx) = true
       ∧ ∀ e, e ∈ CrossChain.onClick h ctx →
           ∀ error message, e ≠ LogError error ∧ e ≠ ToastError message)
  ∨ (∃ error t,
       (CrossChain.getWalletService h (CrossChain.routeNetwork ctx)
        = Failed error
        ∨ CrossChain.sendTransaction h (CrossChain.routeTx ctx)
          = Failed error)
       ∧ CrossChain.onClick h ctx
         = t ++ [ SetIsConfirming false; LogError error;
                  ToastError (toastMessage error None) ]
       ∧ isConfirmingAfter before (CrossChain.onClick h ctx) = false
       ∧ ∀ lockAddress network hash,
           OnConfirmed lockAddress network hash ∉ CrossChain.onClick h ctx).
Proof.
  unfold CrossChain.onClick, clicked, CrossChain.onConfirm, onError.
  destruct (CrossChain.hasPricingData ctx) eqn:Hpricing; cbn; cycle 1.
  { left. split; [by left|]. repeat case_match; set_solver. }
  assert (Hmeta :
    CrossChain.hasMetadata ctx = false
    ∨ (∃ u, CrossChain.hasMetadata ctx = true
            ∧ CrossChain.updateUsersMetadata h = Resolved u)
    ∨ (∃ error, CrossChain.hasMetadata ctx = true
            ∧ CrossChain.updateUsersMetadata h = Failed error)).
  { destruct (CrossChain.hasMetadata ctx); [|by left].
    destruct (CrossChain.updateUsersMetadata h); right; [left|right]; eauto. }
  destruct Hmeta as [Hm|[(u & Hm & Hu)|(error & Hm & Hu)]]; rewrite Hm, ?Hu.
  3: { left. split; [right; eauto|]. set_solver. }
  all: right.
  all: destruct (CrossChain.getWalletService h _) as [?|error] eqn:Hwallet.
  all: try destruct (CrossChain.sendTransaction h _) as [hash|error] eqn:Hsend.
  all: first
    [ left; exists hash; split_and!; [done..|];
      intros e He error message; set_solver
    | right; exists error;
      first
        [ exists [SetIsConfirming true; GetWalletService (CrossChain.routeNetwork ctx)];
          split_and!; [by left|done..|intros; set_solver]
        | exists [UpdateUsersMetadata; SetIsConfirming true; GetWalletService (CrossChain.routeNetwork ctx)];
          split_and!; [by left|done..|intros; set_solver]
        | exists [SetIsConfirming true; GetWalletService (CrossChain.routeNetwork ctx);
                  SignerSendTransaction (CrossChain.routeTx ctx)];
          split_and!; [by right|done..|intros; set_solver]
        | exists [UpdateUsersMetadata; SetIsConfirming true;
                  GetWalletService (CrossChain.routeNetwork ctx);
                  SignerSendTransaction (CrossChain.routeTx ctx)];
          split_and!; [by right|done..|intros; set_solver] ] ].
Qed.

Lemma onConfirmCrypto_purchase h ctx params transactionParams :
  onConfirmCrypto h ctx = PurchaseKeys params transactionParams →
  Context.renew ctx = false
  ∧ PurchaseKeysParams.keyPrices params = keyPrices ctx
  ∧ is_Some (Context.pricingData ctx).
Proof.
  unfold onConfirmCrypto. intros H.
  repeat case_match; simplify_eq; eauto.
Qed.

Lemma onConfirmCrypto_extend h ctx params :
  onConfirmCrypto h ctx = ExtendKey params →
  Context.renew ctx = true
  ∧ ExtendKeyParams.keyPrice params = Context.keyPrice ctx.
Proof.
  unfold onConfirmCrypto. intros H.
  repeat case_match; simplify_eq; eauto.
Qed.

Lemma onErrorCallback_elem lockAddress network calls e :
  e ∈ flat_map (onErrorCallback lockAddress network) calls ↔
  ∃ call, call ∈ calls ∧ e ∈ onErrorCallback lockAddress network call.
Proof.
  rewrite list_elem_of_In, in_flat_map.
  by setoid_rewrite list_elem_of_In.
Qed.

Lemma onErrorCallback_flag lockAddress network calls before :
  isConfirmingAfter before (flat_map (onErrorCallback lockAddress network) calls)
  = match calls with [] => before | _ => false end.
Proof.
  revert before. induction calls as [|[error hash] calls IH]; intros before.
  { done. }
  cbn [flat_map]. rewrite isConfirmingAfter_app, IH.
  destruct calls; [|done].
  unfold onErrorCallback. cbn. by repeat case_match.
Qed.

(** X11. On the swap-and-purchase screen a confirmation comes from the
    wallet's callback alone: [onConfirmed] is called exactly for the calls
    of the callback that carry no error and a non-empty hash, with the
    lock's address and network and that hash; a call that carries an error
    sends [CONFIRM_MINT] with status [ERROR] and its hash instead. A
    renewal, whose [extendKey] is given no callback, never reports
    either. *)
Theorem onClickCrypto_callback metadata update h wallet ctx :
  (∀ lockAddress network hash,
     OnConfirmed lockAddress network hash
     ∈ onClickCrypto metadata update h wallet ctx ↔
     lockAddress = Context.lockAddress ctx
     ∧ network = Context.lockNetwork ctx
     ∧ truthy_string hash = true
     ∧ Context.renew ctx = false
     ∧ (metadata = true → ∃ u, update = Resolved u)
     ∧ ∃ params transactionParams,
         onConfirmCrypto h ctx = PurchaseKeys params transactionParams
         ∧ (None, hash)
           ∈ (Wallet.purchaseKeys wallet params transactionParams).1)
  ∧ (∀ hash,
       SendConfirmMintError hash
       ∈ onClickCrypto metadata update h wallet ctx ↔
       Context.renew ctx = false
       ∧ (metadata = true → ∃ u, update = Resolved u)
       ∧ ∃ params transactionParams error,
           onConfirmCrypto h ctx = PurchaseKeys params transactionParams
           ∧ (Some error, hash)
             ∈ (Wallet.purchaseKeys wallet params transactionParams).1).
Proof.
  assert (Hclick : ∀ e,
    e ≠ UpdateUsersMetadata →
    e ∈ onClickCrypto metadata update h wallet ctx ↔
    e ∈ onConfirmCryptoEffects h wallet ctx
    ∧ (metadata = true → ∃ u, update = Resolved u)).
  { intros e He. split.
    - intros [?|?]%clicked_elem; done.
    - intros [Hin Hmeta]. unfold onClickCrypto, clicked.
      destruct metadata; [|done].
      destruct Hmeta as [u ->]; [done|]. by right. }
  assert (Hcall : ∀ e,
    (∀ error message, e ≠ LogError error ∧ e ≠ ToastError message) →
    e ≠ SetIsConfirming true → e ≠ SetIsConfirming false →
    (∀ params, e ≠ WalletExtendKey params) →
    (∀ params o, e ≠ WalletPurchaseKeys params o) →
    e ∈ onConfirmCryptoEffects h wallet ctx ↔
    ∃ params transactionParams call,
      onConfirmCrypto h ctx = PurchaseKeys params transactionParams
      ∧ call ∈ (Wallet.purchaseKeys wallet params transactionParams).1
      ∧ e ∈ onErrorCallback (Context.lockAddress ctx)
              (Context.lockNetwork ctx) call).
  { intros e Herr Htrue Hfalse Hextend Hpurchase.
    unfold onConfirmCryptoEffects, onError.
    destruct (onConfirmCrypto h ctx) as [|message|params|params o] eqn:Hout.
    - split; [by intros ?%elem_of_nil | by intros (? & ? & ? & ? & _)].
    - split; [|by intros (? & ? & ? & ? & _)].
      rewrite !elem_of_cons, elem_of_nil.
      specialize (Herr (Wallet.thrown wallet message)
                    (toastMessage (Wallet.thrown wallet message) None)).
      naive_solver.
    - split; [|by intros (? & ? & ? & ? & _)].
      specialize (Hextend params).
      destruct (Wallet.extendKey wallet params) as [u|error].
      + rewrite !elem_of_cons, elem_of_nil. naive_solver.
      + specialize (Herr error (toastMessage error None)).
        rewrite !elem_of_cons, elem_of_nil. naive_solver.
    - specialize (Hpurchase params o).
      rewrite !elem_of_cons, elem_of_app, onErrorCallback_elem.
      split.
      + intros [?|[?|[(call & Hin & He)|Hcatch]]]; [done..| |].
        { by exists params, o, call. }
        destruct (Wallet.purchaseKeys wallet params o).2 as [u|error].
        { by apply elem_of_nil in Hcatch. }
        specialize (Herr error (toastMessage error None)).
        revert Hcatch. rewrite !elem_of_cons, elem_of_nil. naive_solver.
      + intros (params' & o' & call & [= <- <-] & Hin & He).
        right; right; left. by exists call. }
  split.
  - intros lockAddress network hash.
    rewrite Hclick, Hcall by done. split.
    + intros [(params & o & [error hash'] & Hout & Hin & He) Hmeta].
      destruct (onConfirmCrypto_purchase _ _ _ _ Hout) as (Hrenew & _).
      revert He. unfold onErrorCallback. cbn.
      destruct error as [error|]; [set_solver|].
      destruct (truthy_string hash') eqn:Hhash; [|set_solver].
      rewrite elem_of_cons, list_elem_of_singleton.
      intros [?|[= -> -> ->]]; [done|].
      split_and!; [done..|]. by exists params, o.
    + intros (-> & -> & Hhash & _ & Hmeta & params & o & Hout & Hin).
      split; [|done]. exists params, o, (None, hash).
      split_and!; [done..|].
      unfold onErrorCallback. cbn. rewrite Hhash. set_solver.
  - intros hash. rewrite Hclick, Hcall by done. split.
    + intros [(params & o & [error hash'] & Hout & Hin & He) Hmeta].
      destruct (onConfirmCrypto_purchase _ _ _ _ Hout) as (Hrenew & _).
      revert He. unfold onErrorCallback. cbn.
      destruct error as [error|]; [|repeat case_match; set_solver].
      rewrite elem_of_cons, list_elem_of_singleton.
      intros [?|[= ->]]; [done|].
      split_and!; [done..|]. by exists params, o, error.
    + intros (_ & Hmeta & params & o & error & Hout & Hin).
      split; [|done]. exists params, o, (Some error, hash).
      split_and!; [done..|].
      unfold onErrorCallback. cbn. set_solver.
Qed.

Lemma onClickCrypto_callback_sample :
  OnConfirmed Sample.lock 1 (Some "0xhash")
  ∈ onClickCrypto true (Resolved tt) Sample.host Click.wallet Sample.context.
Proof.
  apply (proj1 (onClickCrypto_callback true (Resolved tt) Sample.host
                  Click.wallet Sample.context)).
  split_and!; [done..|by exists tt|].
  exists Sample.request, ∅. split; [reflexivity|].
  vm_compute. repeat constructor.
Defined.

(** X12. Once the pricing data arrived, the [isConfirming] flag is still
    set after the handler exactly when the wallet resolved without a word:
    a renewal that [extendKey] accepted, or a purchase that resolved
    without calling the callback. Any call of the callback and any error
    (of [parseUnits], of [getWalletService] or of the wallet) resets
    it. *)
Theorem onConfirmCrypto_flag h wallet ctx before :
  is_Some (Context.pricingData ctx) →
  isConfirmingAfter before (onConfirmCryptoEffects h wallet ctx) = true ↔
  (∃ params u,
     onConfirmCrypto h ctx = ExtendKey params
     ∧ Wallet.extendKey wallet params = Resolved u)
  ∨ (∃ params transactionParams u,
       onConfirmCrypto h ctx = PurchaseKeys params transactionParams
       ∧ Wallet.purchaseKeys wallet params transactionParams
         = ([], Resolved u)).
Proof.
  intros [pricingData Hpricing].
  unfold onConfirmCryptoEffects, onError.
  destruct (onConfirmCrypto h ctx) as [|message|params|params o] eqn:Hout.
  - exfalso. revert Hout. unfold onConfirmCrypto. rewrite Hpricing.
    by repeat case_match.
  - cbn. split; [done | by intros [(? & ? & ? & _)|(? & ? & ? & ? & _)]].
  - destruct (Wallet.extendKey wallet params) as [u|error] eqn:Hextend; cbn.
    + split; [|done]. intros _. left. by exists params, u.
    + split; [done|].
      intros [(? & ? & [= <-] & Hu)|(? & ? & ? & ? & _)]; [|done].
      by rewrite Hextend in Hu.
  - cbn [isConfirmingAfter foldl].
    change (foldl _ ?b ?t) with (isConfirmingAfter b t).
    rewrite isConfirmingAfter_app, onErrorCallback_flag.
    destruct (Wallet.purchaseKeys wallet params o) as [calls final] eqn:Hbuy.
    cbn [fst snd]. split.
    + intros Hflag. right. exists params, o.
      destruct calls as [|call calls]; [|by destruct final].
      destruct final as [u|error]; [by exists u | done].
    + intros [(? & ? & ? & _)|(? & ? & u & [= <- <-] & Hu)]; [done|].
      rewrite Hbuy in Hu. by injection Hu as -> ->.
Qed.

Lemma onConfirmCrypto_flag_sample :
  isConfirmingAfter false
    (onConfirmCryptoEffects Sample.host Click.wallet Click.renewal) = true.
Proof.
  apply (onConfirmCrypto_flag Sample.host Click.wallet Click.renewal false).
  - by eexists.
  - left. eexists _, tt. split; reflexivity.
Defined.

(** X13. The prices of a purchase come from the pricing data alone and a
    renewal's price from the lock alone. The fallback to the lock's
    [keyPrice] in [keyPrices] is never taken: the handler returns before it
    when there are no pricing data, so a purchase is the same whatever the
    lock's price is, and its prices are the amounts of
    [pricingData.prices], one per entry. A renewal passes the lock's
    [keyPrice], whatever the pricing data say. *)
Theorem onConfirmCrypto_prices h ctx :
  (∀ params transactionParams,
     onConfirmCrypto h ctx = PurchaseKeys params transactionParams →
     (∃ pricingData,
        Context.pricingData ctx = Some pricingData
        ∧ PurchaseKeysParams.keyPrices params
          = map PriceItem.amount_toString (PricingData.prices pricingData))
     ∧ ∀ keyPrice,
         onConfirmCrypto h (withKeyPrice keyPrice ctx)
         = PurchaseKeys params transactionParams)
  ∧ (∀ params,
       onConfirmCrypto h ctx = ExtendKey params →
       ExtendKeyParams.keyPrice params = Context.keyPrice ctx).
Proof.
  split.
  - intros params o Hout.
    destruct (onConfirmCrypto_purchase _ _ _ _ Hout)
      as (Hrenew & Hprices & [pricingData Hpricing]).
    split.
    + exists pricingData. split; [done|].
      rewrite Hprices. unfold keyPrices. by rewrite Hpricing.
    + intros keyPrice. rewrite <- Hout.
      unfold onConfirmCrypto, withKeyPrice, keyPrices, referrers,
        recurringPayments. cbn.
      rewrite Hpricing, Hrenew. done.
  - intros params Hout. by apply onConfirmCrypto_extend in Hout as [_ ?].
Qed.

Lemma onConfirmCrypto_prices_sample :
  onConfirmCrypto Sample.host (withKeyPrice "700" Sample.context)
  = PurchaseKeys Sample.request ∅.
Proof.
  apply (proj1 (onConfirmCrypto_prices Sample.host Sample.context)
           Sample.request ∅).
  reflexivity.
Defined.

(** * The lock's [purchase] *)

Lemma bind_done {A B} (m : Lock.Tx A) (k : A → Lock.Tx B) b log :
  m ≫= k = Lock.Done b log ↔
  ∃ a log1 log2,
    m = Lock.Done a log1 ∧ k a = Lock.Done b log2 ∧ log = log1 ++ log2.
Proof.
  unfold mbind, Lock.tx_bind. split.
  - destruct m as [a log1|]; [|done].
    destruct (k a) as [b' log2|] eqn:Hk; [|done].
    intros [= -> <-]. by exists a, log1, log2.
  - intros (a & log1 & log2 & -> & -> & ->). done.
Qed.

Lemma require_done condition reason u log :
  Lock.require condition reason = Lock.Done u log ↔
  condition = true ∧ log = [].
Proof.
  unfold Lock.require. destruct condition, u; split;
    [by intros [= <-] | by intros [_ ->] | done | by intros [? _]].
Qed.

Lemma view_done {A} (answer : Lock.Answer A) a log :
  Lock.view answer = Lock.Done a log ↔ answer = Lock.Returns a ∧ log = [].
Proof.
  destruct answer; cbn; split;
    [by intros [= -> <-] | by intros [[= ->] ->] | done | by intros [? _]].
Qed.

Lemma call_done {A} (answer : Lock.Answer A) action a log :
  Lock.call answer action = Lock.Done a log ↔
  answer = Lock.Returns a ∧ log = [action].
Proof.
  destruct answer; cbn; split;
    [by intros [= -> <-] | by intros [[= ->] ->] | done | by intros [? _]].
Qed.

(** The parts of a [purchase] that is done. *)
Lemma purchase_done env _value _recipient _referrer _keyManager _data log :
  Lock.purchase env _value _recipient _referrer _keyManager _data
  = Lock.Done tt log →
  ∃ assigned price recorded pricePaid paid hooked refunded,
    _recipient ≠ ZERO
    ∧ Lock.assign env _recipient _keyManager = Lock.Done tt assigned
    ∧ Lock._purchasePriceFor env _recipient _referrer _data
      = Lock.Done price []
    ∧ Lock.pay env _value = Lock.Done pricePaid paid
    ∧ price ≤ pricePaid
    ∧ Lock.refund env pricePaid = Lock.Done tt refunded
    ∧ length recorded = 1%nat
    ∧ (∀ action, action ∈ recorded →
         action = Lock.RecordKeyPurchase price _referrer
         ∨ action = Lock.UnlockCallFailed (Lock.Env.this env)
                      (Lock.Env.unlockProtocol env))
    ∧ (∀ action, action ∈ hooked →
         action = Lock.OnKeyPurchase (Lock.Env.msg_sender env) _recipient
                    _referrer _data price pricePaid)
    ∧ log = assigned ++ recorded ++ paid ++ hooked ++ refunded.
Proof.
  unfold Lock.purchase. intros H.
  apply bind_done in H as ([] & ? & ? & [_ ->]%view_done & H & ->).
  apply bind_done in H as ([] & ? & ? & [_ ->]%view_done & H & ->).
  apply bind_done in H as ([] & ? & ? & [Hzero ->]%require_done & H & ->).
  apply bind_done in H as ([] & assigned & ? & Hassign & H & ->).
  apply bind_done in H as (price & priced & ? & Hprice & H & ->).
  apply bind_done in H as ([] & recorded & ? & Hrecord & H & ->).
  apply bind_done in H as (pricePaid & paid & ? & Hpay & H & ->).
  apply bind_done in H as ([] & ? & ? & [Hcovered ->]%require_done & H & ->).
  apply bind_done in H as ([] & hooked & refunded & Hhook & Hrefund & ->).
  assert (priced = []) as ->.
  { revert Hprice. unfold Lock._purchasePriceFor.
    case_match; [by intros [_ ->]%view_done | by intros [= _ <-]]. }
  exists assigned, price, recorded, pricePaid, paid, hooked, refunded.
  unfold Lock.emit in Hrecord.
  split_and!; try done.
  - by apply negb_true_iff, bool_decide_eq_false in Hzero.
  - lia.
  - by destruct (Lock.Env.recordKeyPurchase env price _referrer);
      simplify_eq.
  - destruct (Lock.Env.recordKeyPurchase env price _referrer);
      simplify_eq; intros action ?%list_elem_of_singleton;
      [by left | by right].
  - revert Hhook.
    destruct (negb (bool_decide (Lock.Env.onKeyPurchaseHook env = ZERO))).
    + intros [_ ->]%call_done action ?%list_elem_of_singleton. done.
    + intros [= <-] action ?%elem_of_nil. done.
Qed.

Lemma pay_done env _value pricePaid paid :
  Lock.pay env _value = Lock.Done pricePaid paid →
  Lock.Env.tokenAddress env = ZERO
  ∧ pricePaid = Lock.Env.msg_value env ∧ paid = []
  ∨ Lock.Env.tokenAddress env ≠ ZERO
    ∧ pricePaid = _value
    ∧ paid = [Lock.TransferFrom (Lock.Env.tokenAddress env)
                (Lock.Env.msg_sender env) (Lock.Env.this env) _value].
Proof.
  unfold Lock.pay. case_bool_decide as Htoken; cbn.
  - intros [= <- <-]. by left.
  - intros (? & ? & ? & [_ ->]%call_done & [= <- <-] & ->)%bind_done.
    by right.
Qed.

Lemma add_done a b c log :
  Lock.add a b = Lock.Done c log ↔
  a + b ≤ Lock.MAX_UINT ∧ c = a + b ∧ log = [].
Proof.
  unfold Lock.add. destruct (Z.leb_spec (a + b) Lock.MAX_UINT); split.
  - by intros [= <- <-].
  - by intros (_ & -> & ->).
  - done.
  - lia.
Qed.

Lemma newExpiration_done env timestamp log :
  Lock.newExpiration env = Lock.Done timestamp log →
  log = []
  ∧ (Lock.Env.expirationDuration env = Lock.MAX_UINT
     ∧ timestamp = Lock.MAX_UINT
     ∨ Lock.Env.expirationDuration env ≠ Lock.MAX_UINT
       ∧ timestamp
         = Lock.Env.block_timestamp env + Lock.Env.expirationDuration env
       ∧ timestamp ≤ Lock.MAX_UINT).
Proof.
  unfold Lock.newExpiration. case_bool_decide as Hduration.
  - intros [= <- <-]. split; [done|by left].
  - intros (Hle & -> & ->)%add_done. split; [done|by right].
Qed.

Lemma assign_done env _recipient _keyManager assigned :
  Lock.assign env _recipient _keyManager = Lock.Done tt assigned →
  ∃ timestamp,
    (∃ idTo,
       Lock.tokenId (Lock.Env.keyByOwner env _recipient) = 0
       ∧ Lock.Env.assignNewTokenId env _recipient = Lock.Returns idTo
       ∧ Lock.newExpiration env = Lock.Done timestamp []
       ∧ assigned
         = [ Lock.AssignNewTokenId _recipient idTo;
             Lock.RecordOwner _recipient idTo;
             Lock.SetExpirationTimestamp _recipient timestamp;
             Lock.SetKeyManagerOf idTo _keyManager;
             Lock.Transfer ZERO _recipient idTo ])
    ∨ (Lock.hasValidKey env _recipient
       ∧ Lock.expirationTimestamp (Lock.Env.keyByOwner env _recipient)
         ≠ Lock.MAX_UINT
       ∧ timestamp
         = Lock.expirationTimestamp (Lock.Env.keyByOwner env _recipient)
           + Lock.Env.expirationDuration env
       ∧ timestamp ≤ Lock.MAX_UINT
       ∧ assigned
         = [ Lock.SetExpirationTimestamp _recipient timestamp;
             Lock.RenewKeyPurchase _recipient timestamp ])
    ∨ (Lock.tokenId (Lock.Env.keyByOwner env _recipient) ≠ 0
       ∧ Lock.expirationTimestamp (Lock.Env.keyByOwner env _recipient)
         ≤ Lock.Env.block_timestamp env
       ∧ Lock.newExpiration env = Lock.Done timestamp []
       ∧ assigned
         = [ Lock.SetExpirationTimestamp _recipient timestamp;
             Lock.SetKeyManagerOf
               (Lock.tokenId (Lock.Env.keyByOwner env _recipient))
               _keyManager;
             Lock.RenewKeyPurchase _recipient timestamp ]).
Proof.
  unfold Lock.assign, Lock.emit. cbn zeta.
  case_bool_decide as Hid; [|case_bool_decide as Hvalid].
  - intros (idTo & ? & ? & Hnew & H & ->)%bind_done.
    destruct (Lock.Env.assignNewTokenId env _recipient) as [idTo'|] eqn:Hassign;
      [|done].
    injection Hnew as -> <-.
    apply bind_done in H as ([] & ? & ? & [_ ->]%call_done & H & ->).
    apply bind_done in H as (timestamp & ? & ? & Hexp & H & ->).
    destruct (newExpiration_done _ _ _ Hexp) as [-> _].
    apply bind_done in H as ([] & ? & ? & [= <-] & H & ->).
    apply bind_done in H as ([] & ? & ? & [_ ->]%call_done & [= <-] & ->).
    exists timestamp. left. by exists idTo.
  - intros ([] & ? & ? & [Hmax ->]%require_done & H & ->)%bind_done.
    apply negb_true_iff, bool_decide_eq_false in Hmax.
    apply bind_done in H as (timestamp & ? & ? & (Hle & -> & ->)%add_done & H & ->).
    apply bind_done in H as ([] & ? & ? & [= <-] & [= <-] & ->).
    eexists. right; left. by split_and!.
  - intros (timestamp & ? & ? & Hexp & H & ->)%bind_done.
    destruct (newExpiration_done _ _ _ Hexp) as [-> _].
    apply bind_done in H as ([] & ? & ? & [= <-] & H & ->).
    apply bind_done in H as ([] & ? & ? & [_ ->]%call_done & [= <-] & ->).
    exists timestamp. right; right. split_and!; [done|lia|done..].
Qed.

Lemma refund_done env pricePaid refunded :
  Lock.refund env pricePaid = Lock.Done tt refunded →
  Lock.Env.gasRefundBasisPoints env = 0 ∧ refunded = []
  ∨ Lock.Env.gasRefundBasisPoints env ≠ 0
    ∧ Lock.Env.BASIS_POINTS_DEN env ≠ 0
    ∧ Lock.Env.gasRefundBasisPoints env * pricePaid ≤ Lock.MAX_UINT
    ∧ refunded
      = [ if bool_decide (Lock.Env.tokenAddress env = ZERO)
          then Lock.SendValue (Lock.Env.msg_sender env)
                 (Lock.Env.gasRefundBasisPoints env * pricePaid
                  / Lock.Env.BASIS_POINTS_DEN env)
          else Lock.TransferFrom (Lock.Env.tokenAddress env)
                 (Lock.Env.this env) (Lock.Env.msg_sender env)
                 (Lock.Env.gasRefundBasisPoints env * pricePaid
                  / Lock.Env.BASIS_POINTS_DEN env);
          Lock.GasRefunded (Lock.Env.msg_sender env)
            (Lock.Env.gasRefundBasisPoints env * pricePaid
             / Lock.Env.BASIS_POINTS_DEN env)
            (Lock.Env.tokenAddress env) ].
Proof.
  unfold Lock.refund, Lock.emit.
  destruct (Z.eqb_spec (Lock.Env.gasRefundBasisPoints env) 0) as [Hbp|Hbp]; cbn.
  { intros [= <-]. by left. }
  intros (product & ? & ? & Hmul & H & ->)%bind_done. right.
  unfold Lock.mul in Hmul.
  destruct (Z.leb_spec (Lock.Env.gasRefundBasisPoints env * pricePaid)
              Lock.MAX_UINT) as [Hle|]; [|done].
  injection Hmul as <- <-.
  apply bind_done in H as (toRefund & ? & ? & Hdiv & H & ->).
  unfold Lock.div in Hdiv.
  destruct (Z.eqb_spec (Lock.Env.BASIS_POINTS_DEN env) 0) as [|Hden]; [done|].
  injection Hdiv as <- <-.
  apply bind_done in H as ([] & ? & ? & H & [= <-] & ->).
  split_and!; [done..|].
  case_bool_decide as Htoken; cbn in H.
  - apply bind_done in H as ([] & ? & ? & [_ ->]%require_done & [= <-] & ->).
    done.
  - apply bind_done in H as (? & ? & ? & [_ ->]%call_done & [= <-] & ->).
    done.
Qed.

Lemma assigned_actions env _recipient _keyManager assigned action :
  Lock.assign env _recipient _keyManager = Lock.Done tt assigned →
  action ∈ assigned →
  match action with
  | Lock.AssignNewTokenId _ _ | Lock.RecordOwner _ _
  | Lock.Transfer _ _ _ =>
      Lock.tokenId (Lock.Env.keyByOwner env _recipient) = 0
  | Lock.SetKeyManagerOf _ _ => ¬ Lock.hasValidKey env _recipient
  | Lock.RenewKeyPurchase _ _ =>
      Lock.tokenId (Lock.Env.keyByOwner env _recipient) ≠ 0
  | Lock.SetExpirationTimestamp _ _ => True
  | _ => False
  end.
Proof.
  intros (timestamp & [(idTo & Hid & _ & _ & ->)
                      |[([Hid Hvalid] & _ & _ & _ & ->)
                       |(Hid & Hexpired & _ & ->)]])%assign_done.
  all: rewrite !elem_of_cons, elem_of_nil.
  all: intros H; destruct_or!; try done; subst action; try done.
  all: unfold Lock.hasValidKey; intros [? ?]; try done; lia.
Qed.

(** The log of a [purchase] that is done, part by part. *)
Lemma purchase_log env _value _recipient _referrer _keyManager _data log :
  Lock.purchase env _value _recipient _referrer _keyManager _data
  = Lock.Done tt log →
  ∃ assigned price pricePaid paid refunded,
    _recipient ≠ ZERO
    ∧ price ≤ pricePaid
    ∧ Lock.assign env _recipient _keyManager = Lock.Done tt assigned
    ∧ Lock._purchasePriceFor env _recipient _referrer _data
      = Lock.Done price []
    ∧ Lock.pay env _value = Lock.Done pricePaid paid
    ∧ Lock.refund env pricePaid = Lock.Done tt refunded
    ∧ (∀ reason,
         Lock.Env.recordKeyPurchase env price _referrer
         ≠ Lock.Uncaught reason)
    ∧ log
      = assigned
        ++ [ match Lock.Env.recordKeyPurchase env price _referrer with
             | Lock.Accepted => Lock.RecordKeyPurchase price _referrer
             | _ => Lock.UnlockCallFailed (Lock.Env.this env)
                      (Lock.Env.unlockProtocol env)
             end ]
        ++ paid
        ++ (if bool_decide (Lock.Env.onKeyPurchaseHook env = ZERO) then []
            else [ Lock.OnKeyPurchase (Lock.Env.msg_sender env) _recipient
                     _referrer _data price pricePaid ])
        ++ refunded.
Proof.
  unfold Lock.purchase. intros H.
  apply bind_done in H as ([] & ? & ? & [_ ->]%view_done & H & ->).
  apply bind_done in H as ([] & ? & ? & [_ ->]%view_done & H & ->).
  apply bind_done in H as ([] & ? & ? & [Hzero ->]%require_done & H & ->).
  apply bind_done in H as ([] & assigned & ? & Hassign & H & ->).
  apply bind_done in H as (price & priced & ? & Hprice & H & ->).
  apply bind_done in H as ([] & recorded & ? & Hrecord & H & ->).
  apply bind_done in H as (pricePaid & paid & ? & Hpay & H & ->).
  apply bind_done in H as ([] & ? & ? & [Hcovered ->]%require_done & H & ->).
  apply bind_done in H as ([] & hooked & refunded & Hhook & Hrefund & ->).
  assert (priced = []) as ->.
  { revert Hprice. unfold Lock._purchasePriceFor.
    case_match; [by intros [_ ->]%view_done | by intros [= _ <-]]. }
  exists assigned, price, pricePaid, paid, refunded.
  unfold Lock.emit in Hrecord.
  split_and!; try done.
  - by apply negb_true_iff, bool_decide_eq_false in Hzero.
  - lia.
  - intros reason Hreason. by rewrite Hreason in Hrecord.
  - assert (recorded
            = [ match Lock.Env.recordKeyPurchase env price _referrer with
                | Lock.Accepted => Lock.RecordKeyPurchase price _referrer
                | _ => Lock.UnlockCallFailed (Lock.Env.this env)
                         (Lock.Env.unlockProtocol env)
                end ]) as ->.
    { by destruct (Lock.Env.recordKeyPurchase env price _referrer);
        simplify_eq. }
    assert (hooked
            = if bool_decide (Lock.Env.onKeyPurchaseHook env = ZERO) then []
              else [ Lock.OnKeyPurchase (Lock.Env.msg_sender env) _recipient
                       _referrer _data price pricePaid ]) as ->.
    { revert Hhook.
      destruct (bool_decide (Lock.Env.onKeyPurchaseHook env = ZERO)); cbn;
        [by intros [= <-] | by intros [_ ->]%call_done]. }
    done.
Qed.

(** X14. A purchase goes through only when the amount offered covers the
    price, and one price is used throughout. The recipient is not the zero
    address. The price is what the hook's [keyPurchasePrice] answers for
    the sender, the recipient, the referrer and the data when there is a
    hook, and the lock's [keyPrice] otherwise. The amount offered is
    [_value] for a lock priced in a token, and the value sent otherwise.
    The price, and no other value, is recorded with the Unlock contract
    when that call is accepted ([UnlockCallFailed] is emitted when it
    reverts); the hook, when there is one, is told that price and the
    amount offered. With a token, [transferFrom] is called to move exactly
    [_value] from the sender to the lock, and the only other transfer is
    the refund; with the native currency no transfer of tokens is asked
    for. Whether the tokens were received is not looked at. *)
Theorem purchase_offer env _value _recipient _referrer _keyManager _data log :
  Lock.purchase env _value _recipient _referrer _keyManager _data
  = Lock.Done tt log →
  let offered :=
    if bool_decide (Lock.Env.tokenAddress env = ZERO)
    then Lock.Env.msg_value env else _value in
  _recipient ≠ ZERO
  ∧ ∃ price,
      (if bool_decide (Lock.Env.onKeyPurchaseHook env = ZERO)
       then price = Lock.Env.keyPrice env
       else Lock.Env.keyPurchasePrice env (Lock.Env.msg_sender env)
              _recipient _referrer _data
            = Lock.Returns price)
      ∧ price ≤ offered
      ∧ (∀ value referrer,
           Lock.RecordKeyPurchase value referrer ∈ log ↔
           value = price ∧ referrer = _referrer
           ∧ Lock.Env.recordKeyPurchase env price _referrer = Lock.Accepted)
      ∧ (∀ lockAddress unlockAddress,
           Lock.UnlockCallFailed lockAddress unlockAddress ∈ log ↔
           lockAddress = Lock.Env.this env
           ∧ unlockAddress = Lock.Env.unlockProtocol env
           ∧ Lock.Env.recordKeyPurchase env price _referrer = Lock.Caught)
      ∧ (∀ from recipient referrer data minKeyPrice pricePaid,
           Lock.OnKeyPurchase from recipient referrer data minKeyPrice
             pricePaid ∈ log ↔
           Lock.Env.onKeyPurchaseHook env ≠ ZERO
           ∧ from = Lock.Env.msg_sender env
           ∧ recipient = _recipient
           ∧ referrer = _referrer
           ∧ data = _data
           ∧ minKeyPrice = price
           ∧ pricePaid = offered)
      ∧ (∀ token sender recipient amount,
           Lock.TransferFrom token sender recipient amount ∈ log ↔
           Lock.Env.tokenAddress env ≠ ZERO
           ∧ token = Lock.Env.tokenAddress env
           ∧ (sender = Lock.Env.msg_sender env
              ∧ recipient = Lock.Env.this env
              ∧ amount = _value
              ∨ Lock.Env.gasRefundBasisPoints env ≠ 0
                ∧ sender = Lock.Env.this env
                ∧ recipient = Lock.Env.msg_sender env
                ∧ amount
                  = Lock.Env.gasRefundBasisPoints env * _value
                    / Lock.Env.BASIS_POINTS_DEN env)).
Proof.
  intros Hdone offered.
  destruct (purchase_log _ _ _ _ _ _ _ Hdone)
    as (assigned & price & pricePaid & paid & refunded & Hzero & Hcovered
        & Hassign & Hprice & Hpay & Hrefund & Hmade & ->).
  assert (Hoffered : pricePaid = offered
    ∧ paid
      = if bool_decide (Lock.Env.tokenAddress env = ZERO) then []
        else [Lock.TransferFrom (Lock.Env.tokenAddress env)
                (Lock.Env.msg_sender env) (Lock.Env.this env) _value]).
  { unfold offered.
    destruct (pay_done _ _ _ _ Hpay) as [(Htoken & -> & ->)|(Htoken & -> & ->)];
      [by rewrite bool_decide_true | by rewrite bool_decide_false]. }
  destruct Hoffered as [-> ->].
  assert (Hassigned : ∀ action,
    action ∈ assigned →
    match action with
    | Lock.RecordKeyPurchase _ _ | Lock.UnlockCallFailed _ _
    | Lock.OnKeyPurchase _ _ _ _ _ _ | Lock.TransferFrom _ _ _ _ => False
    | _ => True
    end).
  { intros action Hin.
    pose proof (assigned_actions _ _ _ _ _ Hassign Hin). by destruct action. }
  assert (Hrefunded :
    refunded
    = if bool_decide (Lock.Env.gasRefundBasisPoints env = 0) then []
      else [ if bool_decide (Lock.Env.tokenAddress env = ZERO)
             then Lock.SendValue (Lock.Env.msg_sender env)
                    (Lock.Env.gasRefundBasisPoints env * offered
                     / Lock.Env.BASIS_POINTS_DEN env)
             else Lock.TransferFrom (Lock.Env.tokenAddress env)
                    (Lock.Env.this env) (Lock.Env.msg_sender env)
                    (Lock.Env.gasRefundBasisPoints env * offered
                     / Lock.Env.BASIS_POINTS_DEN env);
             Lock.GasRefunded (Lock.Env.msg_sender env)
               (Lock.Env.gasRefundBasisPoints env * offered
                / Lock.Env.BASIS_POINTS_DEN env)
               (Lock.Env.tokenAddress env) ]).
  { destruct (refund_done _ _ _ Hrefund) as [[Hbp ->]|(Hbp & _ & _ & ->)];
      [by rewrite (bool_decide_true _ Hbp)
      |by rewrite (bool_decide_false _ Hbp)]. }
  clear Hrefund Hpay. subst refunded.
  assert (Hprice' :
    if bool_decide (Lock.Env.onKeyPurchaseHook env = ZERO)
    then price = Lock.Env.keyPrice env
    else Lock.Env.keyPurchasePrice env (Lock.Env.msg_sender env)
           _recipient _referrer _data
         = Lock.Returns price).
  { revert Hprice. unfold Lock._purchasePriceFor.
    destruct (bool_decide (Lock.Env.onKeyPurchaseHook env = ZERO)); cbn;
      [by intros [= <-] | by intros [? _]%view_done]. }
  set (recorded :=
    match Lock.Env.recordKeyPurchase env price _referrer with
    | Lock.Accepted => Lock.RecordKeyPurchase price _referrer
    | _ => Lock.UnlockCallFailed (Lock.Env.this env)
             (Lock.Env.unlockProtocol env)
    end).
  set (hooked :=
    if bool_decide (Lock.Env.onKeyPurchaseHook env = ZERO) then []
    else [ Lock.OnKeyPurchase (Lock.Env.msg_sender env) _recipient _referrer
             _data price offered ]).
  set (paid :=
    if bool_decide (Lock.Env.tokenAddress env = ZERO) then []
    else [ Lock.TransferFrom (Lock.Env.tokenAddress env)
             (Lock.Env.msg_sender env) (Lock.Env.this env) _value ]).
  set (returned := if bool_decide (Lock.Env.gasRefundBasisPoints env = 0)
                   then [] else _).
  assert (Hin : ∀ action,
    action ∈ assigned ++ [recorded] ++ paid ++ hooked ++ returned ↔
    match action with
    | Lock.RecordKeyPurchase _ _ | Lock.UnlockCallFailed _ _ =>
        action = recorded
    | Lock.OnKeyPurchase _ _ _ _ _ _ => action ∈ hooked
    | Lock.TransferFrom _ _ _ _ => action ∈ paid ∨ action ∈ returned
    | _ => action ∈ assigned ++ [recorded] ++ paid ++ hooked ++ returned
    end).
  { assert (∀ token sender recipient amount,
      Lock.TransferFrom token sender recipient amount ≠ recorded) as Hnot1.
    { intros ????. unfold recorded.
      by destruct (Lock.Env.recordKeyPurchase env price _referrer). }
    assert (∀ from recipient referrer data minKeyPrice pricePaid,
      Lock.OnKeyPurchase from recipient referrer data minKeyPrice pricePaid
      ≠ recorded) as Hnot2.
    { intros ??????. unfold recorded.
      by destruct (Lock.Env.recordKeyPurchase env price _referrer). }
    intros action. destruct action; try done.
    all: rewrite !elem_of_app, list_elem_of_singleton.
    all: split; [|tauto].
    all: intros [Hin|[Hin|[Hin|[Hin|Hin]]]]; try tauto.
    all: try (by apply Hassigned in Hin).
    all: try (by edestruct Hnot1).
    all: try (by edestruct Hnot2).
    all: exfalso; revert Hin; unfold paid, hooked, returned;
      repeat case_bool_decide; set_solver. }
  split; [done|]. exists price. split_and!; [done..| | | |].
  - intros value referrer. rewrite Hin. unfold recorded.
    destruct (Lock.Env.recordKeyPurchase env price _referrer);
      naive_solver.
  - intros lockAddress unlockAddress. rewrite Hin. unfold recorded.
    destruct (Lock.Env.recordKeyPurchase env price _referrer) as [| |reason];
      [naive_solver | naive_solver | by destruct (Hmade reason)].
  - intros from recipient referrer data minKeyPrice pricePaid.
    rewrite Hin. unfold hooked. case_bool_decide.
    + rewrite elem_of_nil. naive_solver.
    + rewrite list_elem_of_singleton. naive_solver.
  - intros token sender recipient amount. rewrite Hin.
    unfold paid, returned, offered.
    repeat case_bool_decide;
      rewrite ?elem_of_cons, ?elem_of_nil; naive_solver.
Qed.

Lemma purchase_offer_sample :
  Lock.TransferFrom Sample.token Sample.buyer Sample.lock 50
  ∈ [ Lock.AssignNewTokenId Sample.purchaser 4;
      Lock.RecordOwner Sample.purchaser 4;
      Lock.SetExpirationTimestamp Sample.purchaser 87400;
      Lock.SetKeyManagerOf 4 ZERO;
      Lock.Transfer ZERO Sample.purchaser 4;
      Lock.UnlockCallFailed Sample.lock Sample.router;
      Lock.TransferFrom Sample.token Sample.buyer Sample.lock 50;
      Lock.TransferFrom Sample.token Sample.lock Sample.buyer 5;
      Lock.GasRefunded Sample.buyer 5 Sample.token ].
Proof.
  destruct (purchase_offer Lock.priced 50 Sample.purchaser ZERO ZERO "0x" _
              eq_refl)
    as (_ & price & _ & _ & _ & _ & _ & Htransfer).
  apply Htransfer. split_and!; [done..|by left].
Defined.

(** X15. With the native currency, [_value] is ignored: whatever the
    caller passes there, the purchase does the same. *)
Theorem purchase_value_ignored env _value _value' _recipient _referrer
    _keyManager _data :
  Lock.Env.tokenAddress env = ZERO →
  Lock.purchase env _value _recipient _referrer _keyManager _data
  = Lock.purchase env _value' _recipient _referrer _keyManager _data.
Proof.
  intros Htoken. unfold Lock.purchase, Lock.pay.
  by rewrite (bool_decide_true _ Htoken).
Qed.

Lemma purchase_value_ignored_sample :
  Lock.purchase Lock.sample 0 Sample.buyer ZERO ZERO "0x"
  = Lock.purchase Lock.sample 1000000 Sample.buyer ZERO ZERO "0x".
Proof.
  apply (purchase_value_ignored Lock.sample 0 1000000). reflexivity.
Defined.

(** X16. When the recipient holds a key that has not expired,
    [_keyManager] is ignored: the purchase does the same whatever is passed
    there, and when it goes through, no key manager was set. *)
Theorem purchase_keyManager_ignored env _value _recipient _referrer
    _keyManager _data :
  Lock.hasValidKey env _recipient →
  (∀ _keyManager',
     Lock.purchase env _value _recipient _referrer _keyManager _data
     = Lock.purchase env _value _recipient _referrer _keyManager' _data)
  ∧ ∀ log tokenId keyManager,
      Lock.purchase env _value _recipient _referrer _keyManager _data
      = Lock.Done tt log →
      Lock.SetKeyManagerOf tokenId keyManager ∉ log.
Proof.
  intros Hvalid. split.
  - intros _keyManager'. destruct Hvalid as [Hid Hnow].
    unfold Lock.purchase, Lock.assign. cbn zeta.
    by rewrite (bool_decide_false _ Hid), (bool_decide_true _ Hnow).
  - intros log tokenId keyManager
      (assigned & price & recorded & pricePaid & paid & hooked & refunded
       & _ & Hassign & _ & Hpay & _ & Hrefund & _
       & Hrecorded & Hhooked & ->)%purchase_done.
    rewrite !elem_of_app. intros [Hin|[Hin|[Hin|[Hin|Hin]]]].
    + by apply (assigned_actions _ _ _ _ _ Hassign) in Hin.
    + by destruct (Hrecorded _ Hin).
    + destruct (pay_done _ _ _ _ Hpay) as [(_ & _ & ->)|(_ & _ & ->)];
        set_solver.
    + by specialize (Hhooked _ Hin).
    + destruct (refund_done _ _ _ Hrefund) as [[_ ->]|(_ & _ & _ & ->)];
        [by apply elem_of_nil in Hin|].
      case_bool_decide; set_solver.
Qed.

Lemma purchase_keyManager_ignored_sample :
  Lock.purchase Lock.member 0 Sample.buyer ZERO ZERO "0x"
  = Lock.purchase Lock.member 0 Sample.buyer ZERO Sample.router "0x".
Proof.
  apply (purchase_keyManager_ignored Lock.member 0 Sample.buyer ZERO ZERO "0x").
  split; [done | reflexivity].
Defined.

(** X17. A key that never expires cannot be bought again while it is
    valid, and in a lock whose keys never expire no valid key can be
    extended: the purchase always reverts. When the two modifiers pass and
    the recipient is not the zero address, the reason is the [require] for
    a key that never expires, and an arithmetic overflow for a key that
    does (its expiration plus the largest integer). *)
Theorem purchase_nonexpiring env _value _recipient _referrer _keyManager
    _data :
  Lock.inRange env _recipient →
  Lock.hasValidKey env _recipient →
  Lock.expirationTimestamp (Lock.Env.keyByOwner env _recipient)
  = Lock.MAX_UINT
  ∨ Lock.Env.expirationDuration env = Lock.MAX_UINT →
  ∃ reason,
    Lock.purchase env _value _recipient _referrer _keyManager _data
    = Lock.Revert reason
    ∧ (Lock.Env.onlyIfAlive env = Lock.Returns tt →
       Lock.Env.notSoldOut env = Lock.Returns tt →
       _recipient ≠ ZERO →
       reason
       = if bool_decide
              (Lock.expirationTimestamp (Lock.Env.keyByOwner env _recipient)
               = Lock.MAX_UINT)
         then "A valid non-expiring key can not be purchased twice"
         else "Panic(0x11)").
Proof.
  intros (Hnow & Hduration & Hexp & _) [Hid Hvalid] Hforever.
  assert (Hassign : Lock.assign env _recipient _keyManager
    = Lock.Revert
        (if bool_decide
              (Lock.expirationTimestamp (Lock.Env.keyByOwner env _recipient)
               = Lock.MAX_UINT)
         then "A valid non-expiring key can not be purchased twice"
         else "Panic(0x11)")).
  { unfold Lock.assign. cbn zeta.
    rewrite (bool_decide_false _ Hid), (bool_decide_true _ Hvalid).
    case_bool_decide as Hmax; [done|]. cbn.
    destruct Hforever as [?|Hforever]; [done|].
    unfold Lock.add. rewrite Hforever.
    destruct (Z.leb_spec
      (Lock.expirationTimestamp (Lock.Env.keyByOwner env _recipient)
       + Lock.MAX_UINT) Lock.MAX_UINT); [lia|done]. }
  revert Hassign. generalize (if bool_decide
              (Lock.expirationTimestamp (Lock.Env.keyByOwner env _recipient)
               = Lock.MAX_UINT)
         then "A valid non-expiring key can not be purchased twice"
         else "Panic(0x11)").
  intros reason Hassign. unfold Lock.purchase. rewrite Hassign.
  destruct (Lock.Env.onlyIfAlive env) as [[]|alive]; [|by exists alive].
  destruct (Lock.Env.notSoldOut env) as [[]|soldOut]; [|by exists soldOut].
  destruct (decide (_recipient = ZERO)) as [Hzero|Hzero].
  - rewrite (bool_decide_true _ Hzero). exists "INVALID_ADDRESS".
    split; [done|]. by intros _ _ ?.
  - rewrite (bool_decide_false _ Hzero). by exists reason.
Qed.

Lemma purchase_nonexpiring_sample :
  ∃ reason,
    Lock.purchase Lock.forever 0 Sample.buyer ZERO ZERO "0x"
    = Lock.Revert reason.
Proof.
  destruct (purchase_nonexpiring Lock.forever 0 Sample.buyer ZERO ZERO "0x")
    as (reason & Hrevert & _).
  - vm_compute. repeat split; congruence.
  - split; [done | reflexivity].
  - by right.
  - by exists reason.
Defined.

(** X18. A purchase that goes through writes the expiration of the
    recipient and of nobody else, and the event tells it as written. The
    new expiration is in
    range and never earlier than a key bought now would last: it is the
    old expiration plus the duration for a key that has not expired (no
    time already paid for is lost), and now plus the duration otherwise
    (the largest integer when keys never expire). A recipient without a
    key gets the identifier that [_assignNewTokenId] gives, announced by
    [Transfer] from the zero address; a recipient with a key, valid or
    not, gets [RenewKeyPurchase] and no new identifier. *)
Theorem purchase_expiration env _value _recipient _referrer _keyManager
    _data log :
  Lock.inRange env _recipient →
  Lock.purchase env _value _recipient _referrer _keyManager _data
  = Lock.Done tt log →
  ∃ timestamp,
    (∀ owner timestamp',
       Lock.SetExpirationTimestamp owner timestamp' ∈ log ↔
       owner = _recipient ∧ timestamp' = timestamp)
    ∧ timestamp ≤ Lock.MAX_UINT
    ∧ (timestamp = Lock.MAX_UINT
       ∨ Lock.Env.block_timestamp env + Lock.Env.expirationDuration env
         ≤ timestamp)
    ∧ (Lock.hasValidKey env _recipient →
       timestamp
       = Lock.expirationTimestamp (Lock.Env.keyByOwner env _recipient)
         + Lock.Env.expirationDuration env)
    ∧ (∀ from to tokenId,
         Lock.Transfer from to tokenId ∈ log ↔
         Lock.tokenId (Lock.Env.keyByOwner env _recipient) = 0
         ∧ from = ZERO ∧ to = _recipient
         ∧ Lock.Env.assignNewTokenId env _recipient = Lock.Returns tokenId)
    ∧ (∀ owner newExpiration,
         Lock.RenewKeyPurchase owner newExpiration ∈ log ↔
         Lock.tokenId (Lock.Env.keyByOwner env _recipient) ≠ 0
         ∧ owner = _recipient ∧ newExpiration = timestamp).
Proof.
  intros (Hnow & Hduration & Hexp & _)
    (assigned & price & recorded & pricePaid & paid & hooked & refunded
     & _ & Hassign & _ & Hpay & _ & Hrefund & _
     & Hrecorded & Hhooked & ->)%purchase_done.
  assert (Hrest : ∀ action,
    match action with
    | Lock.SetExpirationTimestamp _ _ | Lock.Transfer _ _ _
    | Lock.RenewKeyPurchase _ _ =>
        action ∈ assigned ++ recorded ++ paid ++ hooked ++ refunded ↔
        action ∈ assigned
    | _ => True
    end).
  { intros action. destruct action; try done.
    all: rewrite !elem_of_app; split; [|by left].
    all: intros [Hin|[Hin|[Hin|[Hin|Hin]]]]; [done|exfalso..].
    all: try by destruct (Hrecorded _ Hin).
    all: try by specialize (Hhooked _ Hin).
    all: try (destruct (pay_done _ _ _ _ Hpay) as [(_ & _ & ->)|(_ & _ & ->)];
              set_solver).
    all: destruct (refund_done _ _ _ Hrefund) as [[_ ->]|(_ & _ & _ & ->)];
      [by apply elem_of_nil in Hin|case_bool_decide; set_solver]. }
  pose proof (λ owner t, Hrest (Lock.SetExpirationTimestamp owner t)) as Hset.
  pose proof (λ from to id, Hrest (Lock.Transfer from to id)) as Htransfer.
  pose proof (λ owner t, Hrest (Lock.RenewKeyPurchase owner t)) as Hrenew.
  cbn in Hset, Htransfer, Hrenew. clear Hrest.
  destruct (assign_done _ _ _ _ Hassign)
    as (timestamp & [(idTo & Hid & Hnew & Hfresh & ->)
                    |[([Hid Hvalid] & Hmax & -> & Hle & ->)
                     |(Hid & Hexpired & Hfresh & ->)]]).
  - exists timestamp.
    destruct (newExpiration_done _ _ _ Hfresh) as [_ Htime].
    split_and!.
    + intros owner t. rewrite Hset. set_solver.
    + unfold Lock.MAX_UINT in *. lia.
    + lia.
    + intros [? _]. done.
    + intros from to id. rewrite Htransfer, Hnew.
      rewrite !elem_of_cons, elem_of_nil. naive_solver.
    + intros owner t. rewrite Hrenew.
      rewrite !elem_of_cons, elem_of_nil. naive_solver.
  - exists (Lock.expirationTimestamp (Lock.Env.keyByOwner env _recipient)
            + Lock.Env.expirationDuration env).
    split_and!.
    + intros owner t. rewrite Hset. set_solver.
    + done.
    + right. lia.
    + done.
    + intros from to id. rewrite Htransfer.
      rewrite !elem_of_cons, elem_of_nil. naive_solver.
    + intros owner t. rewrite Hrenew.
      rewrite !elem_of_cons, elem_of_nil. naive_solver.
  - exists timestamp.
    destruct (newExpiration_done _ _ _ Hfresh) as [_ Htime].
    split_and!.
    + intros owner t. rewrite Hset. set_solver.
    + unfold Lock.MAX_UINT in *. lia.
    + lia.
    + intros [_ ?]. lia.
    + intros from to id. rewrite Htransfer.
      rewrite !elem_of_cons, elem_of_nil. naive_solver.
    + intros owner t. rewrite Hrenew.
      rewrite !elem_of_cons, elem_of_nil. naive_solver.
Qed.

Lemma purchase_expiration_sample :
  ∃ timestamp,
    timestamp = 2000 + Lock.day
    ∧ Lock.SetExpirationTimestamp Sample.buyer timestamp
      ∈ [ Lock.SetExpirationTimestamp Sample.buyer 88400;
          Lock.RenewKeyPurchase Sample.buyer 88400;
          Lock.UnlockCallFailed Sample.lock Sample.router;
          Lock.SendValue Sample.buyer 7;
          Lock.GasRefunded Sample.buyer 7 ZERO ].
Proof.
  assert (Hrange : Lock.inRange Lock.member Sample.buyer).
  { vm_compute. repeat split; congruence. }
  destruct (purchase_expiration Lock.member 0 Sample.buyer ZERO ZERO "0x" _
              Hrange eq_refl)
    as (timestamp & Hset & _ & _ & Hvalid & _).
  exists timestamp. split.
  - apply Hvalid. split; [done | reflexivity].
  - by apply Hset.
Defined.

Lemma bind_ext {A B} (m : Lock.Tx A) (k k' : A → Lock.Tx B) :
  (∀ a, k a = k' a) → m ≫= k = m ≫= k'.
Proof.
  intros Hk. destruct m as [a log|]; [|done].
  unfold mbind, Lock.tx_bind. by rewrite Hk.
Qed.

Lemma call_ignored {A B} (answer : Lock.Answer A) (a : A) action
    (k : Lock.Tx B) :
  (Lock.call
     (match answer with
      | Lock.Returns _ => Lock.Returns a
      | Lock.Reverts reason => Lock.Reverts reason
      end) action ;; k)
  = (Lock.call answer action ;; k).
Proof. by destruct answer. Qed.

Lemma pay_silent env _value :
  Lock.pay (Lock.withSilentToken env) _value = Lock.pay env _value.
Proof. unfold Lock.pay. cbn. by rewrite call_ignored. Qed.

Lemma refund_silent env pricePaid :
  Lock.refund (Lock.withSilentToken env) pricePaid = Lock.refund env pricePaid.
Proof.
  unfold Lock.refund. cbn.
  destruct (negb _); [|done].
  do 2 (apply bind_ext; intros ?).
  by rewrite call_ignored.
Qed.

(** X19. The boolean that the token's [transferFrom] returns is never
    looked at: with a token that returns [false] instead of reverting, the
    purchase does exactly what it does when the transfer succeeds, key and
    events included. *)
Theorem purchase_silent_token env _value _recipient _referrer _keyManager
    _data :
  Lock.purchase (Lock.withSilentToken env) _value _recipient _referrer
    _keyManager _data
  = Lock.purchase env _value _recipient _referrer _keyManager _data.
Proof.
  unfold Lock.purchase. rewrite pay_silent.
  change (Lock.assign (Lock.withSilentToken env))
    with (Lock.assign env).
  change (Lock._purchasePriceFor (Lock.withSilentToken env))
    with (Lock._purchasePriceFor env).
  cbn [Lock.withSilentToken Lock.Env.onlyIfAlive Lock.Env.notSoldOut
       Lock.Env.recordKeyPurchase Lock.Env.this Lock.Env.unlockProtocol
       Lock.Env.msg_sender Lock.Env.onKeyPurchaseHook
       Lock.Env.onKeyPurchase].
  do 9 (apply bind_ext; intros ?).
  apply refund_silent.
Qed.

Lemma purchase_silent_token_sample :
  Lock.purchase (Lock.withSilentToken Lock.priced) 50 Sample.purchaser ZERO
    ZERO "0x"
  = Lock.Done tt
      [ Lock.AssignNewTokenId Sample.purchaser 4;
        Lock.RecordOwner Sample.purchaser 4;
        Lock.SetExpirationTimestamp Sample.purchaser 87400;
        Lock.SetKeyManagerOf 4 ZERO;
        Lock.Transfer ZERO Sample.purchaser 4;
        Lock.UnlockCallFailed Sample.lock Sample.router;
        Lock.TransferFrom Sample.token Sample.buyer Sample.lock 50;
        Lock.TransferFrom Sample.token Sample.lock Sample.buyer 5;
        Lock.GasRefunded Sample.buyer 5 Sample.token ].
Proof.
  rewrite (purchase_silent_token Lock.priced). reflexivity.
Defined.

(** X20. The gas refund of a purchase that goes through. Without basis
    points nothing is refunded and no [GasRefunded] is emitted. With basis
    points, the sender, and nobody else, is refunded
    [_gasRefundBasisPoints * pricePaid / BASIS_POINTS_DEN] rounded down, in
    the currency of the lock (a call with value for the native currency, a
    [transferFrom] out of the lock for a token), and [GasRefunded] tells
    that amount. The refund does not exceed the amount paid as long as the
    basis points do not exceed the denominator. *)
Theorem purchase_refund env _value _recipient _referrer _keyManager _data
    log :
  Lock.inRange env _recipient →
  0 ≤ _value →
  Lock.purchase env _value _recipient _referrer _keyManager _data
  = Lock.Done tt log →
  let pricePaid :=
    if bool_decide (Lock.Env.tokenAddress env = ZERO)
    then Lock.Env.msg_value env else _value in
  let toRefund :=
    Lock.Env.gasRefundBasisPoints env * pricePaid
    / Lock.Env.BASIS_POINTS_DEN env in
  (∀ receiver amount token,
     Lock.GasRefunded receiver amount token ∈ log ↔
     Lock.Env.gasRefundBasisPoints env ≠ 0
     ∧ receiver = Lock.Env.msg_sender env
     ∧ amount = toRefund
     ∧ token = Lock.Env.tokenAddress env)
  ∧ (∀ to value,
       Lock.SendValue to value ∈ log ↔
       Lock.Env.gasRefundBasisPoints env ≠ 0
       ∧ Lock.Env.tokenAddress env = ZERO
       ∧ to = Lock.Env.msg_sender env
       ∧ value = toRefund)
  ∧ (∀ token recipient amount,
       Lock.TransferFrom token (Lock.Env.this env) recipient amount ∈ log →
       Lock.Env.this env ≠ Lock.Env.msg_sender env →
       Lock.Env.gasRefundBasisPoints env ≠ 0
       ∧ token = Lock.Env.tokenAddress env
       ∧ recipient = Lock.Env.msg_sender env
       ∧ amount = toRefund)
  ∧ (Lock.Env.gasRefundBasisPoints env ≠ 0 →
     Lock.Env.tokenAddress env ≠ ZERO →
     Lock.TransferFrom (Lock.Env.tokenAddress env) (Lock.Env.this env)
       (Lock.Env.msg_sender env) toRefund ∈ log)
  ∧ 0 ≤ toRefund
  ∧ (Lock.Env.gasRefundBasisPoints env ≤ Lock.Env.BASIS_POINTS_DEN env →
     toRefund ≤ pricePaid).
Proof.
  intros (_ & _ & _ & _ & Hvalue & Hbp & Hden) Hpositive
    (assigned & price & recorded & pricePaid' & paid & hooked & refunded
     & _ & Hassign & _ & Hpay & _ & Hrefund & _
     & Hrecorded & Hhooked & ->)%purchase_done.
  intros pricePaid toRefund.
  assert (pricePaid' = pricePaid) as ->.
  { unfold pricePaid.
    destruct (pay_done _ _ _ _ Hpay) as [(Htoken & -> & _)|(Htoken & -> & _)];
      [by rewrite bool_decide_true | by rewrite bool_decide_false]. }
  assert (Hpaid : 0 ≤ pricePaid).
  { unfold pricePaid. case_bool_decide; lia. }
  assert (Hrest : ∀ action,
    match action with
    | Lock.GasRefunded _ _ _ | Lock.SendValue _ _ =>
        action ∈ assigned ++ recorded ++ paid ++ hooked ++ refunded ↔
        action ∈ refunded
    | Lock.TransferFrom _ _ _ _ =>
        action ∈ assigned ++ recorded ++ paid ++ hooked ++ refunded ↔
        action ∈ paid ∨ action ∈ refunded
    | _ => True
    end).
  { intros action. destruct action; try done.
    all: rewrite !elem_of_app; split; [|tauto].
    all: intros [Hin|[Hin|[Hin|[Hin|Hin]]]]; try tauto; exfalso.
    all: try by apply (assigned_actions _ _ _ _ _ Hassign) in Hin.
    all: try by destruct (Hrecorded _ Hin).
    all: try by specialize (Hhooked _ Hin).
    all: destruct (pay_done _ _ _ _ Hpay) as [(_ & _ & ->)|(_ & _ & ->)];
      set_solver. }
  pose proof (λ a b c, Hrest (Lock.GasRefunded a b c)) as Hgas.
  pose proof (λ a b, Hrest (Lock.SendValue a b)) as Hsend.
  pose proof (λ a b c d, Hrest (Lock.TransferFrom a b c d)) as Hfrom.
  cbn in Hgas, Hsend, Hfrom. clear Hrest.
  split_and!.
  - intros receiver amount token. rewrite Hgas.
    destruct (refund_done _ _ _ Hrefund) as [[Hzero ->]|(Hsome & _ & _ & ->)].
    + rewrite elem_of_nil. naive_solver.
    + rewrite !elem_of_cons, elem_of_nil. fold toRefund.
      case_bool_decide; naive_solver.
  - intros to value. rewrite Hsend.
    destruct (refund_done _ _ _ Hrefund) as [[Hzero ->]|(Hsome & _ & _ & ->)].
    + rewrite elem_of_nil. naive_solver.
    + rewrite !elem_of_cons, elem_of_nil. fold toRefund.
      case_bool_decide; naive_solver.
  - intros token recipient amount. rewrite Hfrom. intros Hin Hself.
    destruct Hin as [Hin|Hin].
    + destruct (pay_done _ _ _ _ Hpay) as [(_ & _ & ->)|(_ & _ & ->)];
        [by apply elem_of_nil in Hin|].
      apply list_elem_of_singleton in Hin. by injection Hin as <- Hsame _ _.
    + destruct (refund_done _ _ _ Hrefund)
        as [[Hzero ->]|(Hsome & _ & _ & ->)];
        [by apply elem_of_nil in Hin|].
      revert Hin. rewrite !elem_of_cons, elem_of_nil. fold toRefund.
      case_bool_decide; naive_solver.
  - intros Hsome Htoken. rewrite Hfrom. right.
    destruct (refund_done _ _ _ Hrefund) as [[Hzero _]|(_ & _ & _ & ->)];
      [done|].
    rewrite bool_decide_false by done. fold toRefund. set_solver.
  - unfold toRefund.
    destruct (decide (Lock.Env.BASIS_POINTS_DEN env = 0)) as [Hzero|Hsome].
    + by rewrite Hzero, Z.div_0_r.
    + apply Z.div_pos; nia.
  - intros Hcap. unfold toRefund.
    destruct (decide (Lock.Env.BASIS_POINTS_DEN env = 0)) as [Hzero|Hsome].
    + rewrite Hzero, Z.div_0_r. done.
    + apply Z.div_le_upper_bound; nia.
Qed.

Lemma purchase_refund_sample :
  Lock.GasRefunded Sample.buyer 7 ZERO
  ∈ [ Lock.SetExpirationTimestamp Sample.buyer 87400;
      Lock.SetKeyManagerOf 3 ZERO;
      Lock.RenewKeyPurchase Sample.buyer 87400;
      Lock.UnlockCallFailed Sample.lock Sample.router;
      Lock.SendValue Sample.buyer 7;
      Lock.GasRefunded Sample.buyer 7 ZERO ].
Proof.
  assert (Hrange : Lock.inRange Lock.sample Sample.buyer).
  { vm_compute. repeat split; congruence. }
  destruct (purchase_refund Lock.sample 0 Sample.buyer ZERO ZERO "0x" _
              Hrange ltac:(done) eq_refl) as (Hgas & _).
  apply Hgas. by split_and!.
Defined.

(** * The user routes *)

(** Runs a handler through, answer by answer. *)
Ltac serve :=
  unfold Controller.respond, Controller.await, Controller.now,
    Controller.throw, Controller.property, Controller.tryCatch,
    mbind, mret, Controller.served_bind, Controller.served_ret;
  repeat (cbn [Controller.reply Controller.operations app fst snd];
          case_match);
  cbn [Controller.reply Controller.operations app fst snd] in *;
  simplify_eq.

(** The handler answered 401, or an error went through, and nothing was
    called. *)
Ltac refused :=
  cbn; intros [Hops|[H401 Herror]];
  [done | first [done | by edestruct Herror]].

(** X21. The card details of an address are read and deleted for its
    signee alone. Whenever [getAddressPaymentDetails] or
    [deleteAddressPaymentDetails] calls an operation, or answers anything
    but 401, the address and the signee of the request were both there and
    the same once normalized; and every operation called is about the
    address of the request (or the Stripe customer found for it). *)
Theorem address_payment_signed b req :
  (∀ handler,
     handler ∈ [ Controller.getAddressPaymentDetails;
                 Controller.deleteAddressPaymentDetails ] →
     (Controller.respond (handler b req)).2 ≠ []
     ∨ (Controller.respond (handler b req)).1 ≠ Controller.SendStatus 401
       ∧ (∀ error, (Controller.respond (handler b req)).1
                   ≠ Controller.Unhandled error) →
     Controller.signed b req)
  ∧ (∀ operation,
       operation
       ∈ (Controller.respond (Controller.getAddressPaymentDetails b req)).2 →
       operation
       = Controller.GetStripeCustomerIdForAddress
           (Controller.Request.ethereumAddress req)
       ∨ ∃ customerId,
           Controller.Backend.getStripeCustomerIdForAddress b
             (Controller.Request.ethereumAddress req)
           = Controller.Resolves customerId
           ∧ operation = Controller.GetCardDetailsFromStripe customerId)
  ∧ (∀ operation,
       operation
       ∈ (Controller.respond (Controller.deleteAddressPaymentDetails b req)).2 →
       operation
       = Controller.DeletePaymentDetailsForAddress
           (Controller.Request.ethereumAddress req)).
Proof.
  split_and!.
  - intros handler Hin.
    assert (handler = Controller.getAddressPaymentDetails
            ∨ handler = Controller.deleteAddressPaymentDetails)
      as [-> | ->] by set_solver.
    all: unfold Controller.signed.
    all: unfold Controller.getAddressPaymentDetails,
           Controller.deleteAddressPaymentDetails.
    all: cbn zeta.
    all: destruct (truthy_string (Controller.Request.ethereumAddress req));
      [|refused].
    all: destruct (truthy_string (Controller.Request.signee req));
      [|refused].
    all: destruct (Controller.Backend.normalize b
                     (Controller.Request.ethereumAddress req)) as [address|];
      [|refused].
    all: destruct (Controller.Backend.normalize b
                     (Controller.Request.signee req)) as [signee|];
      [|refused].
    all: unfold Controller.respond, Controller.now, mbind,
           Controller.served_bind.
    all: cbn [Controller.reply Controller.operations orb negb].
    all: destruct (String.eqb_spec address signee) as [<-|];
      [|refused].
    all: intros _; split_and!; [done..|by exists address].
  - unfold Controller.getAddressPaymentDetails. cbn zeta.
    intros operation. serve; set_solver.
  - unfold Controller.deleteAddressPaymentDetails. cbn zeta.
    intros operation. serve; set_solver.
Qed.

Lemma address_payment_signed_sample :
  Controller.signed Controller.backend Controller.holder.
Proof.
  apply (proj1 (address_payment_signed Controller.backend Controller.holder)
           Controller.getAddressPaymentDetails).
  - set_solver.
  - left. vm_compute. discriminate.
Defined.

(** X22. A card is saved for an address at the request of its owner alone,
    and the two are compared as they are written: whenever
    [updateAddressPaymentDetails] calls an operation or answers anything
    but 401, the address of the request is there and is, letter for letter,
    the owner of the request. The only operation it calls saves the token
    of the request's [Save Card] message for that address. *)
Theorem updateAddressPaymentDetails_owner b req :
  ((Controller.respond (Controller.updateAddressPaymentDetails b req)).2 ≠ []
   ∨ (Controller.respond (Controller.updateAddressPaymentDetails b req)).1
     ≠ Controller.SendStatus 401 →
   ∃ address,
     Controller.Request.ethereumAddress req = Some address
     ∧ Controller.Request.owner req = Some address)
  ∧ ∀ operation,
      operation
      ∈ (Controller.respond (Controller.updateAddressPaymentDetails b req)).2 →
      ∃ token,
        Controller.Request.saveCard req = Some token
        ∧ operation
          = Controller.UpdatePaymentDetails token
              (Controller.Request.ethereumAddress req).
Proof.
  unfold Controller.updateAddressPaymentDetails. cbn zeta.
  destruct (Controller.Request.ethereumAddress req) as [address|] eqn:Haddress;
    cycle 1.
  { rewrite bool_decide_true by done. cbn. split; [naive_solver|set_solver]. }
  rewrite bool_decide_false by done.
  case_bool_decide as Howner; cbn [negb]; cycle 1.
  { cbn. split; [naive_solver|set_solver]. }
  split; [by exists address|].
  intros operation. serve; set_solver.
Qed.

Lemma updateAddressPaymentDetails_owner_sample :
  ∃ address,
    Controller.Request.ethereumAddress Controller.holder = Some address
    ∧ Controller.Request.owner Controller.holder = Some address.
Proof.
  apply (proj1 (updateAddressPaymentDetails_owner Controller.backend
                  Controller.holder)).
  left. vm_compute. discriminate.
Defined.

(** X23. An account is ejected at the request of its owner alone, and once
    only. [eject] calls the ejection only for the address of the request,
    when the address and the owner of the request are the same once
    normalized and the account was not ejected before; it answers 202 only
    when that call changed a row. A request from somebody else is answered
    401 whether the account was ejected or not, and nothing but the
    ejection status was read. *)
Theorem eject_owner b req :
  (∀ address,
     Controller.Eject address
     ∈ (Controller.respond (Controller.eject b req)).2 →
     address = Controller.Request.ethereumAddress req
     ∧ Controller.owned b req
     ∧ Controller.Backend.ejectionStatusByAddress b address
       = Controller.Resolves false)
  ∧ ((Controller.respond (Controller.eject b req)).1
     = Controller.SendStatus 202 →
     Controller.Eject (Controller.Request.ethereumAddress req)
     ∈ (Controller.respond (Controller.eject b req)).2
     ∧ ∃ rows,
         Controller.Backend.eject b (Controller.Request.ethereumAddress req)
         = Controller.Resolves (Some rows)
         ∧ 0 < rows)
  ∧ (∀ address owner ejected,
       Controller.Backend.normalize b (Controller.Request.ethereumAddress req)
       = Controller.Resolves address →
       Controller.Backend.normalize b (Controller.Request.owner req)
       = Controller.Resolves owner →
       address ≠ owner →
       Controller.Backend.ejectionStatusByAddress b
         (Controller.Request.ethereumAddress req)
       = Controller.Resolves ejected →
       Controller.respond (Controller.eject b req)
       = (Controller.SendStatus 401,
          [Controller.EjectionStatusByAddress
             (Controller.Request.ethereumAddress req)])).
Proof.
  unfold Controller.eject, Controller.owned. cbn zeta.
  split_and!.
  - intros address.
    destruct (Controller.Backend.ejectionStatusByAddress b _)
      as [ejected|] eqn:Hejected; [|serve; set_solver].
    destruct (Controller.Backend.normalize b
                (Controller.Request.ethereumAddress req))
      as [normalized|] eqn:Hnormalized; [|serve; set_solver].
    destruct (Controller.Backend.normalize b (Controller.Request.owner req))
      as [owner|] eqn:Howner; [|serve; set_solver].
    unfold Controller.respond, Controller.now, Controller.await, mbind,
      Controller.served_bind.
    cbn [Controller.reply Controller.operations].
    destruct (String.eqb_spec normalized owner) as [<-|]; [|serve; set_solver].
    destruct ejected; [serve; set_solver|].
    cbn [negb]. intros Hin.
    assert (address = Controller.Request.ethereumAddress req) as ->.
    { revert Hin. serve; set_solver. }
    split_and!; [done| |done]. by exists normalized.
  - destruct (Controller.Backend.ejectionStatusByAddress b _)
      as [ejected|] eqn:Hejected; [|serve; done].
    destruct (Controller.Backend.normalize b
                (Controller.Request.ethereumAddress req))
      as [normalized|] eqn:Hnormalized; [|serve; done].
    destruct (Controller.Backend.normalize b (Controller.Request.owner req))
      as [owner|] eqn:Howner; [|serve; done].
    unfold Controller.respond, Controller.now, Controller.await, mbind,
      Controller.served_bind.
    cbn [Controller.reply Controller.operations].
    destruct (String.eqb_spec normalized owner) as [<-|]; [|serve; done].
    destruct ejected; [serve; done|].
    cbn [negb].
    destruct (Controller.Backend.eject b _) as [[rows|]|] eqn:Heject;
      cbn [Controller.reply Controller.operations app fst snd default mret
           Controller.served_ret].
    + case_bool_decide as Hrows; cbn; [|done].
      intros _. split; [set_solver|]. by exists rows.
    + by case_bool_decide.
    + done.
  - intros address owner ejected -> -> Hdiffer ->.
    unfold Controller.respond, Controller.now, Controller.await, mbind,
      Controller.served_bind.
    cbn [Controller.reply Controller.operations].
    by destruct (String.eqb_spec address owner).
Qed.

Lemma eject_owner_sample :
  Controller.respond (Controller.eject Controller.backend Controller.stranger)
  = (Controller.SendStatus 401,
     [Controller.EjectionStatusByAddress (Some Sample.buyer)]).
Proof.
  apply (proj2 (proj2 (eject_owner Controller.backend Controller.stranger))
           Sample.buyer Sample.token false); done.
Defined.

(** Looks at every operation of a handler that was run through. *)
Ltac operations :=
  let operation := fresh "operation" in
  let Hin := fresh "Hin" in
  let Hejected := fresh "Hejected" in
  intros operation Hin Hejected;
  repeat (apply elem_of_cons in Hin as [->|Hin]);
  try apply elem_of_nil in Hin;
  cbn in Hejected; try done; try congruence.

(** Looks at an operation that is not the first one. *)
Ltac accounted :=
  let Hfirst := fresh "Hfirst" in
  let Hin := fresh "Hin" in
  let Hother := fresh "Hother" in
  intros Hfirst Hin Hother; simplify_eq;
  repeat (apply elem_of_cons in Hin as [->|Hin]);
  try apply elem_of_nil in Hin;
  try done; (split; [done | cbn; set_solver]).

(** X24. An ejected account is locked out of the routes that read or
    change the account they are asked about
    ([retrieveEncryptedPrivatekey], [retrieveRecoveryPhrase], [updateUser]
    and [updatePasswordEncryptedPrivateKey]). The first operation that any
    of them calls asks for the ejection status of an account. When that
    account is ejected, it is also the last: the answer is 404 and nothing
    is read, written or logged. Any other operation is called only after
    the account was found not to be ejected, and is about that same
    account, named in the same way (by its email address, or by its
    address). *)
Theorem ejected_locked_out b req handler :
  handler ∈ Controller.guarded →
  (∀ first,
     head (Controller.respond (handler b req)).2 = Some first →
     (∃ emailAddress, first = Controller.EjectionStatus emailAddress)
     ∨ ∃ address, first = Controller.EjectionStatusByAddress address)
  ∧ (∀ operation,
       operation ∈ (Controller.respond (handler b req)).2 →
       Controller.ejected b operation →
       Controller.respond (handler b req)
       = (Controller.SendStatus 404, [operation]))
  ∧ ∀ first operation,
      head (Controller.respond (handler b req)).2 = Some first →
      operation ∈ (Controller.respond (handler b req)).2 →
      operation ≠ first →
      Controller.cleared b first
      ∧ ∀ account,
          account ∈ Controller.accounts operation →
          account ∈ Controller.accounts first.
Proof.
  unfold Controller.guarded. rewrite !elem_of_cons, elem_of_nil.
  intros H. destruct_or!; try done; simplify_eq.
  - unfold Controller.retrieveEncryptedPrivatekey. cbn zeta.
    split_and!;
      [intros first; serve; cbn; naive_solver | serve; operations
      |intros first operation; serve; cbn; accounted].
  - unfold Controller.retrieveRecoveryPhrase. cbn zeta.
    split_and!;
      [intros first; serve; cbn; naive_solver | serve; operations
      |intros first operation; serve; cbn; accounted].
  - unfold Controller.updateUser. cbn zeta.
    split_and!;
      [intros first; serve; cbn; naive_solver | serve; operations
      |intros first operation; serve; cbn; accounted].
  - unfold Controller.updatePasswordEncryptedPrivateKey. cbn zeta.
    split_and!;
      [intros first; serve; cbn; naive_solver | serve; operations
      |intros first operation; serve; cbn; accounted].
Qed.

Lemma ejected_locked_out_sample :
  Controller.respond (Controller.updateUser Controller.backend Controller.gone)
  = (Controller.SendStatus 404,
     [Controller.EjectionStatus (Some "gone@unlock")]).
Proof.
  apply (proj1 (proj2 (ejected_locked_out Controller.backend Controller.gone
                         Controller.updateUser ltac:(set_solver)))).
  - vm_compute. repeat constructor.
  - reflexivity.
Defined.

(** X25. As long as the account is not ejected, the two routes that hand
    out secrets answer in the same way whether the account exists or not:
    never 404, always a key, always a recovery phrase. For an account that
    is known, the key is its own and nothing else is done. For an account
    that is not known, the key is the decoy kept for that email address if
    there is one, and nothing else is done; otherwise a decoy is made, kept
    for 900 seconds under the email address, and sent. The recovery phrase
    of an unknown account is a random one. *)
Theorem retrieve_decoy b req :
  Controller.Backend.ejectionStatus b (Controller.Request.emailAddress req)
  = Controller.Resolves false →
  (∀ result made,
     Controller.Backend.getUserPrivateKeyByEmailAddress b
       (Controller.Request.emailAddress req)
     = Controller.Resolves result →
     Controller.Backend.decoy b = Controller.Resolves made →
     let kept :=
       Controller.Backend.retrieveItemValue b
         (Controller.Request.emailAddress req) in
     Controller.respond (Controller.retrieveEncryptedPrivatekey b req)
     = (Controller.Json 200
          (Controller.PasswordEncryptedPrivateKey
             (if truthy_string result then default "" result
              else if truthy_string kept then default "" kept
              else made)),
        [ Controller.EjectionStatus (Controller.Request.emailAddress req);
          Controller.GetUserPrivateKeyByEmailAddress
            (Controller.Request.emailAddress req) ]
        ++ (if truthy_string result || truthy_string kept then []
            else [ Controller.CreateDecoy;
                   Controller.StoreExpiringItem
                     (Controller.Request.emailAddress req) made 900 ])))
  ∧ ∀ result,
      Controller.Backend.getUserRecoveryPhraseByEmailAddress b
        (Controller.Request.emailAddress req)
      = Controller.Resolves result →
      Controller.respond (Controller.retrieveRecoveryPhrase b req)
      = (Controller.Json 200
           (Controller.RecoveryPhrase
              (if truthy_string result then result
               else Some (Controller.Backend.fakeRecoveryPhrase b))),
         [ Controller.EjectionStatus (Controller.Request.emailAddress req);
           Controller.GetUserRecoveryPhraseByEmailAddress
             (Controller.Request.emailAddress req) ]).
Proof.
  intros Hejected. split.
  - intros result made Hresult Hmade kept.
    unfold Controller.retrieveEncryptedPrivatekey. subst kept. cbn zeta.
    rewrite Hejected, Hresult, Hmade.
    unfold Controller.respond, Controller.await, mbind, mret,
      Controller.served_bind, Controller.served_ret.
    cbn [Controller.reply Controller.operations app].
    destruct (truthy_string result);
      cbn [Controller.reply Controller.operations app fst snd orb]; [done|].
    by destruct (truthy_string (Controller.Backend.retrieveItemValue b _)).
  - intros result Hresult.
    unfold Controller.retrieveRecoveryPhrase. cbn zeta.
    rewrite Hejected, Hresult.
    unfold Controller.respond, Controller.await, mbind, mret,
      Controller.served_bind, Controller.served_ret.
    cbn [Controller.reply Controller.operations app].
    by destruct (truthy_string result).
Qed.

Lemma retrieve_decoy_sample :
  Controller.respond
    (Controller.retrieveEncryptedPrivatekey Controller.backend
       Controller.stranger)
  = (Controller.Json 200 (Controller.PasswordEncryptedPrivateKey "0xdecoy"),
     [ Controller.EjectionStatus (Some "nobody@unlock");
       Controller.GetUserPrivateKeyByEmailAddress (Some "nobody@unlock");
       Controller.CreateDecoy;
       Controller.StoreExpiringItem (Some "nobody@unlock") "0xdecoy" 900 ]).
Proof.
  apply (proj1 (retrieve_decoy Controller.backend Controller.stranger
                  eq_refl) None "0xdecoy" eq_refl eq_refl).
Defined.

(** X26. Two routes ask about the ejection of one account and act for
    another. [updatePaymentDetails] asks about the email address of the
    route and, when that account is not ejected, saves the card for the
    public key given in the body; [createUser] asks about the email address
    of the new user and creates it with the public key given. Neither asks
    whether the account of that key was ejected: what they call and answer
    is settled by the ejection of the email address alone. *)
Theorem ejection_by_email b req user :
  Controller.Request.user req = Some user →
  (∀ ejected saved,
     Controller.Backend.ejectionStatus b (Controller.Request.emailAddress req)
     = Controller.Resolves ejected →
     Controller.Backend.updatePaymentDetails b
       (Controller.User.stripeTokenId user) (Controller.User.publicKey user)
     = Controller.Resolves saved →
     Controller.respond (Controller.updatePaymentDetails b req)
     = if ejected
       then (Controller.SendStatus 404,
             [Controller.EjectionStatus (Controller.Request.emailAddress req)])
       else (Controller.SendStatus (if saved then 202 else 400),
             [ Controller.EjectionStatus (Controller.Request.emailAddress req);
               Controller.UpdatePaymentDetails
                 (Controller.User.stripeTokenId user)
                 (Controller.User.publicKey user) ]))
  ∧ ∀ ejected recoveryPhrase,
      Controller.Backend.ejectionStatus b (Controller.User.emailAddress user)
      = Controller.Resolves ejected →
      Controller.Backend.createUser b (Controller.User.emailAddress user)
        (Controller.User.publicKey user)
        (Controller.User.passwordEncryptedPrivateKey user)
      = Controller.Resolves recoveryPhrase →
      Controller.respond (Controller.createUser b req)
      = if ejected
        then (Controller.SendStatus 409,
              [Controller.EjectionStatus (Controller.User.emailAddress user)])
        else (Controller.Json
                (if truthy_string recoveryPhrase then 200 else 400)
                (Controller.RecoveryPhrase recoveryPhrase),
              [ Controller.EjectionStatus (Controller.User.emailAddress user);
                Controller.CreateUser (Controller.User.emailAddress user)
                  (Controller.User.publicKey user)
                  (Controller.User.passwordEncryptedPrivateKey user) ]).
Proof.
  intros Huser. split.
  - intros ejected saved Hejected Hsaved.
    unfold Controller.updatePaymentDetails. cbn zeta.
    rewrite Huser. cbn [Controller.property].
    unfold Controller.respond, Controller.await, mbind, mret,
      Controller.served_bind, Controller.served_ret.
    cbn [Controller.reply Controller.operations app].
    rewrite Hejected. destruct ejected; [done|].
    cbn [Controller.reply Controller.operations app].
    rewrite Hsaved. by destruct saved.
  - intros ejected recoveryPhrase Hejected Hphrase.
    unfold Controller.createUser, Controller.userCreationStatus,
      Controller.tryCatch. rewrite Huser.
    unfold Controller.respond, Controller.await, mbind, mret,
      Controller.served_bind, Controller.served_ret.
    cbn [Controller.reply Controller.operations app].
    rewrite Hejected. destruct ejected; [done|].
    cbn [Controller.reply Controller.operations app].
    rewrite Hphrase. done.
Qed.

Lemma ejection_by_email_sample :
  Controller.Backend.ejectionStatusByAddress Controller.backend
    (Some Sample.router)
  = Controller.Resolves true
  ∧ Controller.respond
      (Controller.updatePaymentDetails Controller.backend Controller.borrowed)
    = (Controller.SendStatus 202,
       [ Controller.EjectionStatus (Some "julien@unlock");
         Controller.UpdatePaymentDetails (Some "tok_1")
           (Some Sample.router) ]).
Proof.
  split; [reflexivity|].
  apply (proj1 (ejection_by_email Controller.backend Controller.borrowed _
                  eq_refl) false true eq_refl eq_refl).
Defined.
